(** * Woodlawn new-homeowners extractor: record pipeline

    A shallow embedding of the record pipeline of the extractor
    (normalizers, filter engine, deduplicator, retry wrapper, the
    detail-enrichment reconciliation of the TPAD client, the week ranges
    and the loading of the configuration), followed by the properties
    established about it.

    Conventions of the embedding.
    - JavaScript strings are [string]; every character is read as a 7-bit
      ASCII character, so [toLowerCase], [toUpperCase], [\s], [\d] and [\w]
      have their ASCII meaning (the county site serves ASCII text).
    - JavaScript numbers are [number]: [NaN], the two infinities, or an exact
      rational.  IEEE rounding is not modelled; sums and quotients are the
      exact ones, which is what the program computes on dollar amounts
      below 2^53.
    - A [Date] is its time value in milliseconds, or [None] for an invalid
      date.  The local time zone is taken to be UTC.
    - Logging is not modelled: it does not influence any returned value. *)

From Stdlib Require Import ZArith QArith Qcanon Ascii Lia DecimalString.
From Stdlib Require String.
From stdpp Require Import base decidable option list numbers strings gmap sorting.

Local Open Scope Z_scope.

(** ** The JavaScript runtime functions the program calls *)

Module JS.

  (** *** Characters *)

Definition code (c : ascii) : Z := Z.of_nat (nat_of_ascii c).

Definition isDigit (c : ascii) : bool := (48 <=? code c) && (code c <=? 57).
Definition isUpper (c : ascii) : bool := (65 <=? code c) && (code c <=? 90).
Definition isLower (c : ascii) : bool := (97 <=? code c) && (code c <=? 122).
Definition isLetter (c : ascii) : bool := isUpper c || isLower c.
  (** [\s] and the characters removed by [trim] *)
Definition isSpace (c : ascii) : bool :=
    ((9 <=? code c) && (code c <=? 13)) || (code c =? 32).
  (** [\w] *)
Definition isWord (c : ascii) : bool := isLetter c || isDigit c || (code c =? 95).

Definition toLower (c : ascii) : ascii :=
    if isUpper c then ascii_of_nat (nat_of_ascii c + 32) else c.
Definition toUpper (c : ascii) : ascii :=
    if isLower c then ascii_of_nat (nat_of_ascii c - 32) else c.

Definition digitVal (c : ascii) : Z := code c - 48.

  (** *** Strings *)

Definition eqs (a b : string) : bool := bool_decide (a = b).
  (** truthiness of a string: non-empty *)
Definition truthy (s : string) : bool := negb (eqs s "").

Fixpoint smap (f : ascii → ascii) (s : string) : string :=
    match s with
    | EmptyString => EmptyString
    | String c s' => String (f c) (smap f s')
    end.

Fixpoint sfilter (p : ascii → bool) (s : string) : string :=
    match s with
    | EmptyString => EmptyString
    | String c s' => if p c then String c (sfilter p s') else sfilter p s'
    end.

Fixpoint sall (p : ascii → bool) (s : string) : bool :=
    match s with
    | EmptyString => true
    | String c s' => p c && sall p s'
    end.

Fixpoint sdrop (n : nat) (s : string) : string :=
    match n, s with
    | O, _ => s
    | S n', String _ s' => sdrop n' s'
    | S _, EmptyString => EmptyString
    end.

Definition toLowerCase : string → string := smap toLower.
Definition toUpperCase : string → string := smap toUpper.

Fixpoint trimStart (s : string) : string :=
    match s with
    | String c s' => if isSpace c then trimStart s' else s
    | EmptyString => EmptyString
    end.

Fixpoint trimEnd (s : string) : string :=
    match s with
    | String c s' =>
        let t := trimEnd s' in
        if isSpace c && eqs t "" then EmptyString else String c t
    | EmptyString => EmptyString
    end.

Definition trim (s : string) : string := trimEnd (trimStart s).

Definition startsWith (s pre : string) : bool := String.prefix pre s.

  (** [s.includes(needle)] *)
Fixpoint includes (s needle : string) : bool :=
    String.prefix needle s ||
    match s with
    | String _ s' => includes s' needle
    | EmptyString => false
    end.

  (** [s.split(sep)] for a one-character separator *)
Fixpoint split (sep : ascii) (s : string) : list string :=
    match s with
    | EmptyString => [EmptyString]
    | String c s' =>
        if bool_decide (c = sep) then EmptyString :: split sep s'
        else match split sep s' with
             | h :: t => String c h :: t
             | [] => [String c EmptyString]
             end
    end.

  (** [parts.join(sep)] *)
Fixpoint join (sep : string) (l : list string) : string :=
    match l with
    | [] => EmptyString
    | [x] => x
    | x :: l' => x +:+ sep +:+ join sep l'
    end.

  (** [s.replace(pat, rep)] for a string pattern: first occurrence only *)
Fixpoint replaceFirst (pat rep s : string) : string :=
    if String.prefix pat s then rep +:+ sdrop (String.length pat) s
    else match s with
         | String c s' => String c (replaceFirst pat rep s')
         | EmptyString => EmptyString
         end.

  (** [s.replace(/\s+/g, ' ')]; [inrun] tells that the previous character
      belonged to the run of white space being replaced *)
Fixpoint collapseFrom (inrun : bool) (s : string) : string :=
    match s with
    | EmptyString => EmptyString
    | String c s' =>
        if isSpace c
        then if inrun then collapseFrom true s' else String " " (collapseFrom true s')
        else String c (collapseFrom false s')
    end.
Definition collapseSpaces : string → string := collapseFrom false.

  (** [s.padStart(2, '0')] *)
Definition padStart2 (s : string) : string :=
    match s with
    | EmptyString => "00"
    | String c EmptyString => String "0" s
    | _ => s
    end.

  (** *** Numbers *)

Inductive number : Type :=
  | NaN
  | PInf
  | NInf
  | Fin (q : Qc).

Global Instance number_eq_dec : EqDecision number.
  Proof. solve_decision. Defined.

Definition ofZ (n : Z) : number := Fin (Qc_of_Z n).

Definition isNaN (x : number) : bool :=
    match x with NaN => true | _ => false end.

  (** [a < b] *)
Definition lt (a b : number) : bool :=
    match a, b with
    | NaN, _ | _, NaN => false
    | _, NInf => false
    | NInf, _ => true
    | PInf, _ => false
    | Fin _, PInf => true
    | Fin p, Fin q => bool_decide (p < q)%Qc
    end.
  (** [a > b] *)
Definition gt (a b : number) : bool := lt b a.

Definition add (a b : number) : number :=
    match a, b with
    | NaN, _ | _, NaN => NaN
    | PInf, NInf | NInf, PInf => NaN
    | PInf, _ | _, PInf => PInf
    | NInf, _ | _, NInf => NInf
    | Fin p, Fin q => Fin (p + q)%Qc
    end.

Definition neg (a : number) : number :=
    match a with
    | NaN => NaN
    | PInf => NInf
    | NInf => PInf
    | Fin p => Fin (- p)%Qc
    end.

Definition sub (a b : number) : number := add a (neg b).

  (** [a / b]; a division of a finite number or zero by zero is only
      reached by the program with a positive finite divisor *)
Definition div (a b : number) : number :=
    match a, b with
    | NaN, _ | _, NaN => NaN
    | (PInf | NInf), (PInf | NInf) => NaN
    | Fin _, (PInf | NInf) => Fin 0%Qc
    | Fin p, Fin q =>
        if bool_decide (q = 0%Qc)
        then (if bool_decide (p = 0%Qc) then NaN
              else if bool_decide (0 < p)%Qc then PInf else NInf)
        else Fin (p / q)%Qc
    | PInf, Fin q => if bool_decide (q < 0)%Qc then NInf else PInf
    | NInf, Fin q => if bool_decide (q < 0)%Qc then PInf else NInf
    end.

  (** ToIntegerOrInfinity on a finite number: truncation towards zero *)
Definition trunc (q : Qc) : Z := Z.quot (Qnum (this q)) (Zpos (Qden (this q))).

  (** *** Numeric literals: [parseFloat] and [Number] on strings *)

Fixpoint takeDigits (s : string) : string * string :=
    match s with
    | String c s' =>
        if isDigit c
        then let '(d, r) := takeDigits s' in (String c d, r)
        else (EmptyString, s)
    | EmptyString => (EmptyString, EmptyString)
    end.

Fixpoint digitsValueFrom (acc : Z) (s : string) : Z :=
    match s with
    | String c s' => digitsValueFrom (10 * acc + digitVal c) s'
    | EmptyString => acc
    end.
Definition digitsValue : string → Z := digitsValueFrom 0.

  (** m * 10^e as an exact rational *)
Definition scale10 (m e : Z) : Qc :=
    if 0 <=? e then Qc_of_Z (m * 10 ^ e)
    else Q2Qc (m # Z.to_pos (10 ^ (- e))).

  (** optional sign: [true] for a minus *)
Definition scanSign (s : string) : bool * string :=
    match s with
    | String "-" s' => (true, s')
    | String "+" s' => (false, s')
    | _ => (false, s)
    end.

  (** ExponentPart, taken only when digits follow the indicator *)
Definition scanExponent (s : string) : Z * string :=
    match s with
    | String c s' =>
        if bool_decide (c = "e"%char) || bool_decide (c = "E"%char) then
          let '(minus, s'') := scanSign s' in
          let '(d, r) := takeDigits s'' in
          if eqs d "" then (0, s)
          else (if minus then - digitsValue d else digitsValue d, r)
        else (0, s)
    | EmptyString => (0, EmptyString)
    end.

  (** the longest prefix of [s] that is a StrDecimalLiteral, with its value
      and the text that follows it *)
Definition scanDecimal (s : string) : option (number * string) :=
    let '(minus, s1) := scanSign s in
    if String.prefix "Infinity" s1
    then Some (if minus then NInf else PInf, sdrop 8 s1)
    else
      let '(ip, r1) := takeDigits s1 in
      let '(fp, r2) :=
        match r1 with
        | String "." r => takeDigits r
        | _ => (EmptyString, r1)
        end in
      if eqs ip "" && eqs fp ""
      then None
      else
        let '(e, r3) := scanExponent r2 in
        let m := digitsValue (ip +:+ fp) in
        Some (Fin (scale10 (if minus then - m else m)
                           (e - Z.of_nat (String.length fp))), r3).

Definition parseFloat (s : string) : number :=
    match scanDecimal (trimStart s) with
    | Some (v, _) => v
    | None => NaN
    end.

  (** value of a digit in radix up to 16, if it is one *)
Definition radixDigit (c : ascii) : option Z :=
    if isDigit c then Some (digitVal c)
    else if (97 <=? code c) && (code c <=? 102) then Some (code c - 87)
    else if (65 <=? code c) && (code c <=? 70) then Some (code c - 55)
    else None.

Fixpoint radixValueFrom (radix acc : Z) (s : string) : option Z :=
    match s with
    | EmptyString => Some acc
    | String c s' =>
        match radixDigit c with
        | Some d => if d <? radix then radixValueFrom radix (radix * acc + d) s' else None
        | None => None
        end
    end.

  (** NonDecimalIntegerLiteral: 0x.., 0o.., 0b.. *)
Definition nonDecimal (s : string) : option Z :=
    match s with
    | String "0" (String c (String d s' as ds)) =>
        if bool_decide (c = "x"%char) || bool_decide (c = "X"%char) then radixValueFrom 16 0 ds
        else if bool_decide (c = "o"%char) || bool_decide (c = "O"%char) then radixValueFrom 8 0 ds
        else if bool_decide (c = "b"%char) || bool_decide (c = "B"%char) then radixValueFrom 2 0 ds
        else None
    | _ => None
    end.

  (** [Number(s)] on a string *)
Definition Number (s : string) : number :=
    let t := trim s in
    if eqs t "" then ofZ 0
    else match nonDecimal t with
         | Some v => ofZ v
         | None =>
             match scanDecimal t with
             | Some (v, EmptyString) => v
             | _ => NaN
             end
         end.

  (** *** Dates *)

  (** time value in milliseconds since the epoch; [None] is Invalid Date *)
Definition Date : Type := option Z.

Definition msPerDay : Z := 86400000.

  (** day number of the first day of month [m] (0 = January) of year [y] *)
Definition dayFromYearMonth (y m : Z) : Z :=
    let y' := if m <? 2 then y - 1 else y in
    let era := y' / 400 in
    let yoe := y' - era * 400 in
    let mp := if m <? 2 then m + 10 else m - 2 in
    let doy := (153 * mp + 2) / 5 in
    let doe := yoe * 365 + yoe / 4 - yoe / 100 + doy in
    era * 146097 + doe - 719468.

  (** MakeDay *)
Definition MakeDay (year month date : number) : option Z :=
    match year, month, date with
    | Fin y, Fin m, Fin dt =>
        let ym := trunc y + trunc m / 12 in
        let mn := trunc m mod 12 in
        Some (dayFromYearMonth ym mn + trunc dt - 1)
    | _, _, _ => None
    end.

  (** TimeClip *)
Definition TimeClip (t : Z) : Date :=
    if Z.abs t <=? 8640000000000000 then Some t else None.

  (** [new Date(year, month, day)] *)
Definition newDate (year month day : number) : Date :=
    let yr := match year with
              | Fin y => if (0 <=? trunc y) && (trunc y <=? 99)
                         then ofZ (1900 + trunc y) else year
              | _ => year
              end in
    match MakeDay yr month day with
    | Some d => TimeClip (d * msPerDay)
    | None => None
    end.

  (** [a >= b] and [a <= b] on dates, through their time values *)
Definition dateGe (a b : Date) : bool :=
    match a, b with Some x, Some y => y <=? x | _, _ => false end.
Definition dateLe (a b : Date) : bool :=
    match a, b with Some x, Some y => x <=? y | _, _ => false end.

  (** [getDay()]: 0 is Sunday *)
Definition weekDay (t : Z) : Z := (t / msPerDay + 4) mod 7.

  (** [Day(t)] and [TimeWithinDay(t)] *)
Definition Day (t : Z) : Z := t / msPerDay.
Definition TimeWithinDay (t : Z) : Z := t mod msPerDay.

  (** year, month (0 = January) and day of the month of a day number: what
      [getFullYear()], [getMonth()] and [getDate()] read *)
Definition civilFromDay (day : Z) : Z * Z * Z :=
    let z := day + 719468 in
    let era := z / 146097 in
    let doe := z - era * 146097 in
    let yoe := (doe - doe / 1460 + doe / 36524 - doe / 146096) / 365 in
    let doy := doe - (365 * yoe + yoe / 4 - yoe / 100) in
    let mp := (5 * doy + 2) / 153 in
    let d := doy - (153 * mp + 2) / 5 + 1 in
    let m := if mp <? 10 then mp + 2 else mp - 10 in
    let y := yoe + era * 400 in
    (if m <? 2 then y + 1 else y, m, d).

Definition getFullYear (t : Z) : Z := fst (fst (civilFromDay (Day t))).
Definition getMonth (t : Z) : Z := snd (fst (civilFromDay (Day t))).
Definition getDate (t : Z) : Z := snd (civilFromDay (Day t)).

  (** [d.setDate(dt)] for an integer [dt]: the new value of [d] *)
Definition setDate (d : Date) (dt : Z) : Date :=
    match d with
    | Some t =>
        TimeClip ((dayFromYearMonth (getFullYear t) (getMonth t) + dt - 1) * msPerDay
                  + TimeWithinDay t)
    | None => None
    end.

  (** [d.setHours(h, m, s, ms)]: the new value of [d] *)
Definition setHours (d : Date) (h m s ms : Z) : Date :=
    match d with
    | Some t => TimeClip (Day t * msPerDay + (h * 3600000 + m * 60000 + s * 1000 + ms))
    | None => None
    end.

  (** [String(n)] for an integer [n] *)
Definition integerToString (n : Z) : string := NilZero.string_of_int (Z.to_int n).

  (** [s.replace(/-/g, '_')] and [s.replace(/-/g, '/')] *)
Definition hyphensToUnderscores (s : string) : string :=
    smap (λ c, if bool_decide (c = "-"%char) then "_"%char else c) s.
Definition hyphensToSlashes (s : string) : string :=
    smap (λ c, if bool_decide (c = "-"%char) then "/"%char else c) s.

End JS.

Import JS.

(** ** Data model (types/index.ts) *)

Record RawParcelRecord : Type := {
  parcel_id : string;
  owner_name : string;
  property_address : string;
  city : string;
  zip : string;
  classification : string;
  land_use : string;
  acreage : string;
  assessed_value : string;
  sale_date : string;
  sale_price : string;
  deed_instrument : string;
  qualified_sale : string;
  source_url : string;
}.

Record CleanedSale : Type := {
  cs_parcel_id : string;
  cs_situs_address : string;
  cs_city : string;
  cs_state : string;
  cs_zip : string;
  cs_owner_name : option string;            (* string | null *)
  cs_owner_mailing_address : option string; (* string | null *)
  cs_sale_date : string;
  cs_sale_price : number;
  cs_deed_instrument : string;
  cs_land_use : string;
  cs_source_url : string;
  cs_extracted_at : string;
}.

(** The fields of the configuration that the record pipeline reads.  The
    program refuses a [concurrency] outside 1..10, so it is a positive
    number here. *)
Record ExtractorConfig : Type := {
  concurrency : positive;
  minSalePrice : number;
  instrumentDenylist : list string;
  countyCode : string;
}.

Record DateRange : Type := {
  start : Date;
  end_ : Date;
  label : string;
}.

Record SaleRecord : Type := {
  sr_sale_date : string;
  sr_sale_price : string;
  sr_deed_instrument : string;
  sr_grantor : string;
  sr_grantee : string;
  sr_qualified_sale : string;
  sr_book_page : string;
}.

Record ParcelDetails : Type := {
  pd_parcel_id : string;
  pd_owner_name : string;
  pd_owner_mailing_address : string;
  pd_property_address : string;
  pd_city : string;
  pd_zip : string;
  pd_classification : string;
  pd_land_use : string;
  pd_sales : list SaleRecord;
  pd_source_url : string;
}.

Global Instance RawParcelRecord_eq_dec : EqDecision RawParcelRecord.
Proof. solve_decision. Defined.
Global Instance CleanedSale_eq_dec : EqDecision CleanedSale.
Proof. solve_decision. Defined.

(** ** Normalizers of scraper/parcel-details.ts *)

(** [priceStr.replace(/[$,\s]/g, '')] *)
Definition stripPrice (priceStr : string) : string :=
  sfilter (λ c, negb (bool_decide (c = "$"%char) || bool_decide (c = ","%char) || isSpace c))
          priceStr.

Definition parseSalePrice (priceStr : string) : number :=
  if negb (truthy priceStr) then ofZ 0
  else
    let cleaned := stripPrice priceStr in
    let num := parseFloat cleaned in
    if isNaN num then ofZ 0 else num.

(** [dateStr.match(/^(\d{1,2})\/(\d{1,2})\/(\d{4})$/)]: the three groups *)
Definition matchUSDate (dateStr : string) : option (string * string * string) :=
  match split "/" dateStr with
  | [month; day; year] =>
      if sall isDigit month && sall isDigit day && sall isDigit year
         && bool_decide (1 ≤ String.length month ≤ 2)%nat
         && bool_decide (1 ≤ String.length day ≤ 2)%nat
         && bool_decide (String.length year = 4%nat)
      then Some (month, day, year)
      else None
  | _ => None
  end.

(** [/^\d{4}-\d{2}-\d{2}$/.test(dateStr)] *)
Definition testISODate (dateStr : string) : bool :=
  match split "-" dateStr with
  | [year; month; day] =>
      sall isDigit year && sall isDigit month && sall isDigit day
      && bool_decide (String.length year = 4%nat)
      && bool_decide (String.length month = 2%nat)
      && bool_decide (String.length day = 2%nat)
  | _ => false
  end.

Definition parseSaleDate (dateStr : string) : string :=
  if negb (truthy dateStr) then ""
  else
    match matchUSDate dateStr with
    | Some (month, day, year) =>
        year +:+ "-" +:+ padStart2 month +:+ "-" +:+ padStart2 day
    | None =>
        if testISODate dateStr then dateStr else dateStr
    end.

Definition parcelDetailsToRawRecord (details : ParcelDetails) (sale : SaleRecord)
  : RawParcelRecord :=
  {| parcel_id := pd_parcel_id details;
     owner_name := pd_owner_name details;
     property_address := pd_property_address details;
     city := pd_city details;
     zip := pd_zip details;
     classification := pd_classification details;
     land_use := pd_land_use details;
     acreage := "";
     assessed_value := "";
     sale_date := sr_sale_date sale;
     sale_price := sr_sale_price sale;
     deed_instrument := sr_deed_instrument sale;
     qualified_sale := sr_qualified_sale sale;
     source_url := pd_source_url details |}.

(** ** utils/date-range.ts *)

(** element [i] of [dateStr.split('-').map(Number)]; a missing element is
    [undefined], which arithmetic and the Date constructor read as NaN *)
Definition numberAt (parts : list string) (i : nat) : number :=
  match parts !! i with
  | Some p => Number p
  | None => NaN
  end.

Definition parseDate (dateStr : string) : Date :=
  let parts := split "-" dateStr in
  let year := numberAt parts 0 in
  let month := numberAt parts 1 in
  let day := numberAt parts 2 in
  newDate year (sub month (ofZ 1)) day.

(** [isDateInRange] on a string argument *)
Definition isDateInRange (date : string) (range : DateRange) : bool :=
  let d := parseDate date in
  dateGe d (start range) && dateLe d (end_ range).

(** [formatDate]; the getters of an invalid date give NaN *)
Definition formatDate (date : Date) : string :=
  match date with
  | Some t =>
      let year := integerToString (getFullYear t) in
      let month := padStart2 (integerToString (getMonth t + 1)) in
      let day := padStart2 (integerToString (getDate t)) in
      year +:+ "-" +:+ month +:+ "-" +:+ day
  | None => "NaN-NaN-NaN"
  end.

(** [getMonday]; on an invalid date [getDay()] is NaN and so are [diff] and
    the date set *)
Definition getMonday (date : Date) : Date :=
  match date with
  | Some t =>
      let d := Some t in
      let day := weekDay t in
      let diff := if day =? 0 then -6 else 1 - day in
      let d := setDate d (getDate t + diff) in
      setHours d 0 0 0 0
  | None => None
  end.

(** [sunday.setDate(monday.getDate() + 6)] on a copy of [monday], then
    [sunday.setHours(23, 59, 59, 999)] *)
Definition sundayAfter (monday : Date) : Date :=
  match monday with
  | Some t => setHours (setDate (Some t) (getDate t + 6)) 23 59 59 999
  | None => None
  end.

Definition getSunday (date : Date) : Date := sundayAfter (getMonday date).

(** [getPreviousWeekRange]; [referenceDate] is the argument or, by
    default, the clock *)
Definition getPreviousWeekRange (referenceDate : Date) : DateRange :=
  let currentMonday := getMonday referenceDate in
  let previousMonday :=
    match currentMonday with
    | Some t => setDate (Some t) (getDate t - 7)
    | None => None
    end in
  let previousSunday := sundayAfter previousMonday in
  let label := "Week of " +:+ formatDate previousMonday in
  {| start := previousMonday; end_ := previousSunday; label := label |}.

(** [getWeekRangeFromMonday]; [None] when it throws ([getDay()] of an
    invalid date is NaN, which is not 1) *)
Definition getWeekRangeFromMonday (mondayStr : string) : option DateRange :=
  match parseDate mondayStr with
  | Some monday =>
      if bool_decide (weekDay monday = 1)
      then Some {| start := Some monday;
                   end_ := sundayAfter (Some monday);
                   label := "Week of " +:+ formatDate (Some monday) |}
      else None
  | None => None
  end.

Definition formatDateRange (range : DateRange) : string :=
  formatDate (start range) +:+ " to " +:+ formatDate (end_ range).

Definition getDateRangeFilename (range : DateRange) : string :=
  let start := hyphensToUnderscores (formatDate (start range)) in
  "week_" +:+ start.

(** [generateFilename] (output/csv-writer.ts) *)
Definition generateFilename (prefix dateLabel extension : string) : string :=
  let datePart := hyphensToUnderscores (replaceFirst "Week of " "" dateLabel) in
  prefix +:+ "_" +:+ datePart +:+ "." +:+ extension.

(** [generateS3KeyPrefix] (output/s3-uploader.ts) *)
Definition generateS3KeyPrefix (countyName dateLabel : string) : string :=
  let datePart := hyphensToSlashes (replaceFirst "Week of " "" dateLabel) in
  "newhomeowners/" +:+ toLowerCase countyName +:+ "/" +:+ datePart +:+ "/".

(** ** Filter engine (processors/filter.ts) *)

Definition isDeniedInstrument (instrument : string) (denylist : list string) : bool :=
  if negb (truthy instrument) then false
  else
    let normalized := trim (toLowerCase instrument) in
    existsb (λ denied, includes normalized (toLowerCase denied)) denylist.

Definition residentialTerms : list string :=
  ["residential"; "single family"; "sfr"; "duplex"; "townhouse"; "condo"].

Definition isResidential (record : RawParcelRecord) : bool :=
  let classification := trim (classification record) in
  if eqs classification "00" || includes (toLowerCase classification) "residential"
  then true
  else
    let landUse := toLowerCase (land_use record) in
    existsb (λ term, includes landUse term) residentialTerms.

Inductive Reason : Type :=
| lowSalePrice
| deniedInstrument
| outsideDateRange
| nonResidential
| qualifiedSaleFailed
| other.

Global Instance Reason_eq_dec : EqDecision Reason.
Proof. solve_decision. Defined.

Record FilterReasons : Type := {
  n_lowSalePrice : nat;
  n_deniedInstrument : nat;
  n_outsideDateRange : nat;
  n_nonResidential : nat;
  n_qualifiedSaleFailed : nat;
  n_other : nat;
}.

Record FilterResult : Type := {
  passed : list RawParcelRecord;
  filtered : list RawParcelRecord;
  reasons : FilterReasons;
}.

(** [reasons[reason]] *)
Definition reasonCount (rs : FilterReasons) (reason : Reason) : nat :=
  match reason with
  | lowSalePrice => n_lowSalePrice rs
  | deniedInstrument => n_deniedInstrument rs
  | outsideDateRange => n_outsideDateRange rs
  | nonResidential => n_nonResidential rs
  | qualifiedSaleFailed => n_qualifiedSaleFailed rs
  | other => n_other rs
  end.

(** [reasons[reason]++] *)
Definition bump (rs : FilterReasons) (reason : Reason) : FilterReasons :=
  let inc (k : Reason) := if bool_decide (k = reason) then S (reasonCount rs k) else reasonCount rs k in
  {| n_lowSalePrice := inc lowSalePrice;
     n_deniedInstrument := inc deniedInstrument;
     n_outsideDateRange := inc outsideDateRange;
     n_nonResidential := inc nonResidential;
     n_qualifiedSaleFailed := inc qualifiedSaleFailed;
     n_other := inc other |}.

(** The five conditions tested by the loop body, each true when the record
    is to be rejected for it. *)
Definition outOfRange (dateRange : DateRange) (record : RawParcelRecord) : bool :=
  let saleDate := parseSaleDate (sale_date record) in
  truthy saleDate && negb (isDateInRange saleDate dateRange).

Definition notResidential (record : RawParcelRecord) : bool :=
  negb (isResidential record).

Definition priceTooLow (config : ExtractorConfig) (record : RawParcelRecord) : bool :=
  let price := parseSalePrice (sale_price record) in
  lt price (minSalePrice config).

Definition instrumentDenied (config : ExtractorConfig) (record : RawParcelRecord) : bool :=
  isDeniedInstrument (deed_instrument record) (instrumentDenylist config).

Definition qualifiedNegative (record : RawParcelRecord) : bool :=
  truthy (qualified_sale record) &&
  (let qualified := trim (toLowerCase (qualified_sale record)) in
   eqs qualified "n" || eqs qualified "no" || eqs qualified "false" || eqs qualified "0").

(** truthiness of the local variable [reason] *)
Definition assigned (reason : option Reason) : bool :=
  match reason with Some _ => true | None => false end.

(** The body of the loop up to the final test: the value of the local
    variable [reason], assigned at most once by the chain of guarded
    assignments. *)
Definition rejection (config : ExtractorConfig) (dateRange : DateRange)
    (record : RawParcelRecord) : option Reason :=
  let reason : option Reason := None in
  let reason := if outOfRange dateRange record then Some outsideDateRange else reason in
  let reason := if negb (assigned reason) && notResidential record
                then Some nonResidential else reason in
  let reason := if negb (assigned reason) && priceTooLow config record
                then Some lowSalePrice else reason in
  let reason := if negb (assigned reason) && instrumentDenied config record
                then Some deniedInstrument else reason in
  let reason := if negb (assigned reason) && qualifiedNegative record
                then Some qualifiedSaleFailed else reason in
  reason.

Definition noReasons : FilterReasons :=
  {| n_lowSalePrice := 0; n_deniedInstrument := 0; n_outsideDateRange := 0;
     n_nonResidential := 0; n_qualifiedSaleFailed := 0; n_other := 0 |}.

Definition filterStep (config : ExtractorConfig) (dateRange : DateRange)
    (acc : FilterResult) (record : RawParcelRecord) : FilterResult :=
  match rejection config dateRange record with
  | Some reason =>
      {| passed := passed acc;
         filtered := filtered acc ++ [record];
         reasons := bump (reasons acc) reason |}
  | None =>
      {| passed := passed acc ++ [record];
         filtered := filtered acc;
         reasons := reasons acc |}
  end.

Definition filterRecords (records : list RawParcelRecord) (config : ExtractorConfig)
    (dateRange : DateRange) : FilterResult :=
  fold_left (filterStep config dateRange) records
            {| passed := []; filtered := []; reasons := noReasons |}.

(** ** Normalizers of processors/transform.ts *)

Record Address : Type := {
  a_street : string;
  a_city : string;
  a_state : string;
  a_zip : string;
}.

(** the zip group [\d{5}(?:-\d{4})?] against a whole string *)
Definition isZip (s : string) : bool :=
  match split "-" s with
  | [five] => sall isDigit five && bool_decide (String.length five = 5%nat)
  | [five; four] =>
      sall isDigit five && bool_decide (String.length five = 5%nat)
      && sall isDigit four && bool_decide (String.length four = 4%nat)
  | _ => false
  end.

(** [([A-Z]{2})\s*(\d{5}(?:-\d{4})?)?$] with flag [i], tried at the start of
    [s]: the state letters and the zip (empty when the group is absent).
    The white space run is taken greedily; a shorter run would leave a blank
    where a digit or the end of the text is required. *)
Definition matchStateZipHere (s : string) : option (string * string) :=
  match s with
  | String a (String b rest) =>
      if isLetter a && isLetter b then
        let tail := trimStart rest in
        if eqs tail "" || isZip tail
        then Some (String a (String b EmptyString), tail)
        else None
      else None
  | _ => None
  end.

(** [lastPart.match(...)]: the leftmost position at which the pattern
    matches, with the matched text and the two groups *)
Fixpoint stateZipMatch (s : string) : option (string * string * string) :=
  match matchStateZipHere s with
  | Some (st, zp) => Some (s, st, zp)
  | None =>
      match s with
      | String _ s' => stateZipMatch s'
      | EmptyString => None
      end
  end.

(** [parts.slice(1, -1)] *)
Definition middle (parts : list string) : list string :=
  take (length parts - 2) (drop 1 parts).

Definition parseAddress (fullAddress : string) : Address :=
  if negb (truthy fullAddress)
  then {| a_street := ""; a_city := ""; a_state := ""; a_zip := "" |}
  else
    let parts := map trim (split "," fullAddress) in
    if bool_decide (2 ≤ length parts)%nat then
      let street := default "" (parts !! 0%nat) in
      let lastPart := default "" (last parts) in
      match stateZipMatch lastPart with
      | Some (whole, st, zp) =>
          let state := toUpperCase st in
          let cityPart :=
            if bool_decide (2 < length parts)%nat
            then join ", " (middle parts)
            else trim (replaceFirst whole "" lastPart) in
          {| a_street := street; a_city := cityPart; a_state := state; a_zip := zp |}
      | None =>
          {| a_street := street;
             a_city := if bool_decide (1 < length parts)%nat
                       then default "" (parts !! 1%nat) else "";
             a_state := "TN";
             a_zip := "" |}
      end
    else {| a_street := fullAddress; a_city := ""; a_state := "TN"; a_zip := "" |}.

(** characters kept by [replace(/[^\w\s,.'&-]/g, '')] *)
Definition nameChar (c : ascii) : bool :=
  isWord c || isSpace c || bool_decide (c = ","%char) || bool_decide (c = "."%char)
  || bool_decide (c = "'"%char) || bool_decide (c = "&"%char) || bool_decide (c = "-"%char).

Definition cleanOwnerName (name : string) : string :=
  if negb (truthy name) then ""
  else sfilter nameChar (collapseSpaces (trim name)).

Definition cleanAddress (address : string) : string :=
  if negb (truthy address) then ""
  else toUpperCase (collapseSpaces (trim address)).

(** [a || b] on strings *)
Definition orElse (a b : string) : string := if truthy a then a else b.

(** [transformRecord]; [now] is the value of [new Date().toISOString()]
    read by the call *)
Definition transformRecord (now : string) (record : RawParcelRecord) : CleanedSale :=
  let salePrice := parseSalePrice (sale_price record) in
  let saleDate := parseSaleDate (sale_date record) in
  let propertyAddress := cleanAddress (property_address record) in
  let city0 := orElse (trim (city record)) "" in
  let zip0 := orElse (trim (zip record)) "" in
  let '(city1, zip1) :=
    if negb (truthy city0) && includes propertyAddress ","
    then let parsed := parseAddress propertyAddress in
         (orElse city0 (a_city parsed), orElse zip0 (a_zip parsed))
    else (city0, zip0) in
  let ownerName := cleanOwnerName (owner_name record) in
  {| cs_parcel_id := trim (parcel_id record);
     cs_situs_address := propertyAddress;
     cs_city := toUpperCase city1;
     cs_state := "TN";
     cs_zip := zip1;
     cs_owner_name := if truthy ownerName then Some ownerName else None;
     cs_owner_mailing_address := None;
     cs_sale_date := saleDate;
     cs_sale_price := salePrice;
     cs_deed_instrument := orElse (trim (deed_instrument record)) "";
     cs_land_use := orElse (trim (land_use record))
                           (orElse (trim (classification record)) "");
     cs_source_url := orElse (source_url record) "";
     cs_extracted_at := now |}.

(** [transformRecords]; the clock is read once per record: [clock i] is the
    value of [new Date().toISOString()] for the record of index [i] *)
Definition transformRecords (clock : nat → string) (records : list RawParcelRecord)
  : list CleanedSale :=
  imap (λ i record, transformRecord (clock i) record) records.

Record SalesStats : Type := {
  count : nat;
  totalValue : number;
  averagePrice : number;
  medianPrice : number;
  minPrice : number;
  maxPrice : number;
}.

(** the order induced by the comparator [(a, b) => a - b]: [a] may stay
    before [b] when [a - b] is not positive *)
Definition byDifference (a b : number) : Prop := lt (ofZ 0) (sub a b) = false.

Global Instance byDifference_dec : RelDecision byDifference.
Proof. intros a b. unfold byDifference. apply _. Defined.

(** [prices.sort((a, b) => a - b)], a stable sort *)
Definition sortAscending (prices : list number) : list number :=
  merge_sort byDifference prices.

(** [prices[i]]; an index out of range reads [undefined], NaN in arithmetic *)
Definition at_ (prices : list number) (i : nat) : number :=
  default NaN (prices !! i).

Definition getSalesStats (sales : list CleanedSale) : SalesStats :=
  if bool_decide (length sales = 0%nat)
  then {| count := 0; totalValue := ofZ 0; averagePrice := ofZ 0;
          medianPrice := ofZ 0; minPrice := ofZ 0; maxPrice := ofZ 0 |}
  else
    let prices := sortAscending (map cs_sale_price sales) in
    let total := fold_left add prices (ofZ 0) in
    let medianIndex := (length prices / 2)%nat in
    let median :=
      if bool_decide (length prices mod 2 = 0)%nat
      then div (add (at_ prices (medianIndex - 1)) (at_ prices medianIndex)) (ofZ 2)
      else at_ prices medianIndex in
    {| count := length sales;
       totalValue := total;
       averagePrice := div total (ofZ (Z.of_nat (length sales)));
       medianPrice := median;
       minPrice := at_ prices 0;
       maxPrice := at_ prices (length prices - 1) |}.

(** ** Deduplicator (processors/dedupe.ts) *)

(** A JavaScript [Map] with string keys: entries in insertion order; setting
    an existing key keeps its position. *)
Definition JSMap (V : Type) : Type := list (string * V).

Fixpoint mapGet {V : Type} (m : JSMap V) (k : string) : option V :=
  match m with
  | [] => None
  | (k', v) :: m' => if bool_decide (k' = k) then Some v else mapGet m' k
  end.

Fixpoint mapSet {V : Type} (m : JSMap V) (k : string) (v : V) : JSMap V :=
  match m with
  | [] => [(k, v)]
  | (k', v') :: m' =>
      if bool_decide (k' = k) then (k, v) :: m' else (k', v') :: mapSet m' k v
  end.

Definition mapValues {V : Type} (m : JSMap V) : list V := map snd m.

Definition normalizeParcelId (parcelId : string) : string :=
  collapseSpaces (trim parcelId).

Section Keys.

  (** the text of a number inside a template literal, given by the runtime *)
Variable numberToString : number → string.

Definition generateSaleKey (record : RawParcelRecord) : string :=
    let parcelId := normalizeParcelId (parcel_id record) in
    let saleDate := parseSaleDate (sale_date record) in
    let salePrice := parseSalePrice (sale_price record) in
    parcelId +:+ "|" +:+ saleDate +:+ "|" +:+ numberToString salePrice.

Definition generateCleanedSaleKey (sale : CleanedSale) : string :=
    let parcelId := normalizeParcelId (cs_parcel_id sale) in
    let address := orElse (toUpperCase (trim (cs_situs_address sale))) "" in
    parcelId +:+ "|" +:+ address +:+ "|" +:+ cs_sale_date sale
             +:+ "|" +:+ numberToString (cs_sale_price sale).

Definition generateAddressKey (sale : CleanedSale) : string :=
    let address := orElse (toUpperCase (trim (cs_situs_address sale))) "" in
    let city := orElse (toUpperCase (trim (cs_city sale))) "" in
    address +:+ "|" +:+ city +:+ "|" +:+ cs_sale_date sale
            +:+ "|" +:+ numberToString (cs_sale_price sale).

  (** loop of [deduplicateRawRecords] from a given state of [seen] *)
Fixpoint dedupeRawFrom (seen : gset string) (records : list RawParcelRecord)
    : list RawParcelRecord :=
    match records with
    | [] => []
    | record :: rest =>
        let key := generateSaleKey record in
        if bool_decide (key ∈ seen)
        then dedupeRawFrom seen rest
        else record :: dedupeRawFrom ({[ key ]} ∪ seen) rest
    end.

Definition deduplicateRawRecords (records : list RawParcelRecord)
    : list RawParcelRecord :=
    dedupeRawFrom ∅ records.

  (** loop of [deduplicateCleanedSales] from a given state of the two sets;
      the result lists the sales pushed to [unique] from there on *)
Fixpoint dedupeCleanedFrom (seenByKey seenByAddress : gset string)
      (sales : list CleanedSale) : list CleanedSale :=
    match sales with
    | [] => []
    | sale :: rest =>
        let primaryKey := generateCleanedSaleKey sale in
        let addressKey := generateAddressKey sale in
        if bool_decide (primaryKey ∈ seenByKey) || bool_decide (addressKey ∈ seenByAddress)
        then dedupeCleanedFrom seenByKey seenByAddress rest
        else sale :: dedupeCleanedFrom ({[ primaryKey ]} ∪ seenByKey)
                                       ({[ addressKey ]} ∪ seenByAddress) rest
    end.

Definition deduplicateCleanedSales (sales : list CleanedSale) : list CleanedSale :=
    dedupeCleanedFrom ∅ ∅ sales.

End Keys.

(** the key of [deduplicateByOwnerAddress] *)
Definition ownerAddressKey (sale : CleanedSale) : string :=
  let owner := orElse (match cs_owner_name sale with
                       | Some o => toUpperCase (trim o)
                       | None => ""            (* [?.] on null *)
                       end) "" in
  let address := orElse (toUpperCase (trim (cs_situs_address sale))) "" in
  owner +:+ "|" +:+ address.

Definition ownerAddressStep (byOwnerAddress : JSMap CleanedSale) (sale : CleanedSale)
  : JSMap CleanedSale :=
  let key := ownerAddressKey sale in
  if negb (truthy key) || eqs key "|" then byOwnerAddress
  else
    match mapGet byOwnerAddress key with
    | None => mapSet byOwnerAddress key sale
    | Some existing =>
        if gt (cs_sale_price sale) (cs_sale_price existing)
        then mapSet byOwnerAddress key sale
        else byOwnerAddress
    end.

Definition deduplicateByOwnerAddress (sales : list CleanedSale) : list CleanedSale :=
  mapValues (fold_left ownerAddressStep sales []).

(** ** Retry wrapper (utils/retry.ts) *)

Record Error : Type := { message : string }.

Record RetryOptions : Type := {
  maxRetries : nat;
  isRetryable : option (Error → bool);
}.

Definition retryableMessages : list string :=
  ["timeout"; "ECONNRESET"; "ECONNREFUSED"; "ETIMEDOUT"; "socket hang up";
   "network"; "Navigation timeout"; "Target closed"; "Page closed"].

Definition isNetworkRetryable (error : Error) : bool :=
  let message := toLowerCase (message error) in
  existsb (λ m, includes message (toLowerCase m)) retryableMessages.

(** how a call ends: it returns a value or throws [lastError], which is
    [undefined] ([None]) as long as no attempt has failed *)
Inductive Outcome (T : Type) : Type :=
| Returned (value : T)
| Threw (error : option Error).
Arguments Returned {T} value.
Arguments Threw {T} error.

Section WithRetry.

  (** The wrapped operation acts on a state of the outside world [W] and
      either fails with an error or produces a value. *)
Context {W T : Type}.
Variable fn : W → W * (Error + T).
Variable opts : RetryOptions.

  (** a run of [withRetry]: its outcome, the result of every invocation of
      [fn] in order, and the state of the world it leaves *)
Record Run : Type := {
    outcome : Outcome T;
    invocations : list (Error + T);
    world : W;
  }.

  (** The [for] loop from the value [attempt] of its counter.  The waits
      between attempts ([sleep(calculateDelay(..))]) only take time and are
      left out.  [fuel] bounds the number of iterations; [None] means it
      ran out. *)
Fixpoint retryFrom (fuel attempt : nat) (lastError : option Error)
      (done : list (Error + T)) (w : W) : option Run :=
    if bool_decide (attempt ≤ maxRetries opts)%nat then
      match fuel with
      | O => None
      | S fuel' =>
          match fn w with
          | (w', inr value) =>
              Some {| outcome := Returned value;
                      invocations := done ++ [inr value]; world := w' |}
          | (w', inl error) =>
              let lastError := Some error in
              let done := done ++ [inl error] in
              if bool_decide (maxRetries opts ≤ attempt)%nat
              then Some {| outcome := Threw lastError; invocations := done; world := w' |}
              else
                match isRetryable opts with
                | Some retryable =>
                    if negb (retryable error)
                    then Some {| outcome := Threw lastError; invocations := done; world := w' |}
                    else retryFrom fuel' (S attempt) lastError done w'
                | None => retryFrom fuel' (S attempt) lastError done w'
                end
          end
      end
    else Some {| outcome := Threw lastError; invocations := done; world := w |}.

Definition withRetry (w : W) : option Run :=
    retryFrom (S (maxRetries opts)) 0 None [] w.

End WithRetry.

Arguments Run : clear implicits.

(** ** Detail enrichment (scraper/search.ts, scraper/tpad-client.ts) *)

Record SearchResultRow : Type := {
  viewUrl : string;
  owner : string;
  propertyAddress : string;
  controlMap : string;
  group : string;
  parcel : string;
  specialInterest : string;
  parcelId : string;
  subdivision : string;
  lot : string;
  row_classification : string;
  saleDate : string;
  gisMapUrl : string;
}.

Definition TPAD_BASE_URL : string := "https://assessment.cot.tn.gov/TPAD".

Definition searchResultToRawRecord (row : SearchResultRow) (countyCode : string)
  : RawParcelRecord :=
  let address := trim (collapseSpaces (propertyAddress row)) in
  let city := "COVINGTON" in
  {| parcel_id := parcelId row;
     owner_name := owner row;
     property_address := address;
     city := city;
     zip := "";
     classification := row_classification row;
     land_use := row_classification row;
     acreage := "";
     assessed_value := "";
     sale_date := saleDate row;
     sale_price := "";
     deed_instrument := "";
     qualified_sale := "";
     source_url := if truthy (viewUrl row)
                   then TPAD_BASE_URL +:+ replaceFirst "./" "/" (viewUrl row)
                   else "" |}.

(** what the page loop of [extract] has collected *)
Record Collected : Type := {
  allResults : list RawParcelRecord;
  parcelUrls : JSMap string;
}.

(** the body of the loop over the rows of one results page *)
Definition collectRow (countyCode : string) (acc : Collected) (result : SearchResultRow)
  : Collected :=
  let record := searchResultToRawRecord result countyCode in
  {| allResults := allResults acc ++ [record];
     parcelUrls :=
       if truthy (viewUrl result) then
         let fullUrl := if startsWith (viewUrl result) "http"
                        then viewUrl result
                        else TPAD_BASE_URL +:+ replaceFirst "./" "/" (viewUrl result) in
         mapSet (parcelUrls acc) (parcelId result) fullUrl
       else parcelUrls acc |}.

(** step 4 of [extract] over the result pages visited, in order *)
Definition collectPages (countyCode : string) (pages : list (list SearchResultRow))
  : Collected :=
  fold_left (λ acc page, fold_left (collectRow countyCode) page acc) pages
            {| allResults := []; parcelUrls := [] |}.

(** an element of the result of [Promise.allSettled] *)
Inductive Settled : Type :=
| Fulfilled (value : option ParcelDetails)   (* ParcelDetails | null *)
| Rejected (reason : Error).

(** the successive values of [parcelEntries.slice(i, i + concurrency)];
    [fuel] bounds the number of batches *)
Fixpoint batchesFrom {A : Type} (fuel : nat) (size : positive) (entries : list A)
  : list (list A) :=
  match fuel, entries with
  | _, [] => []
  | O, _ => []
  | S fuel', _ =>
      take (Pos.to_nat size) entries :: batchesFrom fuel' size (drop (Pos.to_nat size) entries)
  end.

Definition batches {A : Type} (size : positive) (entries : list A) : list (list A) :=
  batchesFrom (length entries) size entries.

(** the two arrays filled by step 5 *)
Record Enrichment : Type := {
  parcelDetails : list ParcelDetails;
  enrichedRecords : list RawParcelRecord;
}.

Record TpadExtractionResult : Type := {
  rawRecords : list RawParcelRecord;
  res_parcelDetails : list ParcelDetails;
  totalParcels : nat;
  totalPages : nat;
}.

Section Extract.

  (** [new Date(text)]: the engine's parser of date strings *)
Variable dateFromString : string → Date.

Definition isSaleInDateRange (saleDateStr : string) (startDate endDate : Date) : bool :=
    let isoDate := parseSaleDate saleDateStr in
    if negb (truthy isoDate) then false
    else
      let saleDate := dateFromString isoDate in
      dateGe saleDate startDate && dateLe saleDate endDate.

  (** the records pushed to [enrichedRecords] for one settled detail fetch *)
Definition emitted (dateRange : DateRange) (stubs : list RawParcelRecord)
      (parcelId : string) (result : Settled) : list RawParcelRecord :=
    match result with
    | Fulfilled (Some details) =>
        if bool_decide (0 < length (pd_sales details))%nat then
          map (parcelDetailsToRawRecord details)
              (filter (λ sale, isSaleInDateRange (sr_sale_date sale)
                                 (start dateRange) (end_ dateRange) = true)
                      (pd_sales details))
        else
          match find (λ r, eqs (parcel_id r) parcelId) stubs with
          | Some originalRecord =>
              [ {| parcel_id := parcel_id originalRecord;
                   owner_name := owner_name originalRecord;
                   property_address := property_address originalRecord;
                   city := city originalRecord;
                   zip := zip originalRecord;
                   classification := classification originalRecord;
                   land_use := land_use originalRecord;
                   acreage := acreage originalRecord;
                   assessed_value := assessed_value originalRecord;
                   sale_date := sale_date originalRecord;
                   sale_price := sale_price originalRecord;
                   deed_instrument := deed_instrument originalRecord;
                   qualified_sale := qualified_sale originalRecord;
                   source_url := pd_source_url details |} ]
          | None => []
          end
    | _ =>
        match find (λ r, eqs (parcel_id r) parcelId) stubs with
        | Some originalRecord => [originalRecord]
        | None => []
        end
    end.

  (** the body of the loop over the settled results of one batch *)
Definition reconcile (dateRange : DateRange) (stubs : list RawParcelRecord)
      (acc : Enrichment) (entry : string * string) (result : Settled) : Enrichment :=
    {| parcelDetails :=
         match result with
         | Fulfilled (Some details) => parcelDetails acc ++ [details]
         | _ => parcelDetails acc
         end;
       enrichedRecords :=
         enrichedRecords acc ++ emitted dateRange stubs (fst entry) result |}.

  (** The detail fetches: [fetch parcelId url] is the settled result of the
      retried fetch of one parcel. *)
Variable fetch : string → string → Settled.

Definition processBatch (dateRange : DateRange) (stubs : list RawParcelRecord)
      (acc : Enrichment) (batch : list (string * string)) : Enrichment :=
    let batchResults := map (λ entry, fetch (fst entry) (snd entry)) batch in
    fold_left (λ acc er, reconcile dateRange stubs acc (fst er) (snd er))
              (zip_with pair batch batchResults) acc.

  (** steps 4 and 5 of [extract] and its result, for the rows of the first
      results page and of the pages reached through the next-page button *)
Definition extract (config : ExtractorConfig) (dateRange : DateRange)
      (firstPage : list SearchResultRow) (nextPages : list (list SearchResultRow))
    : TpadExtractionResult :=
    let collected := collectPages (countyCode config) (firstPage :: nextPages) in
    let parcelEntries := parcelUrls collected in
    let enrichment :=
      fold_left (processBatch dateRange (allResults collected))
                (batches (concurrency config) parcelEntries)
                {| parcelDetails := []; enrichedRecords := [] |} in
    let finalRecords :=
      if bool_decide (0 < length (enrichedRecords enrichment))%nat
      then enrichedRecords enrichment
      else allResults collected in
    {| rawRecords := finalRecords;
       res_parcelDetails := parcelDetails enrichment;
       totalParcels := length parcelEntries;
       totalPages := S (length nextPages) |}.

End Extract.

(** ** Further functions of the same modules *)

(** [a < b] on strings: the order of their code units *)
Fixpoint strLt (a b : string) : bool :=
  match a, b with
  | _, EmptyString => false
  | EmptyString, String _ _ => true
  | String x a', String y b' =>
      (code x <? code y) || ((code x =? code y) && strLt a' b')
  end.
(** [a > b] on strings *)
Definition strGt (a b : string) : bool := strLt b a.

(** [isLikelyArmsLength] (processors/filter.ts) *)
Definition isLikelyArmsLength (record : RawParcelRecord) (config : ExtractorConfig)
  : bool :=
  let price := parseSalePrice (sale_price record) in
  if lt price (minSalePrice config) then false
  else if isDeniedInstrument (deed_instrument record) (instrumentDenylist config)
  then false
  else if truthy (qualified_sale record)
          && (let qualified := toLowerCase (qualified_sale record) in
              eqs qualified "n" || eqs qualified "no" || eqs qualified "false")
  then false
  else true.

(** [isQualifiedSale] (scraper/parcel-details.ts) *)
Definition isQualifiedSale (qualificationStr : string) : bool :=
  let code := toUpperCase (trim qualificationStr) in
  startsWith code "A" || includes code "ACCEPTED" || includes code "QUALIFIED".

(** [isoDate.match(/^(\d{4})-(\d{2})-(\d{2})/)]: the three groups, taken
    from the start of the text, whatever follows *)
Definition matchISOPrefix (isoDate : string) : option (string * string * string) :=
  match isoDate with
  | String y1 (String y2 (String y3 (String y4 (String "-"
      (String m1 (String m2 (String "-" (String d1 (String d2 _))))))))) =>
      if isDigit y1 && isDigit y2 && isDigit y3 && isDigit y4
         && isDigit m1 && isDigit m2 && isDigit d1 && isDigit d2
      then Some (String y1 (String y2 (String y3 (String y4 EmptyString))),
                 String m1 (String m2 EmptyString),
                 String d1 (String d2 EmptyString))
      else None
  | _ => None
  end.

(** [formatDisplayDate] (processors/transform.ts) *)
Definition formatDisplayDate (isoDate : string) : string :=
  if negb (truthy isoDate) then ""
  else
    match matchISOPrefix isoDate with
    | Some (year, month, day) => month +:+ "/" +:+ day +:+ "/" +:+ year
    | None => isoDate
    end.

(** the body of the loop of [deduplicateByParcel] (processors/dedupe.ts) *)
Definition byParcelStep (byParcel : JSMap RawParcelRecord) (record : RawParcelRecord)
  : JSMap RawParcelRecord :=
  let parcelId := trim (parcel_id record) in
  match mapGet byParcel parcelId with
  | None => mapSet byParcel parcelId record
  | Some existing =>
      let existingDate := parseSaleDate (sale_date existing) in
      let currentDate := parseSaleDate (sale_date record) in
      if strGt currentDate existingDate
      then mapSet byParcel parcelId record
      else byParcel
  end.

Definition deduplicateByParcel (records : list RawParcelRecord) : list RawParcelRecord :=
  mapValues (fold_left byParcelStep records []).

(** The processing of the records returned by the extraction, as the
    command-line entry point chains it: raw deduplication, filter,
    transformation, and the two deduplications of cleaned sales.  (The
    entry point stops before the chain when nothing was extracted, a case
    in which the chain would produce nothing.) *)
Definition cleanSales (numberToString : number → string) (clock : nat → string)
    (config : ExtractorConfig) (dateRange : DateRange)
    (rawRecords : list RawParcelRecord) : list CleanedSale :=
  let deduped := deduplicateRawRecords numberToString rawRecords in
  let result := filterRecords deduped config dateRange in
  let transformedSales := transformRecords clock (passed result) in
  let dedupedByRecord := deduplicateCleanedSales numberToString transformedSales in
  deduplicateByOwnerAddress dedupedByRecord.

(** ** Configuration (config/index.ts) *)

(** the Number value of an integer: the integer itself below 2^53 in
    magnitude, beyond that the nearest number with 53 significant bits,
    ties to the even one, and an infinity once that reaches 2^1024 *)
Definition numberOfInteger (n : Z) : number :=
  let magnitude := Z.abs n in
  if magnitude <? 2 ^ 53 then ofZ n
  else
    let e := Z.log2 magnitude - 52 in
    let q := magnitude / 2 ^ e in
    let r := magnitude mod 2 ^ e in
    let half := 2 ^ (e - 1) in
    let q := if (half <? r) || ((r =? half) && Z.odd q) then q + 1 else q in
    if 2 ^ 1024 <=? q * 2 ^ e
    then (if n <? 0 then NInf else PInf)
    else ofZ (if n <? 0 then - (q * 2 ^ e) else q * 2 ^ e).

(** [Number.parseInt(value, 10)]: the digits that follow the white space
    and the sign, as a Number, hence an infinity when they are too many *)
Definition parseIntDecimal (value : string) : number :=
  let '(minus, rest) := scanSign (trimStart value) in
  let '(ds, _) := takeDigits rest in
  if eqs ds "" then NaN
  else numberOfInteger (if minus then - digitsValue ds else digitsValue ds).

(** [parseList]; [None] is [undefined] *)
Definition parseList (value : option string) (defaultValue : list string)
  : list string :=
  match value with
  | Some v =>
      if negb (truthy v) || eqs (trim v) "" then defaultValue
      else List.filter truthy (map trim (split "," v))
  | None => defaultValue
  end.

Definition parseInt (value : option string) (defaultValue : number) : number :=
  match value with
  | Some v =>
      if eqs v "" then defaultValue
      else
        let parsed := parseIntDecimal v in
        if isNaN parsed then defaultValue else parsed
  | None => defaultValue
  end.

Definition DEFAULT_INSTRUMENT_DENYLIST : list string :=
  ["Quitclaim"; "Deed of Trust"; "Release"; "Correction"; "Trustee"; "Executor";
   "Sheriff"; "Tax Deed"; "Affidavit"].

(** [process.env.NAME || fallback] *)
Definition envOr (value : option string) (fallback : string) : string :=
  match value with
  | Some v => orElse v fallback
  | None => fallback
  end.

(** the fields of the loaded configuration that the record pipeline and
    [validateConfig] read, numbers as the loader leaves them *)
Record Settings : Type := {
  st_concurrency : number;
  st_minSalePrice : number;
  st_instrumentDenylist : list string;
  st_countyCode : string;
  st_sendgridApiKey : string;
  st_emailTo : string;
}.

(** [loadConfig], for those fields; [env name] is [process.env[name]] *)
Definition loadConfig (env : string → option string) : Settings :=
  {| st_concurrency := parseInt (env "CONCURRENCY") (ofZ 3);
     st_minSalePrice := parseInt (env "MIN_SALE_PRICE") (ofZ 100000);
     st_instrumentDenylist :=
       parseList (env "INSTRUMENT_DENYLIST") DEFAULT_INSTRUMENT_DENYLIST;
     st_countyCode := envOr (env "COUNTY_CODE") "084";
     st_sendgridApiKey := envOr (env "SENDGRID_API_KEY") "";
     st_emailTo := envOr (env "EMAIL_TO") "" |}.

Definition validateConfig (config : Settings) (requireEmail : bool) : list string :=
  let errors : list string := [] in
  let errors :=
    if requireEmail then
      let errors :=
        if negb (truthy (st_sendgridApiKey config))
        then errors ++ ["SENDGRID_API_KEY is required for email delivery"]
        else errors in
      if negb (truthy (st_emailTo config))
      then errors ++ ["EMAIL_TO is required for email delivery"]
      else errors
    else errors in
  let errors :=
    if lt (st_concurrency config) (ofZ 1) || gt (st_concurrency config) (ofZ 10)
    then errors ++ ["CONCURRENCY must be between 1 and 10"]
    else errors in
  let errors :=
    if lt (st_minSalePrice config) (ofZ 0)
    then errors ++ ["MIN_SALE_PRICE must be non-negative"]
    else errors in
  errors.

(** [calculateDelay] (utils/retry.ts) on finite numbers; [random] is the
    value of [Math.random()], and the three last arguments are the fields
    [initialDelayMs], [maxDelayMs] and [backoffMultiplier] of the options *)
Definition calculateDelay (random : Qc) (attempt : nat)
    (initialDelayMs maxDelayMs backoffMultiplier : Qc) : Qc :=
  let baseDelay := (initialDelayMs * backoffMultiplier ^ attempt)%Qc in
  let jitter := (baseDelay * Q2Qc (1 # 5) * (random * 2 - 1))%Qc in
  if bool_decide (baseDelay + jitter < maxDelayMs)%Qc
  then (baseDelay + jitter)%Qc
  else maxDelayMs.

(** ** Property images (utils/maps.ts) *)

Definition buildFullAddress (sale : CleanedSale) : string :=
  let parts := List.filter truthy
                 [cs_situs_address sale; cs_city sale; cs_state sale; cs_zip sale] in
  join ", " parts.

Inductive ImageType : Type := streetview | satellite.

Section Maps.

  (** [encodeURIComponent] and the text of a number in a template *)
Variable encodeURIComponent : string → string.
Variable numberToString : number → string.

Definition getStreetViewUrl (address apiKey : string) (width height : number) : string :=
    let encodedAddress := encodeURIComponent address in
    "https://maps.googleapis.com/maps/api/streetview?size=" +:+ numberToString width
    +:+ "x" +:+ numberToString height +:+ "&location=" +:+ encodedAddress
    +:+ "&key=" +:+ apiKey.

  (** [getSatelliteViewUrl] with its default zoom, 19 *)
Definition getSatelliteViewUrl (address apiKey : string) (width height : number)
    : string :=
    let zoom := ofZ 19 in
    let encodedAddress := encodeURIComponent address in
    "https://maps.googleapis.com/maps/api/staticmap?center=" +:+ encodedAddress
    +:+ "&zoom=" +:+ numberToString zoom +:+ "&size=" +:+ numberToString width
    +:+ "x" +:+ numberToString height +:+ "&maptype=satellite&markers=color:red%7C"
    +:+ encodedAddress +:+ "&key=" +:+ apiKey.

  (** [getPropertyImageUrl]; [None] is [null] *)
Definition getPropertyImageUrl (sale : CleanedSale) (apiKey : string)
      (imageType : ImageType) (width height : number) : option string :=
    if negb (truthy apiKey) then None
    else
      let address := buildFullAddress sale in
      if negb (truthy address) then None
      else
        match imageType with
        | streetview => Some (getStreetViewUrl address apiKey width height)
        | satellite => Some (getSatelliteViewUrl address apiKey width height)
        end.

End Maps.

(** ** Vocabulary of the statements *)

(** a string of decimal digits *)
Definition digits (s : string) : Prop := sall isDigit s = true.

(** text of shape M/D/YYYY or MM/DD/YYYY, with its three fields *)
Definition usDate (month day year s : string) : Prop :=
  digits month ∧ digits day ∧ digits year ∧
  (1 ≤ String.length month ≤ 2)%nat ∧ (1 ≤ String.length day ≤ 2)%nat ∧
  String.length year = 4%nat ∧
  s = month +:+ "/" +:+ day +:+ "/" +:+ year.

Definition usDateShape (s : string) : Prop :=
  ∃ month day year, usDate month day year s.

(** text of shape YYYY-MM-DD *)
Definition isoDateShape (s : string) : Prop :=
  ∃ year month day,
    digits year ∧ digits month ∧ digits day ∧
    String.length year = 4%nat ∧ String.length month = 2%nat ∧
    String.length day = 2%nat ∧
    s = year +:+ "-" +:+ month +:+ "-" +:+ day.

(** the five checks of the filter in their order, each with the reason it
    stands for *)
Definition checks (config : ExtractorConfig) (dateRange : DateRange)
  : list ((RawParcelRecord → bool) * Reason) :=
  [ (outOfRange dateRange, outsideDateRange);
    (notResidential, nonResidential);
    (priceTooLow config, lowSalePrice);
    (instrumentDenied config, deniedInstrument);
    (qualifiedNegative, qualifiedSaleFailed) ].

(** the reason of the first check, in that order, that the record fails *)
Definition firstFailure (config : ExtractorConfig) (dateRange : DateRange)
    (record : RawParcelRecord) : option Reason :=
  snd <$> find (λ check, fst check record) (checks config dateRange).

Definition allReasons : list Reason :=
  [lowSalePrice; deniedInstrument; outsideDateRange; nonResidential;
   qualifiedSaleFailed; other].

(** the sum of the counters of a [FilterReasons] *)
Definition totalCount (rs : FilterReasons) : nat :=
  foldr (λ k n, (reasonCount rs k + n)%nat) 0%nat allReasons.

(** the four checks that follow the date check *)
Definition laterChecks (config : ExtractorConfig) (dateRange : DateRange)
  : list ((RawParcelRecord → bool) * Reason) :=
  tail (checks config dateRange).

(** *** Sample data, after the fixtures of the test suite *)

Definition sampleRecord (saleDate salePrice instrument : string) : RawParcelRecord :=
  {| parcel_id := "123-456";
     owner_name := "John Doe";
     property_address := "123 Main St";
     city := "Covington";
     zip := "38019";
     classification := "00";
     land_use := "Residential";
     acreage := "0.5";
     assessed_value := "150000";
     sale_date := saleDate;
     sale_price := salePrice;
     deed_instrument := instrument;
     qualified_sale := "Y";
     source_url := "https://example.com/parcel/123-456" |}.

Definition sampleConfig : ExtractorConfig :=
  {| concurrency := 3;
     minSalePrice := ofZ 1000;
     instrumentDenylist := ["Quitclaim"; "Deed of Trust"; "Sheriff"];
     countyCode := "084" |}.

(** the week of Monday 2025-01-06, as [getWeekRangeFromMonday] builds it *)
Definition sampleWeek : DateRange :=
  {| start := Some 1736121600000;
     end_ := Some 1736726399999;
     label := "Week of 2025-01-06" |}.

(** a number that is a non-negative integer *)
Definition nonNegativeInteger (x : number) : Prop :=
  ∃ n : Z, 0 ≤ n ∧ x = ofZ n.

(** the invariant the data model announces for a [CleanedSale] *)
Definition announcedInvariant (sale : CleanedSale) : Prop :=
  nonNegativeInteger (cs_sale_price sale)
  ∧ (isoDateShape (cs_sale_date sale) ∨ cs_sale_date sale = "")
  ∧ cs_owner_name sale ≠ Some ""
  ∧ cs_owner_mailing_address sale ≠ Some "".

(** a sale without owner name: null, empty or blank *)
Definition noOwner (sale : CleanedSale) : Prop :=
  match cs_owner_name sale with
  | Some o => trim o = ""
  | None => True
  end.

(** a sale without situs address: empty or blank *)
Definition noAddress (sale : CleanedSale) : Prop :=
  trim (cs_situs_address sale) = "".

(** the owner name of a sale, the empty text when it has none *)
Definition ownerText (sale : CleanedSale) : string :=
  default "" (cs_owner_name sale).

(** a [CleanedSale] of the sample parcel with a given owner, address and price *)
Definition sampleSale (ownerName : option string) (address : string) (price : Z)
  : CleanedSale :=
  {| cs_parcel_id := "123-456";
     cs_situs_address := address;
     cs_city := "COVINGTON";
     cs_state := "TN";
     cs_zip := "38019";
     cs_owner_name := ownerName;
     cs_owner_mailing_address := None;
     cs_sale_date := "2025-01-08";
     cs_sale_price := ofZ price;
     cs_deed_instrument := "Warranty Deed";
     cs_land_use := "Residential";
     cs_source_url := "https://example.com/parcel/123-456";
     cs_extracted_at := "2025-01-13T06:00:00.000Z" |}.

(** [a] is at most [b]: [b < a] is false *)
Definition atMost (a b : number) : Prop := lt b a = false.

(** the sum of a list of numbers *)
Definition sumOf (l : list number) : number := foldr add (ofZ 0) l.

Global Instance SalesStats_eq_dec : EqDecision SalesStats.
Proof. solve_decision. Defined.

(** sales of the sample parcel at 100000, 200000 and 300000 dollars *)
Definition threeSales : list CleanedSale :=
  [ sampleSale None "" 100000; sampleSale None "" 200000; sampleSale None "" 300000 ].

Section Calls.

Context {W T : Type}.
Variable fn : W → W * (Error + T).

  (** the results of [n] successive invocations of the operation from the
      state [w] of the world *)
Fixpoint calls (n : nat) (w : W) : list (Error + T) :=
    match n with
    | O => []
    | S n' => snd (fn w) :: calls n' (fst (fn w))
    end.

  (** the state of the world after them *)
Fixpoint after (n : nat) (w : W) : W :=
    match n with
    | O => w
    | S n' => after n' (fst (fn w))
    end.

End Calls.

(** whether the options let an attempt that failed with [error] be retried *)
Definition mayRetry (opts : RetryOptions) (error : Error) : bool :=
  match isRetryable opts with
  | Some retryable => retryable error
  | None => true
  end.

(** an operation that fails with the errors of a script, one per
    invocation, and succeeds with 7 once the script is exhausted *)
Definition scripted (w : list string) : list string * (Error + nat) :=
  match w with
  | m :: w' => (w', inl {| message := m |})
  | [] => ([], inr 7%nat)
  end.

(** a run of white space *)
Definition blanks (s : string) : Prop := sall isSpace s = true.

(** the text [whole] is a state and zip: two letters, white space, and a
    zip of five digits, optionally followed by a hyphen and four digits, or
    no zip at all *)
Definition stateZip (whole st zp : string) : Prop :=
  ∃ a b gap,
    st = String a (String b "")
    ∧ isLetter a = true ∧ isLetter b = true
    ∧ blanks gap
    ∧ (zp = "" ∨ isZip zp = true)
    ∧ whole = st +:+ gap +:+ zp.

(** the comma-separated segments of an address, trimmed *)
Definition segments (fullAddress : string) : list string :=
  map trim (split "," fullAddress).

(** [new Date(text)] on the date-only form YYYY-MM-DD, the one form whose
    reading ECMAScript fixes: midnight UTC of that day.  What an engine does
    with any other text, or with a day that the month does not have, is its
    own affair; this reading takes those as invalid dates. *)
Definition dateFromISO (text : string) : Date :=
  if testISODate text then
    match split "-" text with
    | [year; month; day] =>
        let y := digitsValue year in
        let m := digitsValue month in
        let d := digitsValue day in
        let first := dayFromYearMonth y (m - 1) in
        let next := if m =? 12 then dayFromYearMonth (y + 1) 0 else dayFromYearMonth y m in
        if (1 <=? m) && (m <=? 12) && (1 <=? d) && (first + d - 1 <? next)
        then Some ((first + d - 1) * msPerDay)
        else None
    | _ => None
    end
  else None.

(** the original stub with its [source_url] replaced *)
Definition withSourceUrl (record : RawParcelRecord) (url : string) : RawParcelRecord :=
  {| parcel_id := parcel_id record;
     owner_name := owner_name record;
     property_address := property_address record;
     city := city record;
     zip := zip record;
     classification := classification record;
     land_use := land_use record;
     acreage := acreage record;
     assessed_value := assessed_value record;
     sale_date := sale_date record;
     sale_price := sale_price record;
     deed_instrument := deed_instrument record;
     qualified_sale := qualified_sale record;
     source_url := url |}.

Section Announced.

Variable dateFromString : string → Date.

  (** the sales of a detail page that lie inside the range *)
Definition salesInRange (dateRange : DateRange) (details : ParcelDetails)
    : list SaleRecord :=
    filter (λ sale, isSaleInDateRange dateFromString (sr_sale_date sale)
                      (start dateRange) (end_ dateRange) = true)
           (pd_sales details).

  (** The reconciliation as the design text words it, a chain of three
      cases: some sale in range, else no sale at all, else the stub
      unchanged. *)
Definition emittedAsAnnounced (dateRange : DateRange) (stubs : list RawParcelRecord)
      (parcelId : string) (result : Settled) : list RawParcelRecord :=
    let stub := find (λ r, eqs (parcel_id r) parcelId) stubs in
    match result with
    | Fulfilled (Some details) =>
        if bool_decide (salesInRange dateRange details ≠ [])
        then map (parcelDetailsToRawRecord details) (salesInRange dateRange details)
        else if bool_decide (pd_sales details = [])
             then option_list (flip withSourceUrl (pd_source_url details) <$> stub)
             else option_list stub
    | _ => option_list stub
    end.

End Announced.

(** a row of the results table for the sample parcel *)
Definition sampleRow (id link : string) : SearchResultRow :=
  {| viewUrl := link;
     owner := "DOE JOHN";
     propertyAddress := "MAIN ST  123";
     controlMap := "067";
     group := "";
     parcel := "053.08";
     specialInterest := "000";
     parcelId := id;
     subdivision := "";
     lot := "";
     row_classification := "00";
     saleDate := "01/08/2025";
     gisMapUrl := "" |}.

Definition sampleSaleRecord (date price : string) : SaleRecord :=
  {| sr_sale_date := date;
     sr_sale_price := price;
     sr_deed_instrument := "WD - WARRANTY DEED";
     sr_grantor := "";
     sr_grantee := "";
     sr_qualified_sale := "A - ACCEPTED";
     sr_book_page := "1234-567" |}.

(** the detail page of the sample parcel with a given sales history *)
Definition sampleDetails (id : string) (sales : list SaleRecord) : ParcelDetails :=
  {| pd_parcel_id := id;
     pd_owner_name := "DOE JOHN";
     pd_owner_mailing_address := "";
     pd_property_address := "123 MAIN ST";
     pd_city := "COVINGTON";
     pd_zip := "38019";
     pd_classification := "00 - Residential";
     pd_land_use := "00 - Residential";
     pd_sales := sales;
     pd_source_url := "https://assessment.cot.tn.gov/TPAD/Parcel/Details?parcelId=" +:+ id |}.

(** a text without the separator character *)
Definition without (sep : ascii) (s : string) : Prop :=
  sall (λ c, negb (bool_decide (c = sep))) s = true.

(** What holds of the map of [deduplicateByOwnerAddress] once the records
    of [seen] have been processed: its keys are distinct, every entry is a
    processed record filed under its own key, which is not the bare
    separator, and no processed record of that key has a greater price; and
    every processed record with a proper key has an entry. *)
Definition filed (seen : list CleanedSale) (m : JSMap CleanedSale) : Prop :=
  NoDup m.*1
  ∧ (∀ k s, (k, s) ∈ m →
       ownerAddressKey s = k ∧ k ≠ "|" ∧ s ∈ seen
       ∧ ∀ r, r ∈ seen → ownerAddressKey r = k →
              gt (cs_sale_price r) (cs_sale_price s) = false)
  ∧ (∀ r, r ∈ seen → ownerAddressKey r ≠ "|" → ownerAddressKey r ∈ m.*1).

(** what a run of the retry loop adds to the invocations already made *)
Definition ranFrom {W T : Type} (fn : W → W * (Error + T)) (opts : RetryOptions)
    (fuel : nat) (w : W) (done : list (Error + T)) (run : Run W T) : Prop :=
  ∃ more,
    invocations run = done ++ more
    ∧ (1 ≤ length more ≤ fuel)%nat
    ∧ more = calls fn (length more) w
    ∧ world run = after fn (length more) w
    ∧ (∀ k e, more !! k = Some (inl e) → (S k < length more)%nat →
              mayRetry opts e = true)
    ∧ (∀ k v, more !! k = Some (inr v) → S k = length more)
    ∧ (∀ e, last more = Some (inl e) →
            outcome run = Threw (Some e)
            ∧ (mayRetry opts e = false ∨ length more = fuel))
    ∧ (∀ v, last more = Some (inr v) → outcome run = Returned v).

(** the URL map has one entry per key, and every key is the parcel id of
    a collected stub *)
Definition mapped (c : Collected) : Prop :=
  NoDup (parcelUrls c).*1
  ∧ ∀ k, k ∈ (parcelUrls c).*1 → ∃ r, r ∈ allResults c ∧ parcel_id r = k.

(** what one entry of the URL map adds to [enrichedRecords] *)
Definition emits (dateFromString : string → Date) (fetch : string → string → Settled)
    (dateRange : DateRange) (stubs : list RawParcelRecord) (entry : string * string)
  : list RawParcelRecord :=
  emitted dateFromString dateRange stubs (fst entry) (fetch (fst entry) (snd entry)).

(** what it adds to [parcelDetails] *)
Definition fetched (fetch : string → string → Settled) (entry : string * string)
  : list ParcelDetails :=
  match fetch (fst entry) (snd entry) with
  | Fulfilled (Some details) => [details]
  | _ => []
  end.

(** the detail fetches of the sample run: the first parcel has a sale
    inside the sample week and an older one, the fetch of any other parcel
    is rejected *)
Definition sampleFetch (id url : string) : Settled :=
  if eqs id "067 053.08 000"
  then Fulfilled (Some (sampleDetails id [ sampleSaleRecord "1/8/2025" "$250,000";
                                           sampleSaleRecord "3/15/2019" "$100,000" ]))
  else Rejected {| message := "Navigation timeout of 30000 ms exceeded" |}.

(** *** Vocabulary of the further properties *)

(** no white space other than single blanks: every white-space character is
    a blank and no two of them are adjacent; [afterSpace] tells that the
    text follows a white-space character *)
Fixpoint singleSpacedFrom (afterSpace : bool) (s : string) : bool :=
  match s with
  | EmptyString => true
  | String c s' =>
      if isSpace c
      then bool_decide (c = " "%char) && negb afterSpace && singleSpacedFrom true s'
      else singleSpacedFrom false s'
  end.
Definition singleSpaced : string → bool := singleSpacedFrom false.

(** the text starts with a white-space character *)
Definition startsWithSpace (s : string) : bool :=
  match s with
  | String c _ => isSpace c
  | EmptyString => false
  end.

(** the text ends with a white-space character *)
Fixpoint endsWithSpace (s : string) : bool :=
  match s with
  | EmptyString => false
  | String c EmptyString => isSpace c
  | String _ s' => endsWithSpace s'
  end.

(** a text in the normal form of identifiers and addresses: no white space
    at either end, and single blanks inside *)
Definition tidy (s : string) : Prop :=
  startsWithSpace s = false ∧ endsWithSpace s = false ∧ singleSpaced s = true.

(** the decimal text of an integer number; the other numbers are given
    their JavaScript names or, for a fraction, its integer part (a
    rendering for the examples, which use whole dollars) *)
Definition renderNumber (x : number) : string :=
  match x with
  | NaN => "NaN"
  | PInf => "Infinity"
  | NInf => "-Infinity"
  | Fin q => NilZero.string_of_int (Z.to_int (trunc q))
  end.

Section KeepBest.

Context {V : Type}.
Variable key : V → string.
Variable better : V → V → bool.

(** one step of a loop that files values under their key and replaces the
    value on file only by a better one *)
Definition keepStep (m : JSMap V) (v : V) : JSMap V :=
  match mapGet m (key v) with
  | None => mapSet m (key v) v
  | Some existing => if better v existing then mapSet m (key v) v else m
  end.

(** what holds of the map once the values of [seen] have been processed *)
Definition keptBest (seen : list V) (m : JSMap V) : Prop :=
  NoDup m.*1
  ∧ (∀ k s, (k, s) ∈ m →
       key s = k ∧ s ∈ seen ∧ ∀ r, r ∈ seen → key r = k → better r s = false)
  ∧ (∀ r, r ∈ seen → key r ∈ m.*1).

End KeepBest.

(** the key of [deduplicateByParcel] *)
Definition parcelKey (record : RawParcelRecord) : string := trim (parcel_id record).

(** [deduplicateByParcel] prefers a record to the one on file when its
    parsed sale date is the greater text *)
Definition laterSale (record existing : RawParcelRecord) : bool :=
  strGt (parseSaleDate (sale_date record)) (parseSaleDate (sale_date existing)).

(** the URL that the page loop of [extract] files for a row with a link *)
Definition detailUrl (row : SearchResultRow) : string :=
  if startsWith (viewUrl row) "http"
  then viewUrl row
  else TPAD_BASE_URL +:+ replaceFirst "./" "/" (viewUrl row).

(** the row has the parcel id [id] and a link *)
Definition linked (id : string) (row : SearchResultRow) : bool :=
  bool_decide (parcelId row = id) && truthy (viewUrl row).

(** the detail fetch of an entry of the URL map failed: it was rejected or
    gave null *)
Definition fetchFailed (fetch : string → string → Settled) (entry : string * string)
  : Prop :=
  match fetch (fst entry) (snd entry) with
  | Fulfilled (Some _) => False
  | _ => True
  end.

(** [p] holds of the [n] integers from [z] on *)
Fixpoint allFrom (p : Z → bool) (z : Z) (n : nat) : bool :=
  match n with
  | O => true
  | S n' => p z && allFrom p (z + 1) n'
  end.

Definition leapYear (y : Z) : bool :=
  (y mod 4 =? 0) && (negb (y mod 100 =? 0) || (y mod 400 =? 0)).

(** the number of days of month [m] (1 = January) of year [y] *)
Definition daysInMonth (y m : Z) : Z :=
  if m =? 2 then (if leapYear y then 29 else 28)
  else if (m =? 4) || (m =? 6) || (m =? 9) || (m =? 11) then 30
  else 31.

(** for a day [doe] of a 400-year era: the year of the era, the month
    counted from March and the day of the month that [civilFromDay]
    computes lead back to [doe], and they are a date of the calendar *)
Definition civilCheck (doe : Z) : bool :=
  let yoe := (doe - doe / 1460 + doe / 36524 - doe / 146096) / 365 in
  let doy := doe - (365 * yoe + yoe / 4 - yoe / 100) in
  let mp := (5 * doy + 2) / 153 in
  let d := doy - (153 * mp + 2) / 5 + 1 in
  let m0 := if mp <? 10 then mp + 2 else mp - 10 in
  let civilYear := yoe + 400 + (if m0 <? 2 then 1 else 0) in
  (0 <=? yoe) && (yoe <=? 399) && (0 <=? mp) && (mp <=? 11)
  && (yoe * 365 + yoe / 4 - yoe / 100 + (153 * mp + 2) / 5 + d - 1 =? doe)
  && (1 <=? d) && (d <=? daysInMonth civilYear (m0 + 1)).

(** the greatest time value of a [Date] *)
Definition maxTime : Z := 8640000000000000.

(** the configuration of the pipeline that settings with a whole number of
    concurrent fetches stand for *)
Definition asExtractorConfig (settings : Settings) (fetches : positive) : ExtractorConfig :=
  {| concurrency := fetches;
     minSalePrice := st_minSalePrice settings;
     instrumentDenylist := st_instrumentDenylist settings;
     countyCode := st_countyCode settings |}.

(** a record of the sample sale under a given spelling of its parcel id,
    of its date and of its price *)
Definition sampleRecordOf (parcelId saleDate salePrice : string) : RawParcelRecord :=
  {| parcel_id := parcelId;
     owner_name := "John Doe";
     property_address := "123 Main St";
     city := "Covington";
     zip := "38019";
     classification := "00";
     land_use := "Residential";
     acreage := "0.5";
     assessed_value := "150000";
     sale_date := saleDate;
     sale_price := salePrice;
     deed_instrument := "Warranty Deed";
     qualified_sale := "Y";
     source_url := "https://example.com/parcel/067-05308-000" |}.

(** a record of the sample sale whose address field holds a given text and
    whose city and zip fields are empty *)
Definition sampleRecordAt (address : string) : RawParcelRecord :=
  {| parcel_id := "123-456";
     owner_name := "John Doe";
     property_address := address;
     city := "";
     zip := "";
     classification := "00";
     land_use := "Residential";
     acreage := "0.5";
     assessed_value := "150000";
     sale_date := "01/08/2025";
     sale_price := "$250,000";
     deed_instrument := "Warranty Deed";
     qualified_sale := "Y";
     source_url := "https://example.com/parcel/123-456" |}.

(** a number that is an integer *)
Definition isInteger (x : number) : Prop := ∃ n : Z, x = ofZ n.

(** the text of [n] zeros *)
Fixpoint zeros (n : nat) : string :=
  match n with
  | O => ""
  | S n' => String "0" (zeros n')
  end.

(** an environment that sets one variable *)
Definition setting (name value : string) : string → option string :=
  λ variable, if eqs variable name then Some value else None.

(** *** Calendar dates *)

(** [y], [m] (1 = January) and [d] are a date of the calendar *)
Definition validDate (y m d : Z) : Prop :=
  1 ≤ m ≤ 12 ∧ 1 ≤ d ≤ daysInMonth y m.

(** the text YYYY-MM-DD of a date, month and day padded to two digits *)
Definition isoText (y m d : Z) : string :=
  integerToString y +:+ "-" +:+ padStart2 (integerToString m)
  +:+ "-" +:+ padStart2 (integerToString d).

(** the time value of the midnight that begins a date *)
Definition midnightOf (y m d : Z) : Z :=
  (dayFromYearMonth y (m - 1) + d - 1) * msPerDay.

(** for a year [yoe] of a 400-year era that starts in March, a month [m0]
    (0 = January, the months January and February being those that end the
    year) and a day [d] of that month: the day of the era is inside the era
    and [civilFromDay] reads the same year, month and day from it *)
Definition civilBackCheck (yoe m0 d : Z) : bool :=
  let mp := if m0 <? 2 then m0 + 10 else m0 - 2 in
  let civilYear := yoe + 400 + (if m0 <? 2 then 1 else 0) in
  if (1 <=? d) && (d <=? daysInMonth civilYear (m0 + 1)) then
    let doe := yoe * 365 + yoe / 4 - yoe / 100 + (153 * mp + 2) / 5 + d - 1 in
    let yoe' := (doe - doe / 1460 + doe / 36524 - doe / 146096) / 365 in
    let doy' := doe - (365 * yoe' + yoe' / 4 - yoe' / 100) in
    let mp' := (5 * doy' + 2) / 153 in
    let d' := doy' - (153 * mp' + 2) / 5 + 1 in
    (0 <=? doe) && (doe <? 146097) && (yoe' =? yoe) && (mp' =? mp) && (d' =? d)
  else true.

(** the decimal text of [n] is made of digits and reads as [n] *)
Definition decimalCheck (n : Z) : bool :=
  sall isDigit (integerToString n) && negb (eqs (integerToString n) "")
  && (digitsValue (integerToString n) =? n).

(** the same for the text padded to two digits, which has two characters *)
Definition paddedCheck (n : Z) : bool :=
  sall isDigit (padStart2 (integerToString n))
  && (digitsValue (padStart2 (integerToString n)) =? n)
  && (String.length (padStart2 (integerToString n)) =? 2)%nat.

(** * Properties *)

(** ** Strings *)

Section StringFacts.

Lemma app_String (c : ascii) (a b : string) :
    String c a +:+ b = String c (a +:+ b).
  Proof. reflexivity. Qed.

Lemma app_single (c : ascii) (b : string) : String c "" +:+ b = String c b.
  Proof. reflexivity. Qed.

Lemma app_empty_r (a : string) : a +:+ "" = a.
  Proof. induction a as [|c a IH]; [done|]. by rewrite app_String, IH. Qed.

Lemma app_assoc_s (a b c : string) : (a +:+ b) +:+ c = a +:+ (b +:+ c).
  Proof. induction a as [|x a IH]; [done|]. by rewrite !app_String, IH. Qed.

Lemma length_app_s (a b : string) :
    String.length (a +:+ b) = (String.length a + String.length b)%nat.
  Proof. induction a as [|x a IH]; [done|]. rewrite app_String. simpl. by rewrite IH. Qed.

Lemma eqs_true (a b : string) : eqs a b = true ↔ a = b.
  Proof. unfold eqs. by rewrite bool_decide_eq_true. Qed.

Lemma eqs_false (a b : string) : eqs a b = false ↔ a ≠ b.
  Proof. unfold eqs. by rewrite bool_decide_eq_false. Qed.

Lemma truthy_false (s : string) : truthy s = false ↔ s = "".
  Proof. unfold truthy. rewrite negb_false_iff. apply eqs_true. Qed.

Lemma truthy_true (s : string) : truthy s = true ↔ s ≠ "".
  Proof. unfold truthy. rewrite negb_true_iff. apply eqs_false. Qed.

Lemma sall_app (p : ascii → bool) (a b : string) :
    sall p (a +:+ b) = sall p a && sall p b.
  Proof.
    induction a as [|x a IH]; [done|].
    rewrite app_String. simpl. by rewrite IH, andb_assoc.
  Qed.

  (** *** [split] and [join] *)

Lemma split_not_nil (sep : ascii) (s : string) : split sep s ≠ [].
  Proof.
    induction s as [|c s IH]; [done|]. simpl.
    case_bool_decide; [done|]. by destruct (split sep s).
  Qed.

Lemma split_without (sep : ascii) (s : string) :
    without sep s → split sep s = [s].
  Proof.
    unfold without. induction s as [|c s IH]; [done|]. simpl.
    intros [Hc Hs]%andb_true_iff. apply negb_true_iff in Hc. rewrite Hc.
    by rewrite IH.
  Qed.

Lemma split_app (sep : ascii) (a b : string) :
    without sep a → split sep (a +:+ String sep b) = a :: split sep b.
  Proof.
    unfold without. induction a as [|c a IH].
    - intros _. simpl. change ("" +:+ String sep b) with (String sep b).
      simpl. by rewrite bool_decide_eq_true_2.
    - intros [Hc Ha]%andb_true_iff. apply negb_true_iff in Hc.
      rewrite app_String. cbn [split]. rewrite Hc. by rewrite IH.
  Qed.

Lemma split_parts_without (sep : ascii) (s : string) :
    Forall (without sep) (split sep s).
  Proof.
    induction s as [|c s IH]; simpl.
    - by constructor.
    - case_bool_decide as Hc.
      + by constructor.
      + assert (∀ h, without sep h → without sep (String c h)) as Hcons.
        { intros h Hh. unfold without in *. simpl.
          by rewrite bool_decide_eq_false_2. }
        destruct (split sep s) as [|h t].
        * constructor; [|done]. by apply Hcons.
        * inversion IH; subst. constructor; [|done]. by apply Hcons.
  Qed.

Lemma join_split (sep : ascii) (s : string) :
    join (String sep "") (split sep s) = s.
  Proof.
    induction s as [|c s IH]; [done|]. simpl.
    case_bool_decide as Hc.
    - subst c. pose proof (split_not_nil sep s) as Hne.
      destruct (split sep s) as [|h t]; [done|].
      change (join (String sep "") ("" :: h :: t))
        with ("" +:+ String sep "" +:+ join (String sep "") (h :: t)).
      by rewrite IH.
    - pose proof (split_not_nil sep s) as Hne.
      destruct (split sep s) as [|h t]; [done|].
      destruct t as [|h' t].
      + simpl in *. by rewrite IH.
      + change (join (String sep "") (String c h :: h' :: t))
          with (String c (h +:+ String sep "" +:+ join (String sep "") (h' :: t))).
        f_equal. exact IH.
  Qed.

Lemma digits_without (sep : ascii) (s : string) :
    isDigit sep = false → digits s → without sep s.
  Proof.
    unfold digits, without. intros Hsep. induction s as [|c s IH]; [done|].
    simpl. intros [Hc Hs]%andb_true_iff. rewrite IH by done.
    rewrite andb_true_r. apply negb_true_iff, bool_decide_eq_false.
    intros ->. congruence.
  Qed.

End StringFacts.

(** ** Sale dates *)

Lemma matchUSDate_Some (s month day year : string) :
  matchUSDate s = Some (month, day, year) ↔ usDate month day year s.
Proof.
  unfold matchUSDate, usDate, digits. split.
  - intros H. pose proof (join_split "/" s) as Hj.
    destruct (split "/" s) as [|m [|d [|y [|? ?]]]]; try done.
    destruct (sall isDigit m) eqn:Hm; [|done].
    destruct (sall isDigit d) eqn:Hd; [|done].
    destruct (sall isDigit y) eqn:Hy; [|done].
    simpl in H. repeat case_bool_decide; try done.
    injection H as <- <- <-. subst s. repeat split; done || lia.
  - intros (Hm & Hd & Hy & Lm & Ld & Ly & ->). rewrite !app_single.
    rewrite split_app by (by apply digits_without).
    rewrite split_app by (by apply digits_without).
    rewrite split_without by (by apply digits_without).
    rewrite Hm, Hd, Hy. simpl.
    rewrite !bool_decide_eq_true_2 by done. done.
Qed.

Lemma matchUSDate_None (s : string) :
  matchUSDate s = None ↔ ¬ usDateShape s.
Proof.
  split.
  - intros H (m & d & y & Hs). apply matchUSDate_Some in Hs. congruence.
  - intros H. destruct (matchUSDate s) as [[[m d] y]|] eqn:E; [|done].
    exfalso. apply H. exists m, d, y. by apply matchUSDate_Some.
Qed.

Lemma padStart2_digits (s : string) :
  digits s → (1 ≤ String.length s ≤ 2)%nat →
  digits (padStart2 s) ∧ String.length (padStart2 s) = 2%nat.
Proof.
  unfold digits. destruct s as [|a [|b [|c s]]]; simpl; intros H L; try lia.
  - split; [|done]. exact H.
  - split; [|done]. exact H.
Qed.

Lemma usDate_not_iso (s : string) : usDateShape s → ¬ isoDateShape s.
Proof.
  intros (m & d & y & Hm & Hd & Hy & Lm & Ld & Ly & ->)
         (y' & m' & d' & Hy' & Hm' & Hd' & Ly' & Lm' & Ld' & E).
  assert (without "-" (m +:+ "/" +:+ d +:+ "/" +:+ y)) as Hw.
  { unfold without. rewrite !sall_app. simpl.
    rewrite (digits_without "-" m), (digits_without "-" d), (digits_without "-" y); done. }
  apply split_without in Hw. rewrite E in Hw. rewrite !app_single in Hw.
  rewrite !split_app in Hw by (by apply digits_without). done.
Qed.

(** C6.  [parseSaleDate] turns a text of shape M/D/YYYY or MM/DD/YYYY into
    the zero-padded ISO text YYYY-MM-DD (so "1/8/2025" becomes
    "2025-01-08"), returns a text already of shape YYYY-MM-DD unchanged, and
    returns every other text unchanged, whatever it is. *)
Theorem parseSaleDate_cases :
  (∀ month day year s,
      usDate month day year s →
      parseSaleDate s = year +:+ "-" +:+ padStart2 month +:+ "-" +:+ padStart2 day
      ∧ isoDateShape (parseSaleDate s))
  ∧ parseSaleDate "1/8/2025" = "2025-01-08"
  ∧ (∀ s, isoDateShape s → parseSaleDate s = s)
  ∧ (∀ s, ¬ usDateShape s → parseSaleDate s = s).
Proof.
  assert (∀ s, ¬ usDateShape s → parseSaleDate s = s) as Hother.
  { intros s Hs. unfold parseSaleDate.
    destruct (truthy s) eqn:Ht; simpl.
    - apply matchUSDate_None in Hs. rewrite Hs. by destruct (testISODate s).
    - by apply truthy_false in Ht. }
  split; [|split; [|split]].
  - intros m d y s Hs. pose proof Hs as (Hm & Hd & Hy & Lm & Ld & Ly & E).
    assert (parseSaleDate s = y +:+ "-" +:+ padStart2 m +:+ "-" +:+ padStart2 d) as R.
    { unfold parseSaleDate. apply matchUSDate_Some in Hs. rewrite Hs.
      destruct (truthy s) eqn:Ht; [done|].
      apply truthy_false in Ht. subst s. by destruct m. }
    split; [exact R|]. rewrite R.
    destruct (padStart2_digits m Hm Lm) as [? ?].
    destruct (padStart2_digits d Hd Ld) as [? ?].
    exists y, (padStart2 m), (padStart2 d). repeat split; done.
  - reflexivity.
  - intros s Hs. apply Hother. intros Hus. by apply (usDate_not_iso s).
  - exact Hother.
Qed.

(** The M/D/YYYY case at "1/8/2025". *)
Lemma parseSaleDate_cases_witness :
  usDate "1" "8" "2025" "1/8/2025" ∧
  parseSaleDate "1/8/2025" = "2025" +:+ "-" +:+ padStart2 "1" +:+ "-" +:+ padStart2 "8".
Proof.
  assert (usDate "1" "8" "2025" "1/8/2025") as H.
  { unfold usDate, digits. simpl. repeat split; lia. }
  split; [exact H|].
  exact (proj1 (proj1 parseSaleDate_cases "1" "8" "2025" "1/8/2025" H)).
Defined.

(** ** Filter engine *)

Section FilterFacts.

Variable config : ExtractorConfig.
Variable dateRange : DateRange.

Lemma rejection_firstFailure (record : RawParcelRecord) :
    rejection config dateRange record = firstFailure config dateRange record.
  Proof.
    unfold rejection, firstFailure, checks. cbv zeta. cbn [find fst].
    generalize (outOfRange dateRange record) (notResidential record)
               (priceTooLow config record) (instrumentDenied config record)
               (qualifiedNegative record).
    by intros [] [] [] [] [].
  Qed.

  (** what [find] means on the list of checks *)
Lemma firstFailure_Some (record : RawParcelRecord) (reason : Reason) :
    firstFailure config dateRange record = Some reason ↔
    ∃ before check after,
      checks config dateRange = before ++ (check, reason) :: after
      ∧ check record = true
      ∧ Forall (λ c, fst c record = false) before.
  Proof.
    unfold firstFailure. generalize (checks config dateRange) as cs.
    induction cs as [|[p k] cs IH]; simpl.
    - split; [done|]. intros (b & c & a & E & _). by destruct b.
    - destruct (p record) eqn:Hp; simpl.
      + split.
        * intros [= <-]. exists [], p, cs. by repeat split.
        * intros (b & c & a & E & Hc & Hb). destruct b as [|[p' k'] b].
          -- by injection E as -> ->.
          -- injection E as -> -> ->. inversion Hb; simpl in *; congruence.
      + rewrite IH. split.
        * intros (b & c & a & -> & Hc & Hb). exists ((p, k) :: b), c, a.
          repeat split; [done|]. by constructor.
        * intros (b & c & a & E & Hc & Hb). destruct b as [|[p' k'] b].
          -- injection E as -> ->. congruence.
          -- injection E as -> -> ->. inversion Hb; subst. by exists b, c, a.
  Qed.

Lemma firstFailure_None (record : RawParcelRecord) :
    firstFailure config dateRange record = None ↔
    Forall (λ c, fst c record = false) (checks config dateRange).
  Proof.
    unfold firstFailure. generalize (checks config dateRange) as cs.
    induction cs as [|[p k] cs IH]; simpl.
    - split; [by constructor|done].
    - destruct (p record) eqn:Hp; simpl.
      + split; [done|]. inversion 1; simpl in *; congruence.
      + rewrite IH. split; [by constructor|]. by inversion 1.
  Qed.

Lemma reasonCount_bump (rs : FilterReasons) (reason k : Reason) :
    reasonCount (bump rs reason) k
    = if bool_decide (k = reason) then S (reasonCount rs k) else reasonCount rs k.
  Proof. by destruct k. Qed.

Lemma totalCount_bump (rs : FilterReasons) (reason : Reason) :
    totalCount (bump rs reason) = S (totalCount rs).
  Proof.
    unfold totalCount, allReasons. destruct reason; simpl; lia.
  Qed.

  (** the loop from an arbitrary state of its three accumulators *)
Lemma filter_loop (records : list RawParcelRecord) (acc : FilterResult) :
    let result := fold_left (filterStep config dateRange) records acc in
    passed result = passed acc ++ filter (λ r, firstFailure config dateRange r = None) records
    ∧ filtered result = filtered acc ++ filter (λ r, firstFailure config dateRange r ≠ None) records
    ∧ (∀ k, reasonCount (reasons result) k
            = (reasonCount (reasons acc) k
               + length (filter (λ r, firstFailure config dateRange r = Some k) records))%nat)
    ∧ totalCount (reasons result)
      = (totalCount (reasons acc)
         + length (filter (λ r, firstFailure config dateRange r ≠ None) records))%nat.
  Proof.
    revert acc. induction records as [|r records IH]; intros acc; cbn [fold_left].
    - rewrite !filter_nil, !app_nil_r.
      repeat split; intros; rewrite ?filter_nil; cbn [length]; lia.
    - destruct (IH (filterStep config dateRange acc r)) as (Hp & Hf & Hc & Ht).
      unfold filterStep in *. rewrite rejection_firstFailure in *.
      destruct (firstFailure config dateRange r) as [reason|] eqn:Hr;
        cbn [passed filtered reasons] in *.
      + rewrite Hp, Hf, Ht, totalCount_bump.
        rewrite (filter_cons_False _ r) by (rewrite Hr; done).
        rewrite (filter_cons_True (λ r, firstFailure config dateRange r ≠ None)) by (rewrite Hr; done).
        rewrite <- app_assoc. cbn [app length]. repeat split; [|lia].
        intros k. rewrite Hc, reasonCount_bump.
        case_bool_decide as Hk.
        * subst k. rewrite (filter_cons_True (λ r, firstFailure config dateRange r = Some reason)) by done.
          cbn [length]. lia.
        * rewrite (filter_cons_False (λ r, firstFailure config dateRange r = Some k)) by (rewrite Hr; congruence).
          done.
      + rewrite Hp, Hf, Ht.
        rewrite (filter_cons_True (λ r, firstFailure config dateRange r = None)) by done.
        rewrite (filter_cons_False (λ r, firstFailure config dateRange r ≠ None)) by (intros H; apply H, Hr).
        rewrite <- app_assoc. cbn [app]. repeat split.
        intros k. rewrite Hc.
        rewrite (filter_cons_False (λ r, firstFailure config dateRange r = Some k)) by (rewrite Hr; done).
        done.
  Qed.

End FilterFacts.

(** C2.  [filterRecords] tests every record against the five checks in the
    fixed order date range, residential classification, minimum price,
    denied instrument, qualified-sale flag.  The reason given to a record is
    that of the first check it fails, and of no other; a record failing no
    check passes; each rejected record is counted once, under that first
    reason, in the aggregate that is returned. *)
Theorem filterRecords_first_failure
    (records : list RawParcelRecord) (config : ExtractorConfig) (dateRange : DateRange) :
  let result := filterRecords records config dateRange in
  let first := firstFailure config dateRange in
  (∀ record, rejection config dateRange record = first record)
  ∧ (∀ record reason,
        first record = Some reason ↔
        ∃ before check after,
          checks config dateRange = before ++ (check, reason) :: after
          ∧ check record = true
          ∧ Forall (λ c, fst c record = false) before)
  ∧ (∀ record,
        first record = None ↔
        Forall (λ c, fst c record = false) (checks config dateRange))
  ∧ passed result = filter (λ r, first r = None) records
  ∧ filtered result = filter (λ r, first r ≠ None) records
  ∧ (∀ reason,
        reasonCount (reasons result) reason
        = length (filter (λ r, first r = Some reason) records))
  ∧ totalCount (reasons result) = length (filtered result).
Proof.
  intros result first.
  destruct (filter_loop config dateRange records
              {| passed := []; filtered := []; reasons := noReasons |})
    as (Hp & Hf & Hc & Ht).
  split; [apply rejection_firstFailure|].
  split; [apply firstFailure_Some|].
  split; [apply firstFailure_None|].
  split; [exact Hp|]. split; [exact Hf|]. split.
  - intros reason. unfold result, filterRecords. rewrite Hc. by destruct reason.
  - unfold result, filterRecords. rewrite Ht. fold (filterRecords records config dateRange).
    unfold filterRecords. rewrite Hf. done.
Qed.

Lemma sampleWeek_built : getWeekRangeFromMonday "2025-01-06" = Some sampleWeek.
Proof. vm_compute. reflexivity. Qed.

(** The scenario of the test suite: one valid sale, one below the minimum
    price, one quitclaim, one dated before the week. *)
Example filterRecords_scenario :
  let result :=
    filterRecords [ sampleRecord "01/08/2025" "$250,000" "Warranty Deed";
                    sampleRecord "01/08/2025" "$500" "Warranty Deed";
                    sampleRecord "01/08/2025" "$250,000" "Quitclaim";
                    sampleRecord "01/01/2025" "$250,000" "Warranty Deed" ]
                  sampleConfig sampleWeek in
  length (passed result) = 1%nat ∧ length (filtered result) = 3%nat
  ∧ reasons result
    = {| n_lowSalePrice := 1; n_deniedInstrument := 1; n_outsideDateRange := 1;
         n_nonResidential := 0; n_qualifiedSaleFailed := 0; n_other := 0 |}.
Proof. vm_compute. done. Qed.

Lemma testISODate_true (s : string) : testISODate s = true ↔ isoDateShape s.
Proof.
  unfold testISODate, isoDateShape, digits. split.
  - intros H. pose proof (join_split "-" s) as Hj.
    destruct (split "-" s) as [|y [|m [|d [|? ?]]]]; try done.
    repeat (apply andb_true_iff in H as [H ?]).
    repeat match goal with H : bool_decide _ = true |- _ => apply bool_decide_eq_true in H end.
    exists y, m, d. subst s. by repeat split.
  - intros (y & m & d & Hy & Hm & Hd & Ly & Lm & Ld & ->). rewrite !app_single.
    rewrite !split_app by (by apply digits_without).
    rewrite split_without by (by apply digits_without).
    rewrite Hy, Hm, Hd. simpl.
    rewrite !bool_decide_eq_true_2 by done. done.
Qed.

Lemma parseSaleDate_nonempty (s : string) : s ≠ "" → parseSaleDate s ≠ "".
Proof.
  intros Hs. unfold parseSaleDate. apply truthy_true in Hs. rewrite Hs. simpl.
  destruct (matchUSDate s) as [[[m d] y]|].
  - destruct y; done.
  - apply truthy_true in Hs. by destruct (testISODate s).
Qed.

(** a text with fewer than two hyphens gives no day to [parseDate] *)
Lemma parseDate_few_fields (s : string) :
  (length (split "-" s) ≤ 2)%nat → parseDate s = None.
Proof.
  intros H. unfold parseDate.
  assert (numberAt (split "-" s) 2 = NaN) as ->.
  { unfold numberAt. rewrite lookup_ge_None_2; [done|lia]. }
  unfold newDate, MakeDay.
  by repeat case_match.
Qed.

Lemma rejection_later (config : ExtractorConfig) (dateRange : DateRange)
    (record : RawParcelRecord) :
  outOfRange dateRange record = false →
  rejection config dateRange record
  = snd <$> find (λ check, fst check record) (laterChecks config dateRange).
Proof.
  intros H. rewrite rejection_firstFailure. unfold firstFailure, checks. simpl.
  by rewrite H.
Qed.

Lemma later_not_date (config : ExtractorConfig) (dateRange : DateRange)
    (record : RawParcelRecord) :
  snd <$> find (λ check, fst check record) (laterChecks config dateRange)
  ≠ Some outsideDateRange.
Proof.
  unfold laterChecks, checks. simpl.
  repeat (case_match; simpl; [done|]). done.
Qed.

(** C10, as the code has it.  A record with an empty sale date skips the
    date check: it is never rejected as outside the date range, and is
    judged by the four later checks alone.  A record with a non-empty sale
    date is rejected as outside the date range exactly when the date that
    [parseDate] builds from the normalised text is invalid or not within the
    range; this is always so for a text that is not M/D/YYYY and has fewer
    than two hyphens, for which [parseDate] gets no day. *)
Theorem sale_date_check
    (config : ExtractorConfig) (dateRange : DateRange) (record : RawParcelRecord) :
  (sale_date record = "" →
     rejection config dateRange record ≠ Some outsideDateRange
     ∧ rejection config dateRange record
       = snd <$> find (λ check, fst check record) (laterChecks config dateRange))
  ∧ (sale_date record ≠ "" →
       (rejection config dateRange record = Some outsideDateRange
        ↔ isDateInRange (parseSaleDate (sale_date record)) dateRange = false))
  ∧ (sale_date record ≠ "" →
     ¬ usDateShape (sale_date record) →
     (length (split "-" (sale_date record)) ≤ 2)%nat →
     rejection config dateRange record = Some outsideDateRange).
Proof.
  assert (sale_date record ≠ "" →
          (rejection config dateRange record = Some outsideDateRange
           ↔ isDateInRange (parseSaleDate (sale_date record)) dateRange = false))
    as Hiff.
  { intros Hs. apply parseSaleDate_nonempty, truthy_true in Hs.
    destruct (outOfRange dateRange record) eqn:Ho.
    - unfold rejection. rewrite Ho. simpl.
      unfold outOfRange in Ho. rewrite Hs in Ho. simpl in Ho.
      apply negb_true_iff in Ho. by rewrite Ho.
    - rewrite (rejection_later _ _ _ Ho).
      unfold outOfRange in Ho. rewrite Hs in Ho. simpl in Ho.
      apply negb_false_iff in Ho. rewrite Ho.
      split; [|done]. intros H. by apply later_not_date in H. }
  split; [|split; [exact Hiff|]].
  - intros Hs.
    assert (outOfRange dateRange record = false) as Ho.
    { unfold outOfRange. by rewrite Hs. }
    rewrite (rejection_later _ _ _ Ho). split; [apply later_not_date|done].
  - intros Hs Hus Hfew. apply Hiff; [done|].
    destruct parseSaleDate_cases as (_ & _ & _ & Hother).
    rewrite (Hother _ Hus). unfold isDateInRange.
    by rewrite parseDate_few_fields.
Qed.

(** An empty date, a date read by [parseDate], and a text without hyphens. *)
Lemma sale_date_check_witness :
  rejection sampleConfig sampleWeek (sampleRecord "" "$250,000" "Warranty Deed")
  ≠ Some outsideDateRange
  ∧ rejection sampleConfig sampleWeek (sampleRecord "garbage" "$250,000" "Warranty Deed")
    = Some outsideDateRange.
Proof.
  split.
  - apply (proj1 (sale_date_check sampleConfig sampleWeek
                    (sampleRecord "" "$250,000" "Warranty Deed"))).
    reflexivity.
  - apply (proj2 (proj2 (sale_date_check sampleConfig sampleWeek
                           (sampleRecord "garbage" "$250,000" "Warranty Deed")))).
    + discriminate.
    + apply matchUSDate_None. reflexivity.
    + simpl. lia.
Defined.

(** The claim that every non-empty sale date that is neither M/D/YYYY nor
    YYYY-MM-DD leads to a rejection fails: "2025-1-8" is neither, yet
    [parseDate] reads it as 8 January 2025, inside the sample week, and the
    record passes. *)
Lemma unparseable_date_may_pass :
  ¬ (∀ (config : ExtractorConfig) (dateRange : DateRange) (record : RawParcelRecord),
        sale_date record ≠ "" →
        ¬ usDateShape (sale_date record) →
        ¬ isoDateShape (sale_date record) →
        rejection config dateRange record = Some outsideDateRange).
Proof.
  intros H.
  specialize (H sampleConfig sampleWeek (sampleRecord "2025-1-8" "$250,000" "Warranty Deed")).
  assert (rejection sampleConfig sampleWeek
            (sampleRecord "2025-1-8" "$250,000" "Warranty Deed") = None) as Hpass.
  { vm_compute. reflexivity. }
  rewrite Hpass in H. discriminate H.
  - discriminate.
  - apply matchUSDate_None. reflexivity.
  - intros Hiso. apply testISODate_true in Hiso. discriminate Hiso.
Qed.

(** In the scenario above the sale at $500 fails the price check first, and
    is counted under that reason. *)
Lemma filterRecords_first_failure_witness :
  rejection sampleConfig sampleWeek (sampleRecord "01/08/2025" "$500" "Warranty Deed")
  = Some lowSalePrice.
Proof.
  rewrite (proj1 (filterRecords_first_failure [] sampleConfig sampleWeek)).
  apply (proj1 (proj2 (filterRecords_first_failure [] sampleConfig sampleWeek))).
  exists [ (outOfRange sampleWeek, outsideDateRange); (notResidential, nonResidential) ],
         (priceTooLow sampleConfig),
         [ (instrumentDenied sampleConfig, deniedInstrument);
           (qualifiedNegative, qualifiedSaleFailed) ].
  split; [reflexivity|]. split; [by vm_compute|].
  repeat constructor.
Defined.

(** ** Cleaned sales *)

Lemma parseSalePrice_not_NaN (priceStr : string) : parseSalePrice priceStr ≠ NaN.
Proof.
  unfold parseSalePrice. destruct (truthy priceStr); simpl; [|done].
  by destruct (parseFloat (stripPrice priceStr)).
Qed.

Lemma takeDigits_digits (s : string) : digits s → takeDigits s = (s, "").
Proof.
  unfold digits. induction s as [|c s IH]; [done|]. simpl.
  intros [Hc Hs]%andb_true_iff. by rewrite Hc, IH.
Qed.

Lemma digitsValueFrom_nonneg (s : string) (acc : Z) :
  digits s → 0 ≤ acc → 0 ≤ digitsValueFrom acc s.
Proof.
  unfold digits. revert acc. induction s as [|c s IH]; intros acc; [done|]. simpl.
  intros [Hc Hs]%andb_true_iff Hacc. apply IH; [done|].
  unfold isDigit in Hc. unfold digitVal. lia.
Qed.

(** [parseFloat] on a non-empty text of digits is the integer it writes *)
Lemma parseFloat_digits (s : string) :
  digits s → s ≠ "" → parseFloat s = ofZ (digitsValue s).
Proof.
  intros Hd Hne. unfold parseFloat.
  destruct s as [|c s]; [done|].
  assert (isDigit c = true) as Hc.
  { unfold digits in Hd. simpl in Hd. by apply andb_true_iff in Hd as [? _]. }
  assert (trimStart (String c s) = String c s) as ->.
  { simpl. unfold isSpace, isDigit in *. by replace (_ || _) with false by lia. }
  assert (scanSign (String c s) = (false, String c s)) as Hsign.
  { unfold scanSign. unfold isDigit, code in Hc.
    destruct c as [[] [] [] [] [] [] [] []]; try done. }
  assert (String.prefix "Infinity" (String c s) = false) as Hinf.
  { simpl. unfold isDigit, code in Hc.
    destruct c as [[] [] [] [] [] [] [] []]; try done. }
  unfold scanDecimal. rewrite Hsign, Hinf, (takeDigits_digits _ Hd). simpl.
  rewrite app_empty_r. unfold scale10. simpl.
  unfold ofZ. do 2 f_equal. lia.
Qed.

Lemma cleanOwnerName_null (now : string) (record : RawParcelRecord) :
  cs_owner_name (transformRecord now record) ≠ Some "".
Proof.
  unfold transformRecord. destruct (_ && _); simpl;
    destruct (truthy (cleanOwnerName (owner_name record))) eqn:Ht; try done;
    apply truthy_true in Ht; congruence.
Qed.

(** C3, as the code has it.  In the [CleanedSale] made by [transformRecord]:
    the price is [parseSalePrice] of the raw text, never NaN, and it is the
    non-negative integer written by the text when the text, with "$", commas
    and blanks removed, is a run of at most 15 digits (or 0 when the raw
    text is empty); the date is of shape YYYY-MM-DD when the raw date is
    M/D/YYYY or YYYY-MM-DD, empty when the raw date is empty, and otherwise
    the raw text as it stands; the owner name is null, never the empty
    text, when the cleaned name is empty, and the mailing address is always
    null. *)
Theorem transformRecord_fields (now : string) (record : RawParcelRecord) :
  let sale := transformRecord now record in
  cs_sale_price sale = parseSalePrice (sale_price record)
  ∧ cs_sale_price sale ≠ NaN
  ∧ (sale_price record = "" → cs_sale_price sale = ofZ 0)
  ∧ (digits (stripPrice (sale_price record)) →
     stripPrice (sale_price record) ≠ "" →
     (String.length (stripPrice (sale_price record)) ≤ 15)%nat →
     cs_sale_price sale = ofZ (digitsValue (stripPrice (sale_price record)))
     ∧ nonNegativeInteger (cs_sale_price sale))
  ∧ cs_sale_date sale = parseSaleDate (sale_date record)
  ∧ (usDateShape (sale_date record) ∨ isoDateShape (sale_date record) →
     isoDateShape (cs_sale_date sale))
  ∧ (sale_date record = "" → cs_sale_date sale = "")
  ∧ (¬ usDateShape (sale_date record) → cs_sale_date sale = sale_date record)
  ∧ cs_owner_name sale ≠ Some ""
  ∧ (cleanOwnerName (owner_name record) = "" → cs_owner_name sale = None)
  ∧ cs_owner_mailing_address sale = None.
Proof.
  intros sale.
  assert (cs_sale_price sale = parseSalePrice (sale_price record)) as Hprice.
  { unfold sale, transformRecord. by destruct (_ && _). }
  assert (cs_sale_date sale = parseSaleDate (sale_date record)) as Hdate.
  { unfold sale, transformRecord. by destruct (_ && _). }
  destruct parseSaleDate_cases as (Hus & _ & Hiso & Hother).
  split; [exact Hprice|]. split; [rewrite Hprice; apply parseSalePrice_not_NaN|].
  split; [intros E; rewrite Hprice, E; reflexivity|].
  split.
  { intros Hd Hne Hlen. rewrite Hprice.
    assert (parseSalePrice (sale_price record)
            = ofZ (digitsValue (stripPrice (sale_price record)))) as E.
    { unfold parseSalePrice.
      destruct (truthy (sale_price record)) eqn:Ht; simpl.
      - by rewrite (parseFloat_digits _ Hd Hne).
      - apply truthy_false in Ht. rewrite Ht in Hne. done. }
    split; [exact E|]. rewrite E. eexists. split; [|reflexivity].
    by apply digitsValueFrom_nonneg. }
  split; [exact Hdate|]. split.
  { rewrite Hdate. intros [(m & d & y & H)|H].
    - by apply (Hus m d y).
    - by rewrite (Hiso _ H). }
  split; [intros E; rewrite Hdate, E; reflexivity|].
  split; [intros H; rewrite Hdate; by apply Hother|].
  split; [apply cleanOwnerName_null|].
  split.
  - intros E. unfold sale, transformRecord. rewrite E. by destruct (_ && _).
  - unfold sale, transformRecord. by destruct (_ && _).
Qed.

(** The fixture of the test suite: "$250,000" on "01/08/2025". *)
Lemma transformRecord_fields_witness :
  let sale := transformRecord "2025-01-13T06:00:00.000Z"
                (sampleRecord "01/08/2025" "$250,000" "Warranty Deed") in
  cs_sale_price sale = ofZ 250000 ∧ isoDateShape (cs_sale_date sale).
Proof.
  pose proof (transformRecord_fields "2025-01-13T06:00:00.000Z"
                (sampleRecord "01/08/2025" "$250,000" "Warranty Deed"))
    as (_ & _ & _ & Hp & _ & Hd & _).
  split.
  - apply Hp; [reflexivity|discriminate|simpl; lia].
  - apply Hd. left. exists "01", "08", "2025". apply matchUSDate_Some. reflexivity.
Defined.

(** The announced invariant fails on a sale whose raw date is written out
    in words and whose raw price has cents: the date comes out as it went
    in, and the price is 250000.5. *)
Lemma transformRecord_breaks_invariant :
  let sale := transformRecord "2025-01-13T06:00:00.000Z"
                (sampleRecord "Jan 8, 2025" "$250,000.50" "Warranty Deed") in
  cs_sale_date sale = "Jan 8, 2025"
  ∧ cs_sale_price sale = Fin (Q2Qc (500001 # 2))
  ∧ ¬ (isoDateShape (cs_sale_date sale) ∨ cs_sale_date sale = "")
  ∧ ¬ nonNegativeInteger (cs_sale_price sale)
  ∧ ¬ announcedInvariant sale.
Proof.
  intros sale.
  assert (cs_sale_date sale = "Jan 8, 2025") as Hd by reflexivity.
  assert (cs_sale_price sale = Fin (Q2Qc (500001 # 2))) as Hp.
  { unfold sale. vm_compute. f_equal. by apply Qc_is_canon. }
  assert (¬ (isoDateShape (cs_sale_date sale) ∨ cs_sale_date sale = "")) as Hnd.
  { rewrite Hd. intros [H|H]; [|done]. apply testISODate_true in H. done. }
  assert (¬ nonNegativeInteger (cs_sale_price sale)) as Hnp.
  { rewrite Hp. intros (n & _ & E).
    apply (f_equal (λ x, match x with Fin q => Qden (this q) | _ => 1%positive end)) in E.
    discriminate E. }
  repeat split; try done.
  intros (H & _). by apply Hnp.
Qed.

(** ** Deduplication *)

Section CleanedDedupe.

Variable numberToString : number → string.

Lemma dedupeCleanedFrom_idempotent (sales : list CleanedSale)
      (seenByKey seenByAddress : gset string) :
    dedupeCleanedFrom numberToString seenByKey seenByAddress
      (dedupeCleanedFrom numberToString seenByKey seenByAddress sales)
    = dedupeCleanedFrom numberToString seenByKey seenByAddress sales.
  Proof.
    revert seenByKey seenByAddress.
    induction sales as [|sale rest IH]; intros seenByKey seenByAddress; [done|].
    cbn [dedupeCleanedFrom].
    destruct (bool_decide (generateCleanedSaleKey numberToString sale ∈ seenByKey)
              || bool_decide (generateAddressKey numberToString sale ∈ seenByAddress))
      eqn:Hseen.
    - apply IH.
    - cbn [dedupeCleanedFrom]. rewrite Hseen. f_equal. apply IH.
  Qed.

Lemma dedupeCleanedFrom_sublist (sales : list CleanedSale)
      (seenByKey seenByAddress : gset string) :
    sublist (dedupeCleanedFrom numberToString seenByKey seenByAddress sales) sales.
  Proof.
    revert seenByKey seenByAddress.
    induction sales as [|sale rest IH]; intros seenByKey seenByAddress; [done|].
    cbn [dedupeCleanedFrom]. destruct (_ || _).
    - by apply sublist_cons.
    - by apply sublist_skip.
  Qed.

End CleanedDedupe.

(** C4.  Running [deduplicateCleanedSales] on its own output gives that
    output back: the second pass removes nothing. *)
Theorem deduplicateCleanedSales_idempotent
    (numberToString : number → string) (sales : list CleanedSale) :
  deduplicateCleanedSales numberToString
    (deduplicateCleanedSales numberToString sales)
  = deduplicateCleanedSales numberToString sales
  ∧ length (deduplicateCleanedSales numberToString
              (deduplicateCleanedSales numberToString sales))
    = length (deduplicateCleanedSales numberToString sales).
Proof.
  assert (deduplicateCleanedSales numberToString
            (deduplicateCleanedSales numberToString sales)
          = deduplicateCleanedSales numberToString sales) as E.
  { exact (dedupeCleanedFrom_idempotent numberToString sales ∅ ∅). }
  split; [exact E|]. by rewrite E.
Qed.

Lemma elem_snoc {A : Type} (l : list A) (x y : A) : y ∈ l ++ [x] → y ∈ l ∨ y = x.
Proof. rewrite elem_of_app, list_elem_of_singleton. done. Qed.

(** *** The insertion-ordered map *)

Section MapFacts.

Context {V : Type}.
Implicit Types (m : JSMap V) (k : string) (v : V).

Lemma key_elem m k v : (k, v) ∈ m → k ∈ m.*1.
  Proof. intros H. apply list_elem_of_fmap. by exists (k, v). Qed.

Lemma mapGet_None m k : mapGet m k = None ↔ k ∉ m.*1.
  Proof.
    induction m as [|[k' v'] m IH]; simpl.
    - split; [|done]. intros _. apply not_elem_of_nil.
    - case_bool_decide as Hk.
      + subst k'. split; [done|]. intros H. exfalso. apply H. left.
      + rewrite IH, not_elem_of_cons.
        split; [intros H; split; [congruence|done]|by intros [_ H]].
  Qed.

Lemma mapGet_Some_elem m k v : mapGet m k = Some v → (k, v) ∈ m.
  Proof.
    induction m as [|[k' v'] m IH]; simpl; [done|].
    case_bool_decide as Hk.
    - intros [= <-]. subst k'. left.
    - intros H. right. by apply IH.
  Qed.

Lemma elem_mapGet m k v : NoDup m.*1 → (k, v) ∈ m → mapGet m k = Some v.
  Proof.
    induction m as [|[k' v'] m IH]; simpl.
    - intros _ H. by apply elem_of_nil in H.
    - intros [Hk' Hnd]%NoDup_cons [[= -> ->]|Hin]%elem_of_cons.
      + by rewrite bool_decide_eq_true_2.
      + rewrite bool_decide_eq_false_2; [by apply IH|].
        intros ->. apply Hk'. by apply key_elem with v.
  Qed.

Lemma mapSet_keys m k v :
    (mapSet m k v).*1 = if bool_decide (k ∈ m.*1) then m.*1 else m.*1 ++ [k].
  Proof.
    induction m as [|[k' v'] m IH]; cbn [mapSet].
    - case_bool_decide as H; [by apply elem_of_nil in H|done].
    - destruct (decide (k' = k)) as [->|Hk].
      + rewrite (bool_decide_eq_true_2 (k = k)) by done.
        rewrite bool_decide_eq_true_2; [done|left].
      + rewrite (bool_decide_eq_false_2 (k' = k)) by done.
        rewrite !fmap_cons, IH. cbn [fst]. destruct (decide (k ∈ m.*1)) as [Hin|Hin].
        * rewrite (bool_decide_eq_true_2 (k ∈ m.*1)) by done.
          rewrite bool_decide_eq_true_2; [done|by right].
        * rewrite (bool_decide_eq_false_2 (k ∈ m.*1)) by done.
          rewrite bool_decide_eq_false_2; [done|].
          rewrite not_elem_of_cons. split; [congruence|done].
  Qed.

Lemma mapSet_NoDup m k v : NoDup m.*1 → NoDup (mapSet m k v).*1.
  Proof.
    intros Hnd. rewrite mapSet_keys. case_bool_decide as Hin; [done|].
    apply NoDup_app. split; [done|]. split; [|apply NoDup_singleton].
    intros x Hx Hk%list_elem_of_singleton. by subst x.
  Qed.

Lemma mapSet_elem m k v k' v' :
    NoDup m.*1 →
    (k', v') ∈ mapSet m k v ↔ (k' = k ∧ v' = v) ∨ (k' ≠ k ∧ (k', v') ∈ m).
  Proof.
    induction m as [|[k0 v0] m IH]; simpl.
    - intros _. rewrite list_elem_of_singleton. split.
      + intros [= -> ->]. by left.
      + intros [[-> ->]|[_ H]]; [done|]. by apply elem_of_nil in H.
    - intros [Hk0 Hnd]%NoDup_cons. case_bool_decide as Hk.
      + subst k0. rewrite !elem_of_cons. split.
        * intros [[= -> ->]|Hin]; [by left|]. right. split; [|by right].
          intros ->. apply Hk0. by apply key_elem with v'.
        * intros [[-> ->]|[Hne [[= -> ->]|Hin]]]; [by left|done|by right].
      + rewrite !elem_of_cons, (IH Hnd). split.
        * intros [[= -> ->]|[[-> ->]|[Hne Hin]]].
          -- right. split; [done|by left].
          -- by left.
          -- right. split; [done|by right].
        * intros [[-> ->]|[Hne [[= -> ->]|Hin]]].
          -- right. by left.
          -- by left.
          -- right. right. done.
  Qed.

Lemma keys_of_values (f : V → string) m :
    (∀ k v, (k, v) ∈ m → f v = k) → f <$> mapValues m = m.*1.
  Proof.
    unfold mapValues. induction m as [|[k v] m IH]; intros H; [done|].
    cbn [map fmap list_fmap fst]. f_equal.
    - apply H. left.
    - apply IH. intros k' v' Hin. apply H. by right.
  Qed.

End MapFacts.

(** *** The order of prices *)

Lemma lt_irrefl (a : number) : lt a a = false.
Proof.
  destruct a; simpl; try done.
  apply bool_decide_eq_false. apply Qcle_not_lt, Qcle_refl.
Qed.

(** if [a < b] and not [a < c] then not [b < c] *)
Lemma lt_chain (a b c : number) : lt a b = true → lt a c = false → lt b c = false.
Proof.
  destruct a as [| | |p], b as [| | |q], c as [| | |r]; simpl; try done.
  intros Hpq%bool_decide_eq_true Hpr%bool_decide_eq_false.
  apply bool_decide_eq_false. intros Hqr. apply Hpr.
  by apply Qclt_trans with q.
Qed.

(** *** Owner and address *)

Lemma toUpperCase_empty (s : string) : toUpperCase s = "" ↔ s = "".
Proof. by destruct s. Qed.

Lemma orElse_empty (s : string) : orElse s "" = s.
Proof. unfold orElse. destruct (truthy s) eqn:H; [done|]. by apply truthy_false in H. Qed.

Lemma ownerAddressKey_bar (sale : CleanedSale) :
  ownerAddressKey sale = "|" ↔ noOwner sale ∧ noAddress sale.
Proof.
  unfold ownerAddressKey, noOwner, noAddress. rewrite !orElse_empty.
  split.
  - intros H.
    assert ((match cs_owner_name sale with
             | Some o => toUpperCase (trim o) | None => "" end) = ""
            ∧ toUpperCase (trim (cs_situs_address sale)) = "") as [Ho Ha].
    { destruct (match cs_owner_name sale with
                | Some o => toUpperCase (trim o) | None => "" end) as [|c o].
      - rewrite app_single in H. change ("" +:+ ?x) with x in H.
        by injection H as ->.
      - rewrite app_String in H. injection H as -> H. by destruct o. }
    split; [|by apply toUpperCase_empty].
    destruct (cs_owner_name sale); [by apply toUpperCase_empty|done].
  - intros [Ho Ha]. rewrite Ha.
    destruct (cs_owner_name sale); [by rewrite Ho|done].
Qed.

Section OwnerAddress.

Lemma filed_step (seen : list CleanedSale) (m : JSMap CleanedSale) (sale : CleanedSale) :
    filed seen m → filed (seen ++ [sale]) (ownerAddressStep m sale).
  Proof.
    intros (Hnd & Hent & Hall). unfold ownerAddressStep.
    destruct (negb (truthy (ownerAddressKey sale)) || eqs (ownerAddressKey sale) "|")
      eqn:Hskip.
    - (* skipped *)
      assert (ownerAddressKey sale = "|") as Hbar.
      { apply orb_true_iff in Hskip as [H|H].
        - apply negb_true_iff, truthy_false in H. unfold ownerAddressKey in H.
          by destruct (orElse _ _).
        - by apply eqs_true in H. }
      split; [done|]. split.
      + intros k s Hin. destruct (Hent k s Hin) as (Hk & Hne & Hs & Hmax).
        repeat split; [done|done|apply elem_of_app; by left|].
        intros r [Hr| ->]%elem_snoc Hkey; [by apply Hmax|].
        congruence.
      + intros r [Hr| ->]%elem_snoc Hkey; [by apply Hall|done].
    - apply orb_false_iff in Hskip as [_ Hne%eqs_false].
      destruct (mapGet m (ownerAddressKey sale)) as [existing|] eqn:Hget.
      + (* the key is known *)
        pose proof (mapGet_Some_elem _ _ _ Hget) as Hex.
        destruct (Hent _ _ Hex) as (Hk & _ & Hs & Hmax).
        destruct (gt (cs_sale_price sale) (cs_sale_price existing)) eqn:Hgt.
        * split; [by apply mapSet_NoDup|]. split.
          -- intros k s Hin. apply mapSet_elem in Hin as [[-> ->]|[Hnk Hin]]; [| |done].
             ++ repeat split; [done|apply elem_of_app; right; by left|].
                intros r [Hr| ->]%elem_snoc Hkey.
                ** unfold gt in *. eapply lt_chain; [exact Hgt|]. by apply Hmax.
                ** apply lt_irrefl.
             ++ destruct (Hent k s Hin) as (Hk' & Hne' & Hs' & Hmax').
                repeat split; [done|done|apply elem_of_app; by left|].
                intros r [Hr| ->]%elem_snoc Hkey;
                  [by apply Hmax'|congruence].
          -- intros r Hr Hkey. rewrite mapSet_keys.
             rewrite bool_decide_eq_true_2 by (by apply key_elem with existing).
             apply elem_snoc in Hr as [Hr| ->]; [by apply Hall|].
             by apply key_elem with existing.
        * split; [done|]. split.
          -- intros k s Hin. destruct (Hent k s Hin) as (Hk' & Hne' & Hs' & Hmax').
             repeat split; [done|done|apply elem_of_app; by left|].
             intros r [Hr| ->]%elem_snoc Hkey; [by apply Hmax'|].
             assert (mapGet m k = Some s) as E by (by apply elem_mapGet).
             rewrite <- Hkey, Hget in E. by injection E as <-.
          -- intros r [Hr| ->]%elem_snoc Hkey; [by apply Hall|].
             by apply key_elem with existing.
      + (* a new key *)
        apply mapGet_None in Hget.
        split; [by apply mapSet_NoDup|]. split.
        * intros k s Hin. apply mapSet_elem in Hin as [[-> ->]|[Hnk Hin]]; [| |done].
          -- repeat split; [done|apply elem_of_app; right; by left|].
             intros r [Hr| ->]%elem_snoc Hkey.
             ++ exfalso. apply Hget. rewrite <- Hkey. apply Hall; [done|congruence].
             ++ apply lt_irrefl.
          -- destruct (Hent k s Hin) as (Hk' & Hne' & Hs' & Hmax').
             repeat split; [done|done|apply elem_of_app; by left|].
             intros r [Hr| ->]%elem_snoc Hkey;
               [by apply Hmax'|congruence].
        * intros r Hr Hkey. rewrite mapSet_keys.
          rewrite bool_decide_eq_false_2 by done.
          apply elem_snoc in Hr as [Hr| ->].
          -- apply elem_of_app. left. by apply Hall.
          -- apply elem_of_app. right. by left.
  Qed.

Lemma filed_loop (sales seen : list CleanedSale) (m : JSMap CleanedSale) :
    filed seen m → filed (seen ++ sales) (fold_left ownerAddressStep sales m).
  Proof.
    revert seen m. induction sales as [|sale sales IH]; intros seen m H; simpl.
    - by rewrite app_nil_r.
    - replace (seen ++ sale :: sales) with ((seen ++ [sale]) ++ sales)
        by (by rewrite <- app_assoc).
      apply IH. by apply filed_step.
  Qed.

End OwnerAddress.

(** the key is the upper-cased trimmed owner name, a bar, and the upper-cased
    trimmed situs address *)
Lemma ownerAddressKey_upper (sale : CleanedSale) :
  ownerAddressKey sale
  = toUpperCase (trim (ownerText sale)) +:+ "|"
    +:+ toUpperCase (trim (cs_situs_address sale)).
Proof.
  unfold ownerAddressKey, ownerText. rewrite !orElse_empty.
  by destruct (cs_owner_name sale).
Qed.

(** what the loop leaves in the map, read off its values *)
Lemma ownerAddress_kept (sales : list CleanedSale) :
  let kept := deduplicateByOwnerAddress sales in
  NoDup (ownerAddressKey <$> kept)
  ∧ (∀ s, s ∈ kept →
       s ∈ sales
       ∧ (∀ r, r ∈ sales → ownerAddressKey r = ownerAddressKey s →
               gt (cs_sale_price r) (cs_sale_price s) = false))
  ∧ (∀ r, r ∈ sales → ¬ (noOwner r ∧ noAddress r) →
       ∃ s, s ∈ kept ∧ ownerAddressKey s = ownerAddressKey r)
  ∧ (∀ r, noOwner r ∧ noAddress r → r ∉ kept).
Proof.
  intros kept.
  assert (filed [] []) as H0.
  { split; [constructor|]. split.
    - intros k s H. by apply elem_of_nil in H.
    - intros r H. by apply elem_of_nil in H. }
  apply (filed_loop sales) in H0. simpl in H0.
  destruct H0 as (Hnd & Hent & Hall).
  set (m := fold_left ownerAddressStep sales []) in *.
  assert (∀ s, s ∈ kept → (ownerAddressKey s, s) ∈ m) as Hkept.
  { intros s Hs. unfold kept, deduplicateByOwnerAddress, mapValues in Hs. fold m in Hs.
    apply list_elem_of_fmap in Hs as ([k s'] & -> & Hin). simpl.
    by destruct (Hent _ _ Hin) as (-> & _). }
  assert (ownerAddressKey <$> kept = m.*1) as Hkeys.
  { unfold kept, deduplicateByOwnerAddress. fold m.
    apply keys_of_values. intros k s Hin. by destruct (Hent k s Hin) as (-> & _). }
  split; [by rewrite Hkeys|]. split; [|split].
  - intros s Hs. destruct (Hent _ _ (Hkept s Hs)) as (_ & _ & Hin & Hmax).
    split; [done|exact Hmax].
  - intros r Hr Hne.
    assert (ownerAddressKey r ≠ "|") as Hk by (by rewrite ownerAddressKey_bar).
    specialize (Hall r Hr Hk).
    apply list_elem_of_fmap in Hall as ([k s] & E & Hin). simpl in E. subst k.
    exists s. split.
    + unfold kept, deduplicateByOwnerAddress, mapValues. fold m.
      apply list_elem_of_fmap. by exists (ownerAddressKey r, s).
    + by destruct (Hent _ _ Hin) as (-> & _).
  - intros r Hr%ownerAddressKey_bar Hin.
    destruct (Hent _ _ (Hkept r Hin)) as (_ & Hne & _). done.
Qed.

(** C5.  [deduplicateByOwnerAddress] keeps at most one record per key, the
    key being the owner name, trimmed and upper-cased, a bar, and the situs
    address, trimmed and upper-cased: no two records kept agree on both
    once upper-cased.  Every proper key met in the input keeps one record,
    taken from the input, and no input record of the same key has a greater
    price than the one kept: of two records with the same owner and address
    priced 100000 and 300000, the one at 300000 survives, whichever comes
    first and however the two are capitalised.  A record with neither owner
    name nor situs address is dropped. *)
Theorem deduplicateByOwnerAddress_keeps_best (sales : list CleanedSale) :
  let owner := λ sale, toUpperCase (trim (ownerText sale)) in
  let address := λ sale, toUpperCase (trim (cs_situs_address sale)) in
  let key := λ sale, owner sale +:+ "|" +:+ address sale in
  let kept := deduplicateByOwnerAddress sales in
  (∀ sale, ownerAddressKey sale = key sale)
  ∧ NoDup (key <$> kept)
  ∧ (∀ (i j : nat) s t,
       kept !! i = Some s → kept !! j = Some t →
       owner s = owner t → address s = address t → i = j)
  ∧ (∀ s, s ∈ kept →
       s ∈ sales
       ∧ (∀ r, r ∈ sales → key r = key s →
               gt (cs_sale_price r) (cs_sale_price s) = false)
       ∧ (∀ r p q, r ∈ sales → key r = key s →
               cs_sale_price r = Fin p → cs_sale_price s = Fin q → (p ≤ q)%Qc))
  ∧ (∀ r, r ∈ sales → ¬ (noOwner r ∧ noAddress r) →
       ∃ s, s ∈ kept ∧ key s = key r)
  ∧ (∀ r, noOwner r ∧ noAddress r → r ∉ kept)
  ∧ deduplicateByOwnerAddress
      [ sampleSale (Some "John Doe") "123 MAIN ST" 100000;
        sampleSale (Some "John Doe") "123 MAIN ST" 300000 ]
    = [ sampleSale (Some "John Doe") "123 MAIN ST" 300000 ]
  ∧ deduplicateByOwnerAddress
      [ sampleSale (Some "John Doe") "123 Main St" 100000;
        sampleSale (Some " JOHN DOE") "123 MAIN ST " 300000 ]
    = [ sampleSale (Some " JOHN DOE") "123 MAIN ST " 300000 ]
  ∧ deduplicateByOwnerAddress
      [ sampleSale (Some " JOHN DOE") "123 MAIN ST " 300000;
        sampleSale (Some "John Doe") "123 Main St" 100000 ]
    = [ sampleSale (Some " JOHN DOE") "123 MAIN ST " 300000 ]
  ∧ deduplicateByOwnerAddress [ sampleSale None "" 250000 ] = []
  ∧ deduplicateByOwnerAddress [ sampleSale (Some "  ") " " 250000 ] = [].
Proof.
  intros owner address key kept.
  assert (∀ sale, ownerAddressKey sale = key sale) as Hkey
    by apply ownerAddressKey_upper.
  destruct (ownerAddress_kept sales) as (Hnd & Hbest & Hsome & Hnone).
  fold kept in Hnd, Hbest, Hsome, Hnone.
  assert (NoDup (key <$> kept)) as Hnd'.
  { rewrite <- (list_fmap_ext ownerAddressKey key kept); [done|].
    intros i sale _. apply Hkey. }
  split; [done|]. split; [done|]. split; [|split; [|split; [|split]]].
  - intros i j s t Hi Hj Ho Ha.
    apply (NoDup_lookup (key <$> kept) i j (key s)); [done| |].
    + by rewrite list_lookup_fmap, Hi.
    + rewrite list_lookup_fmap, Hj. unfold key. by rewrite Ho, Ha.
  - intros s Hs. destruct (Hbest s Hs) as [Hin Hmax].
    assert (∀ r, r ∈ sales → key r = key s →
                 gt (cs_sale_price r) (cs_sale_price s) = false) as Hmax'.
    { intros r Hr Hk. apply Hmax; [done|]. by rewrite !Hkey. }
    split; [done|]. split; [exact Hmax'|].
    intros r p q Hr Hk Hp Hq. specialize (Hmax' r Hr Hk).
    rewrite Hp, Hq in Hmax'. unfold gt in Hmax'. cbn [lt] in Hmax'.
    apply bool_decide_eq_false in Hmax'. by apply Qcnot_lt_le.
  - intros r Hr Hne. destruct (Hsome r Hr Hne) as (s & Hs & Hk).
    exists s. split; [done|]. by rewrite <- !Hkey.
  - exact Hnone.
  - repeat split; reflexivity.
Qed.

(** Two sales of one owner and address, capitalised differently: the one
    kept is the one at 300000, and the one at 100000, which has its key,
    does not exceed it. *)
Lemma deduplicateByOwnerAddress_keeps_best_witness :
  sampleSale (Some " JOHN DOE") "123 MAIN ST " 300000
  ∈ deduplicateByOwnerAddress
      [ sampleSale (Some "John Doe") "123 Main St" 100000;
        sampleSale (Some " JOHN DOE") "123 MAIN ST " 300000 ]
  ∧ gt (cs_sale_price (sampleSale (Some "John Doe") "123 Main St" 100000))
       (cs_sale_price (sampleSale (Some " JOHN DOE") "123 MAIN ST " 300000)) = false.
Proof.
  assert (sampleSale (Some " JOHN DOE") "123 MAIN ST " 300000
          ∈ deduplicateByOwnerAddress
              [ sampleSale (Some "John Doe") "123 Main St" 100000;
                sampleSale (Some " JOHN DOE") "123 MAIN ST " 300000 ]) as Hin.
  { change (deduplicateByOwnerAddress _)
      with [sampleSale (Some " JOHN DOE") "123 MAIN ST " 300000]. left. }
  split; [exact Hin|].
  destruct (proj1 (proj2 (proj2 (proj2 (deduplicateByOwnerAddress_keeps_best
                            [ sampleSale (Some "John Doe") "123 Main St" 100000;
                              sampleSale (Some " JOHN DOE") "123 MAIN ST " 300000 ]))))
              _ Hin) as (_ & Hmax & _).
  apply Hmax; [left|reflexivity].
Defined.

(** ** Summary statistics *)

Lemma Qc_of_Z_0 : Qc_of_Z 0 = 0%Qc.
Proof. by apply Qc_is_canon. Qed.

Lemma add_comm (a b : number) : add a b = add b a.
Proof. destruct a, b; try done. cbn [add]. by rewrite Qcplus_comm. Qed.

Lemma add_assoc (a b c : number) : add a (add b c) = add (add a b) c.
Proof. destruct a, b, c; try done. cbn [add]. by rewrite Qcplus_assoc. Qed.

Lemma add_0_l (a : number) : add (ofZ 0) a = a.
Proof. destruct a; try done. unfold ofZ. cbn [add]. by rewrite Qc_of_Z_0, Qcplus_0_l. Qed.

Lemma add_0_r (a : number) : add a (ofZ 0) = a.
Proof. by rewrite add_comm, add_0_l. Qed.

Lemma fold_left_add (l : list number) (a : number) :
  fold_left add l a = add a (sumOf l).
Proof.
  revert a. induction l as [|x l IH]; intros a; cbn [fold_left sumOf foldr].
  - by rewrite add_0_r.
  - rewrite IH. fold (sumOf l). by rewrite add_assoc.
Qed.

Lemma sumOf_Permutation (l1 l2 : list number) : l1 ≡ₚ l2 → sumOf l1 = sumOf l2.
Proof.
  induction 1 as [|x l1 l2 _ IH|x y l|l1 l2 l3 _ IH1 _ IH2]; cbn [sumOf foldr].
  - done.
  - fold (sumOf l1) (sumOf l2). by rewrite IH.
  - fold (sumOf l). by rewrite !add_assoc, (add_comm y x).
  - by rewrite IH1.
Qed.

Lemma byDifference_atMost (a b : number) :
  a ≠ NaN → b ≠ NaN → byDifference a b ↔ atMost a b.
Proof.
  unfold byDifference, atMost, sub, ofZ.
  destruct a as [| | |p], b as [| | |q]; intros Ha Hb; try done.
  cbn [neg add lt]. rewrite !bool_decide_eq_false, Qc_of_Z_0.
  by rewrite <- Qclt_minus_iff.
Qed.

Global Instance byDifference_total : Total byDifference.
Proof.
  intros a b.
  destruct (decide (a = NaN)) as [->|Ha]; [by left|].
  destruct (decide (b = NaN)) as [->|Hb]; [left; by destruct a|].
  rewrite !byDifference_atMost by done. unfold atMost.
  destruct a as [| | |p], b as [| | |q]; try done; cbn [lt]; try (by left); try (by right).
  rewrite !bool_decide_eq_false.
  destruct (Qclt_le_dec q p) as [H|H].
  - right. by apply Qcle_not_lt, Qclt_le_weak.
  - left. by apply Qcle_not_lt.
Qed.

Lemma atMost_refl (a : number) : atMost a a.
Proof. apply lt_irrefl. Qed.

Lemma atMost_trans (a b c : number) :
  b ≠ NaN → atMost a b → atMost b c → atMost a c.
Proof.
  unfold atMost.
  destruct a as [| | |p], b as [| | |q], c as [| | |r]; cbn [lt]; try done.
  rewrite !bool_decide_eq_false. intros _ H1 H2 H3.
  apply H2. apply Qclt_le_trans with p; [done|]. by apply Qcnot_lt_le.
Qed.

Lemma sorted_ascending (l : list number) :
  Forall (λ x, x ≠ NaN) l → Sorted byDifference l → StronglySorted atMost l.
Proof.
  induction l as [|x l IH]; intros Hn Hs; [constructor|].
  apply Forall_cons in Hn as [Hx Hl]. apply Sorted_inv in Hs as [Hs Hhd].
  specialize (IH Hl Hs). constructor; [done|].
  destruct l as [|y l]; [constructor|].
  apply HdRel_inv in Hhd. apply Forall_cons in Hl as [Hy Hl].
  apply (proj1 (byDifference_atMost x y Hx Hy)) in Hhd.
  apply StronglySorted_inv in IH as [_ Hall].
  constructor; [done|].
  eapply Forall_impl; [exact Hall|]. intros z Hz. cbn beta in Hz.
  by apply atMost_trans with y.
Qed.

Lemma ascending_first (x : number) (l : list number) :
  StronglySorted atMost (x :: l) → ∀ p, p ∈ x :: l → atMost x p.
Proof.
  intros [_ Hall]%StronglySorted_inv p [->|Hp]%elem_of_cons; [apply atMost_refl|].
  by apply (proj1 (Forall_forall _ _) Hall).
Qed.

Lemma ascending_last (l : list number) (m : number) :
  StronglySorted atMost l → last l = Some m → ∀ p, p ∈ l → atMost p m.
Proof.
  induction 1 as [|x l Hs IH Hall]; intros Hlast p Hp; [done|].
  destruct l as [|y l].
  - injection Hlast as <-. apply list_elem_of_singleton in Hp as ->. apply atMost_refl.
  - rewrite last_cons_cons in Hlast.
    apply elem_of_cons in Hp as [->|Hp]; [|by apply IH].
    apply (proj1 (Forall_forall _ _) Hall). by apply last_Some_elem_of.
Qed.

(** C8.  On the empty list [getSalesStats] returns zero in every field; on
    a non-empty list of prices it returns the number of sales, the sum of
    the prices, their arithmetic mean, the least and the greatest price,
    and as median the middle price of the ascending order for an odd
    length and the mean of the two middle prices for an even length.  Prices
    100000, 200000, 300000 give median 200000; 100000, 200000 give 150000. *)
Theorem getSalesStats_summary :
  getSalesStats []
  = {| count := 0; totalValue := ofZ 0; averagePrice := ofZ 0;
       medianPrice := ofZ 0; minPrice := ofZ 0; maxPrice := ofZ 0 |}
  ∧ (∀ sales : list CleanedSale,
       sales ≠ [] →
       Forall (λ s, cs_sale_price s ≠ NaN) sales →
       let stats := getSalesStats sales in
       let prices := map cs_sale_price sales in
       let n := length sales in
       count stats = n
       ∧ totalValue stats = sumOf prices
       ∧ averagePrice stats = div (sumOf prices) (ofZ (Z.of_nat n))
       ∧ minPrice stats ∈ prices
       ∧ (∀ p, p ∈ prices → atMost (minPrice stats) p)
       ∧ maxPrice stats ∈ prices
       ∧ (∀ p, p ∈ prices → atMost p (maxPrice stats))
       ∧ ∃ sorted,
           sorted ≡ₚ prices ∧ StronglySorted atMost sorted
           ∧ (n mod 2 = 1 → medianPrice stats = at_ sorted (n / 2))%nat
           ∧ (n mod 2 = 0 →
              medianPrice stats
              = div (add (at_ sorted (n / 2 - 1)) (at_ sorted (n / 2))) (ofZ 2))%nat)
  ∧ getSalesStats threeSales
    = {| count := 3; totalValue := ofZ 600000; averagePrice := ofZ 200000;
         medianPrice := ofZ 200000; minPrice := ofZ 100000; maxPrice := ofZ 300000 |}
  ∧ medianPrice (getSalesStats (take 2 threeSales)) = ofZ 150000.
Proof.
  split; [reflexivity|]. split.
  2: { split; (apply (bool_decide_unpack _); vm_compute; exact I). }
  intros sales Hne Hnan stats prices n.
  set (sorted := sortAscending prices).
  assert (sorted ≡ₚ prices) as Hperm by apply merge_sort_Permutation.
  assert (length sorted = n) as Hlen.
  { rewrite (Permutation_length Hperm). unfold prices, n. apply length_map. }
  assert (Forall (λ x, x ≠ NaN) sorted) as Hsn.
  { rewrite Hperm. unfold prices. apply Forall_forall. intros p Hp.
    apply list_elem_of_In, in_map_iff in Hp as (s & <- & Hs).
    apply (proj1 (Forall_forall _ _) Hnan). by apply list_elem_of_In. }
  assert (StronglySorted atMost sorted) as Hasc.
  { apply sorted_ascending; [done|]. apply Sorted_merge_sort. apply _. }
  assert (0 < n)%nat as Hpos.
  { unfold n. destruct sales; [done|]. cbn [length]. lia. }
  assert (stats
          = {| count := n;
               totalValue := fold_left add sorted (ofZ 0);
               averagePrice := div (fold_left add sorted (ofZ 0)) (ofZ (Z.of_nat n));
               medianPrice :=
                 if bool_decide (length sorted mod 2 = 0)%nat
                 then div (add (at_ sorted (length sorted / 2 - 1))
                               (at_ sorted (length sorted / 2))) (ofZ 2)
                 else at_ sorted (length sorted / 2);
               minPrice := at_ sorted 0;
               maxPrice := at_ sorted (length sorted - 1) |}) as Hstats.
  { unfold stats, getSalesStats. rewrite bool_decide_eq_false_2; [done|].
    fold n. lia. }
  assert (fold_left add sorted (ofZ 0) = sumOf prices) as Hsum.
  { by rewrite fold_left_add, add_0_l, (sumOf_Permutation _ _ Hperm). }
  rewrite Hstats. cbn [count totalValue averagePrice medianPrice minPrice maxPrice].
  rewrite Hsum, Hlen.
  destruct sorted as [|x rest] eqn:Hsorted; [cbn [length] in Hlen; lia|].
  assert (∃ m, last (x :: rest) = Some m) as [m Hm].
  { destruct (last (x :: rest)) eqn:E; [by eexists|]. by apply last_None in E. }
  assert (at_ (x :: rest) (n - 1) = m) as Hmax.
  { unfold at_. rewrite <- Hlen, Nat.sub_1_r, <- last_lookup, Hm. done. }
  rewrite Hmax. change (at_ (x :: rest) 0) with x.
  split; [done|]. split; [done|]. split; [done|].
  split; [rewrite <- Hperm; left|].
  split; [intros p Hp; apply (ascending_first x rest Hasc); by rewrite Hperm|].
  split; [rewrite <- Hperm; by apply last_Some_elem_of|].
  split; [intros p Hp; apply (ascending_last _ m Hasc Hm); by rewrite Hperm|].
  exists (x :: rest). split; [done|]. split; [done|]. split.
  - intros Hodd. rewrite bool_decide_eq_false_2; [done|lia].
  - intros Heven. by rewrite bool_decide_eq_true_2.
Qed.

(** The three sample sales: non-empty, without NaN. *)
Lemma getSalesStats_summary_witness :
  count (getSalesStats threeSales) = 3%nat
  ∧ totalValue (getSalesStats threeSales) = sumOf (map cs_sale_price threeSales)
  ∧ atMost (minPrice (getSalesStats threeSales)) (ofZ 200000).
Proof.
  destruct (proj1 (proj2 getSalesStats_summary) threeSales)
    as (Hc & Ht & _ & _ & Hmin & _).
  - discriminate.
  - repeat constructor; discriminate.
  - split; [exact Hc|]. split; [exact Ht|]. apply Hmin. right. left.
Defined.

(** ** Retry wrapper *)

Section RetryFacts.

Context {W T : Type}.
Variable fn : W → W * (Error + T).
Variable opts : RetryOptions.

Lemma retryFrom_runs (fuel attempt : nat) (lastError : option Error)
      (done : list (Error + T)) (w : W) :
    (attempt + fuel = S (maxRetries opts))%nat → (0 < fuel)%nat →
    ∃ run, retryFrom fn opts fuel attempt lastError done w = Some run
           ∧ ranFrom fn opts fuel w done run.
  Proof.
    revert attempt lastError done w.
    induction fuel as [|fuel IH]; intros attempt lastError done w Hsum Hpos; [lia|].
    cbn [retryFrom]. rewrite bool_decide_eq_true_2 by lia.
    destruct (fn w) as [w' [error|value]] eqn:Hfn.
    - (* the attempt fails *)
      assert (∀ run, outcome run = Threw (Some error) →
                     invocations run = done ++ [inl error] → world run = w' →
                     mayRetry opts error = false ∨ 1%nat = S fuel →
                     ranFrom fn opts (S fuel) w done run) as Hstop.
      { intros run Ho Hi Hw Hwhy. exists [inl error].
        cbn [length calls after]. rewrite Hfn. cbn [fst snd].
        split; [done|]. split; [lia|]. split; [done|]. split; [done|].
        split; [intros k e Hk Hlt; lia|].
        split; [by intros [|k] v Hk|].
        split.
        - intros e He. rewrite last_singleton in He. injection He as <-.
          split; [done|]. destruct Hwhy; [by left|right; lia].
        - intros v Hv. by rewrite last_singleton in Hv. }
      case_bool_decide as Hlast.
      { eexists. split; [done|]. apply Hstop; try done. right. lia. }
      assert (mayRetry opts error = true →
              ∃ run, retryFrom fn opts fuel (S attempt) (Some error)
                       (done ++ [inl error]) w' = Some run
                     ∧ ranFrom fn opts (S fuel) w done run) as Hnext.
      { intros Hretry.
        destruct (IH (S attempt) (Some error) (done ++ [inl error]) w')
          as (run & Hrun & more & Hi & Hlen & Hcalls & Hw & Hmid & Hval & Herr & Hret);
          [lia|lia|].
        exists run. split; [done|]. exists (inl error :: more).
        cbn [length calls after]. rewrite Hfn. cbn [fst snd].
        split; [by rewrite Hi, <- app_assoc|].
        split; [lia|]. split; [by rewrite <- Hcalls|]. split; [done|].
        split; [|split; [|split]].
        - intros [|k] e Hk Hlt.
          + by injection Hk as <-.
          + apply (Hmid k e Hk). lia.
        - intros [|k] v Hk; [done|]. f_equal. by apply (Hval k v).
        - intros e He. destruct more as [|x more]; [cbn [length] in Hlen; lia|].
          rewrite last_cons_cons in He. destruct (Herr e He) as [Ho Hwhy].
          split; [done|]. destruct Hwhy as [?|Hfuel]; [by left|right].
          cbn [length] in *. lia.
        - intros v Hv. destruct more as [|x more]; [cbn [length] in Hlen; lia|].
          rewrite last_cons_cons in Hv. by apply Hret. }
      unfold mayRetry in *. destruct (isRetryable opts) as [retryable|].
      + destruct (retryable error) eqn:Hr; cbn [negb].
        * by apply Hnext.
        * eexists. split; [done|]. apply Hstop; try done. by left.
      + by apply Hnext.
    - (* the attempt succeeds *)
      eexists. split; [done|]. exists [inr value].
      cbn [length calls after]. rewrite Hfn. cbn [fst snd invocations world outcome].
      split; [done|]. split; [lia|]. split; [done|]. split; [done|].
      split; [intros k e Hk Hlt; lia|].
      split; [by intros [|k] v Hk|].
      split.
      + intros e He. by rewrite last_singleton in He.
      + intros v Hv. rewrite last_singleton in Hv. by injection Hv as <-.
  Qed.

End RetryFacts.

(** C9.  A call of [withRetry] always ends, after at least one and at most
    [maxRetries + 1] invocations of the operation.  The invocations follow
    one another on the state left by the previous one; every one but the
    last failed.  If an invocation fails with an error that the
    [isRetryable] classifier rejects, it is the last one and that error is
    thrown to the caller; if all [maxRetries + 1] invocations fail, the
    error of the last one is thrown; in any case what is thrown is the
    error of the last invocation, and a value is returned exactly when the
    last invocation produced it. *)
Theorem withRetry_bounded {W T : Type}
    (fn : W → W * (Error + T)) (opts : RetryOptions) (w : W) :
  ∃ run : Run W T,
    withRetry fn opts w = Some run
    ∧ (1 ≤ length (invocations run) ≤ maxRetries opts + 1)%nat
    ∧ invocations run = calls fn (length (invocations run)) w
    ∧ world run = after fn (length (invocations run)) w
    ∧ (∀ k r, invocations run !! k = Some r → (S k < length (invocations run))%nat →
              ∃ e, r = inl e ∧ mayRetry opts e = true)
    ∧ (∀ k e retryable,
         invocations run !! k = Some (inl e) →
         isRetryable opts = Some retryable → retryable e = false →
         length (invocations run) = S k ∧ outcome run = Threw (Some e))
    ∧ (∀ e, length (invocations run) = (maxRetries opts + 1)%nat →
            last (invocations run) = Some (inl e) →
            outcome run = Threw (Some e))
    ∧ (∀ thrown, outcome run = Threw thrown →
                 ∃ e, thrown = Some e ∧ last (invocations run) = Some (inl e))
    ∧ (∀ v, outcome run = Returned v ↔ last (invocations run) = Some (inr v)).
Proof.
  destruct (retryFrom_runs fn opts (S (maxRetries opts)) 0 None [] w)
    as (run & Hrun & more & Hi & Hlen & Hcalls & Hw & Hmid & Hval & Herr & Hret);
    [lia|lia|].
  exists run. split; [exact Hrun|]. cbn [app] in Hi. rewrite Hi.
  split; [lia|]. split; [exact Hcalls|]. split; [exact Hw|].
  assert (∃ r, last more = Some r) as [r Hr].
  { destruct (last more) eqn:E; [by eexists|].
    exfalso. apply last_None in E. rewrite E in Hlen. cbn [length] in Hlen. lia. }
  split; [|split; [|split; [|split]]].
  - intros k [e|v] Hk Hlt.
    + exists e. split; [done|]. by apply (Hmid k).
    + apply Hval in Hk. lia.
  - intros k e retryable Hk Hopt Hno.
    assert (mayRetry opts e = false) as Hm by (unfold mayRetry; by rewrite Hopt).
    assert (length more = S k) as Hlast.
    { apply lookup_lt_Some in Hk as Hlt.
      destruct (decide (S k < length more)%nat) as [Hlt'|]; [|lia].
      rewrite (Hmid k e Hk Hlt') in Hm. done. }
    split; [done|]. apply Herr.
    rewrite last_lookup, Hlast. exact Hk.
  - intros e _ He. by apply Herr.
  - intros thrown Ho. destruct r as [e|v].
    + destruct (Herr e Hr) as [Ho' _]. rewrite Ho' in Ho. injection Ho as <-. by exists e.
    + rewrite (Hret v Hr) in Ho. done.
  - intros v. split.
    + intros Ho. destruct r as [e|v'].
      * destruct (Herr e Hr) as [Ho' _]. rewrite Ho' in Ho. done.
      * rewrite (Hret v' Hr) in Ho. by injection Ho as <-.
    + apply Hret.
Qed.

(** Two retries allowed; the operation fails with a time-out, then with a
    parse error: the second invocation is the last and its error is
    thrown. *)
Lemma withRetry_bounded_witness :
  withRetry scripted {| maxRetries := 2; isRetryable := Some isNetworkRetryable |}
            ["Navigation timeout of 30000 ms exceeded"; "Unexpected token <"; "timeout"]
  = Some {| outcome := Threw (Some {| message := "Unexpected token <" |});
            invocations := [ inl {| message := "Navigation timeout of 30000 ms exceeded" |};
                             inl {| message := "Unexpected token <" |} ];
            world := ["timeout"] |}.
Proof.
  destruct (withRetry_bounded scripted
              {| maxRetries := 2; isRetryable := Some isNetworkRetryable |}
              ["Navigation timeout of 30000 ms exceeded"; "Unexpected token <"; "timeout"])
    as (run & Hrun & _).
  rewrite Hrun. revert Hrun. vm_compute. intros [= <-]. reflexivity.
Defined.

(** ** Address components *)

Lemma trimStart_split (s : string) :
  ∃ gap, blanks gap ∧ s = gap +:+ trimStart s.
Proof.
  unfold blanks. induction s as [|c s (gap & Hg & E)].
  - by exists "".
  - cbn [trimStart]. destruct (isSpace c) eqn:Hc.
    + exists (String c gap). cbn [sall]. rewrite Hc, Hg, app_String. by rewrite <- E.
    + by exists "".
Qed.

Lemma trimStart_blanks (gap s : string) :
  blanks gap → trimStart (gap +:+ s) = trimStart s.
Proof.
  unfold blanks. induction gap as [|c gap IH]; [done|].
  cbn [sall]. intros [Hc Hg]%andb_true_iff. rewrite app_String.
  cbn [trimStart]. rewrite Hc. by apply IH.
Qed.

Lemma digit_not_space (c : ascii) : isDigit c = true → isSpace c = false.
Proof. unfold isDigit, isSpace. lia. Qed.

Lemma isZip_trimStart (zp : string) : isZip zp = true → trimStart zp = zp.
Proof.
  unfold isZip. intros H. pose proof (join_split "-" zp) as Hj.
  assert (∀ five rest, sall isDigit five = true → String.length five = 5%nat →
                       trimStart (five +:+ rest) = five +:+ rest) as Hfive.
  { intros [|c five] rest Hd Hl; [done|]. cbn [sall] in Hd.
    apply andb_true_iff in Hd as [Hc _]. rewrite app_String. cbn [trimStart].
    by rewrite (digit_not_space c Hc). }
  destruct (split "-" zp) as [|five [|four [|? ?]]]; try done.
  - apply andb_true_iff in H as [Hd Hl%bool_decide_eq_true].
    cbn [join] in Hj. subst zp. rewrite <- (app_empty_r five). by apply Hfive.
  - apply andb_true_iff in H as [H _]. apply andb_true_iff in H as [H _].
    apply andb_true_iff in H as [Hd Hl%bool_decide_eq_true].
    cbn [join] in Hj. subst zp. by apply Hfive.
Qed.

Lemma matchStateZipHere_Some (s st zp : string) :
  matchStateZipHere s = Some (st, zp) ↔ stateZip s st zp.
Proof.
  unfold matchStateZipHere, stateZip. split.
  - destruct s as [|a [|b rest]]; try done.
    destruct (isLetter a) eqn:Ha; [|done]. destruct (isLetter b) eqn:Hb; [|done].
    cbn [andb]. destruct (eqs (trimStart rest) "" || isZip (trimStart rest)) eqn:Ht; [|done].
    intros [= <- <-]. destruct (trimStart_split rest) as (gap & Hg & E).
    exists a, b, gap. repeat split; try done.
    + apply orb_true_iff in Ht as [Ht%eqs_true|Ht]; [by left|by right].
    + rewrite !app_String. cbn. by rewrite <- E.
  - intros (a & b & gap & -> & Ha & Hb & Hg & Hz & ->).
    rewrite !app_String. change ("" +:+ ?x) with x. rewrite Ha, Hb. cbn [andb].
    assert (trimStart (gap +:+ zp) = zp) as ->.
    { rewrite (trimStart_blanks _ _ Hg). destruct Hz as [->|Hz]; [done|].
      by apply isZip_trimStart. }
    destruct Hz as [->|Hz]; [done|]. by rewrite Hz, orb_true_r.
Qed.

(** [stateZipMatch] finds a suffix of the text that is a state and zip, and
    no suffix that starts further left is one *)
Lemma stateZipMatch_Some (s whole st zp : string) :
  stateZipMatch s = Some (whole, st, zp) ↔
  ∃ pre, s = pre +:+ whole ∧ stateZip whole st zp
         ∧ ∀ p1 p2 st' zp', pre = p1 +:+ p2 → p2 ≠ "" →
                            ¬ stateZip (p2 +:+ whole) st' zp'.
Proof.
  revert whole st zp. induction s as [|c s IH]; intros whole st zp.
  - cbn [stateZipMatch]. change (matchStateZipHere "") with (@None (string * string)).
    split; [done|]. intros (pre & E & (a & b & gap & -> & _ & _ & _ & _ & ->) & _).
    destruct pre; done.
  - cbn [stateZipMatch].
    destruct (matchStateZipHere (String c s)) as [[st0 zp0]|] eqn:Hhere.
    + split.
      * intros [= <- <- <-]. exists "". split; [done|].
        split; [by apply matchStateZipHere_Some|].
        intros p1 p2 st' zp' E Hne. destruct p1, p2; done.
      * intros (pre & E & Hsz & Hleft). destruct pre as [|c' pre].
        -- change ("" +:+ whole) with whole in E. subst whole.
           apply matchStateZipHere_Some in Hsz. congruence.
        -- exfalso. apply (Hleft "" (String c' pre) st0 zp0); [done|done|].
           rewrite <- E. by apply matchStateZipHere_Some.
    + rewrite IH. split.
      * intros (pre & -> & Hsz & Hleft). exists (String c pre).
        split; [done|]. split; [done|].
        intros p1 p2 st' zp' E Hne Hbad. destruct p1 as [|c1 p1].
        -- change ("" +:+ p2) with p2 in E. subst p2. rewrite app_String in Hbad.
           apply matchStateZipHere_Some in Hbad. congruence.
        -- rewrite app_String in E. injection E as <- ->.
           by apply (Hleft p1 p2 st' zp').
      * intros (pre & E & Hsz & Hleft). destruct pre as [|c' pre].
        -- change ("" +:+ whole) with whole in E. subst whole.
           apply matchStateZipHere_Some in Hsz. congruence.
        -- rewrite app_String in E. injection E as <- ->. exists pre.
           split; [done|]. split; [done|].
           intros p1 p2 st' zp' -> Hne. apply (Hleft (String c p1) p2); [done|done].
Qed.

Lemma stateZipMatch_None (s : string) :
  stateZipMatch s = None ↔
  ∀ pre whole st zp, s = pre +:+ whole → ¬ stateZip whole st zp.
Proof.
  induction s as [|c s IH].
  - split; [|done]. intros _ pre whole st zp E (a & b & gap & -> & _ & _ & _ & _ & ->).
    destruct pre; done.
  - cbn [stateZipMatch].
    destruct (matchStateZipHere (String c s)) as [[st0 zp0]|] eqn:Hhere.
    + split; [done|]. intros H. exfalso.
      apply (H "" (String c s) st0 zp0); [done|]. by apply matchStateZipHere_Some.
    + rewrite IH. split.
      * intros H pre whole st zp E Hsz. destruct pre as [|c' pre].
        -- change ("" +:+ whole) with whole in E. subst whole.
           apply matchStateZipHere_Some in Hsz. congruence.
        -- rewrite app_String in E. injection E as <- ->. by apply (H pre whole st zp).
      * intros H pre whole st zp -> Hsz. by apply (H (String c pre) whole st zp).
Qed.

(** [parseAddress] by the shape of the address.  The empty address gives
    four empty fields, and an address without a comma is returned whole as
    the street with no city, state "TN" and no zip.  Of an address with at
    least two comma-separated segments, the first is the street; when no
    suffix of the last is a state and zip, the second segment is the city,
    the state is "TN" and the zip is empty; when one is, the state is the
    two letters found, in upper case, the zip is the one found, if any, and
    the city is the segments between the first and the last joined by ", "
    if there are any, and otherwise what is left of the last segment once
    the state and zip are taken out of it. *)
Lemma parseAddress_cases (fullAddress : string) :
  (fullAddress = "" →
   parseAddress fullAddress
   = {| a_street := ""; a_city := ""; a_state := ""; a_zip := "" |})
  ∧ (fullAddress ≠ "" → length (segments fullAddress) = 1%nat →
     parseAddress fullAddress
     = {| a_street := fullAddress; a_city := ""; a_state := "TN"; a_zip := "" |})
  ∧ (∀ street second lastPart,
       fullAddress ≠ "" →
       segments fullAddress !! 0%nat = Some street →
       segments fullAddress !! 1%nat = Some second →
       last (segments fullAddress) = Some lastPart →
       (stateZipMatch lastPart = None →
        parseAddress fullAddress
        = {| a_street := street; a_city := second; a_state := "TN"; a_zip := "" |})
       ∧ (∀ whole st zp,
            stateZipMatch lastPart = Some (whole, st, zp) →
            (∃ pre, lastPart = pre +:+ whole) ∧ stateZip whole st zp
            ∧ a_street (parseAddress fullAddress) = street
            ∧ a_state (parseAddress fullAddress) = toUpperCase st
            ∧ a_zip (parseAddress fullAddress) = zp
            ∧ (length (segments fullAddress) = 2%nat →
               a_city (parseAddress fullAddress)
               = trim (replaceFirst whole "" lastPart))
            ∧ ((2 < length (segments fullAddress))%nat →
               a_city (parseAddress fullAddress)
               = join ", " (middle (segments fullAddress)))))
  ∧ (∀ lastPart,
       stateZipMatch lastPart = None ↔
       ∀ pre whole st zp, lastPart = pre +:+ whole → ¬ stateZip whole st zp).
Proof.
  split; [by intros ->|]. split; [|split; [|apply stateZipMatch_None]].
  - intros Hne Hlen. unfold parseAddress. apply truthy_true in Hne. rewrite Hne.
    cbn [negb]. fold (segments fullAddress). rewrite Hlen.
    by rewrite bool_decide_eq_false_2 by lia.
  - intros street second lastPart Hne H0 H1 Hlast.
    assert (2 ≤ length (segments fullAddress))%nat as Hlen.
    { apply lookup_lt_Some in H1. lia. }
    split.
    + intros Hnone. unfold parseAddress. apply truthy_true in Hne. rewrite Hne.
      cbn [negb]. fold (segments fullAddress).
      rewrite bool_decide_eq_true_2 by done. cbv zeta.
      rewrite H0, H1, Hlast. cbn [from_option id]. rewrite Hnone.
      by rewrite bool_decide_eq_true_2 by lia.
    + intros whole st zp Hsome.
      assert (parseAddress fullAddress
              = {| a_street := street;
                   a_city := if bool_decide (2 < length (segments fullAddress))%nat
                             then join ", " (middle (segments fullAddress))
                             else trim (replaceFirst whole "" lastPart);
                   a_state := toUpperCase st;
                   a_zip := zp |}) as ->.
      { unfold parseAddress. apply truthy_true in Hne. rewrite Hne.
        cbn [negb]. fold (segments fullAddress).
        rewrite bool_decide_eq_true_2 by done. cbv zeta.
        rewrite H0, Hlast. cbn [from_option id]. by rewrite Hsome. }
      apply stateZipMatch_Some in Hsome as (pre & E & Hsz & _).
      split; [by exists pre|]. split; [done|].
      cbn [a_street a_state a_zip a_city].
      split; [done|]. split; [done|]. split; [done|]. split.
      * intros H2. by rewrite bool_decide_eq_false_2 by lia.
      * intros H2. by rewrite bool_decide_eq_true_2.
Qed.

(** a last segment that ends with two letters always has a suffix read as a
    state, so the fall-back is left to the segments that end otherwise *)
Lemma stateZipMatch_two_letters (pre : string) (a b : ascii) :
  isLetter a = true → isLetter b = true →
  stateZipMatch (pre +:+ String a (String b "")) ≠ None.
Proof.
  intros Ha Hb Hnone.
  apply (proj1 (stateZipMatch_None _) Hnone pre (String a (String b ""))
               (String a (String b "")) ""); [done|].
  exists a, b, "". repeat split; try done. by left.
Qed.

(** C7.  The last segment of "123 Main St, Covington" is a city and holds
    no state and zip, and yet [parseAddress] does not fall back to the city
    "Covington" and the state "TN": its pattern takes the last two letters
    of the segment for a state, so the city is "Covingt" and the state
    "ON".  [transformRecord] hands such an address over when the record has
    no city, and the sale gets the city "COVINGT".  With the state after a
    further comma, as in the fixtures of the test suite, the city is
    whole. *)
Theorem parseAddress_city_read_as_state :
  stateZipMatch "Covington" = Some ("on", "on", "")
  ∧ parseAddress "123 Main St, Covington"
    = {| a_street := "123 Main St"; a_city := "Covingt"; a_state := "ON"; a_zip := "" |}
  ∧ cs_city (transformRecord "2025-01-13T06:00:00.000Z"
               (sampleRecordAt "123 Main St, Covington")) = "COVINGT"
  ∧ parseAddress "123 Main St, Covington, TN"
    = {| a_street := "123 Main St"; a_city := "Covington"; a_state := "TN"; a_zip := "" |}
  ∧ parseAddress "123 Main St, Covington, TN 38019"
    = {| a_street := "123 Main St"; a_city := "Covington"; a_state := "TN";
         a_zip := "38019" |}.
Proof. repeat split; vm_compute; reflexivity. Qed.

(** ** Detail enrichment *)

Lemma batchesFrom_concat {A : Type} (fuel : nat) (size : positive) (entries : list A) :
  (length entries ≤ fuel)%nat → concat (batchesFrom fuel size entries) = entries.
Proof.
  revert entries. induction fuel as [|fuel IH]; intros entries Hlen.
  - destruct entries; [done|]. cbn [length] in Hlen. lia.
  - destruct entries as [|x entries]; [done|].
    cbn [batchesFrom concat]. rewrite IH; [apply take_drop|].
    rewrite length_drop. cbn [length] in *. lia.
Qed.

Lemma batches_concat {A : Type} (size : positive) (entries : list A) :
  concat (batches size entries) = entries.
Proof. by apply batchesFrom_concat. Qed.

Lemma fold_left_concat {A B : Type} (f : B → A → B) (ls : list (list A)) (b : B) :
  fold_left (λ acc l, fold_left f l acc) ls b = fold_left f (concat ls) b.
Proof.
  revert b. induction ls as [|l ls IH]; intros b; [done|].
  cbn [fold_left concat]. by rewrite IH, fold_left_app.
Qed.

Section CollectFacts.

Variable county : string.

Lemma collect_rows (rows : list SearchResultRow) (acc : Collected) :
    allResults (fold_left (collectRow county) rows acc)
    = allResults acc ++ map (λ row, searchResultToRawRecord row county) rows.
  Proof.
    revert acc. induction rows as [|row rows IH]; intros acc; cbn [fold_left map].
    - by rewrite app_nil_r.
    - rewrite IH. cbn [collectRow allResults]. by rewrite <- app_assoc.
  Qed.

Lemma mapped_row (acc : Collected) (row : SearchResultRow) :
    mapped acc → mapped (collectRow county acc row).
  Proof.
    intros [Hnd Hkeys]. unfold collectRow. split; cbn [parcelUrls allResults].
    - destruct (truthy (viewUrl row)); [by apply mapSet_NoDup|done].
    - intros k Hk.
      assert (k ∈ (parcelUrls acc).*1 ∨ k = parcelId row) as [Hin| ->].
      { destruct (truthy (viewUrl row)); [|by left].
        rewrite mapSet_keys in Hk. case_bool_decide; [by left|].
        by apply elem_snoc in Hk. }
      + destruct (Hkeys k Hin) as (r & Hr & E). exists r.
        split; [|done]. apply elem_of_app. by left.
      + exists (searchResultToRawRecord row county). split; [|done].
        apply elem_of_app. right. left.
  Qed.

Lemma mapped_rows (rows : list SearchResultRow) (acc : Collected) :
    mapped acc → mapped (fold_left (collectRow county) rows acc).
  Proof.
    revert acc. induction rows as [|row rows IH]; intros acc H; [done|].
    cbn [fold_left]. by apply IH, mapped_row.
  Qed.

Lemma collectPages_rows (pages : list (list SearchResultRow)) :
    collectPages county pages
    = fold_left (collectRow county) (concat pages)
                {| allResults := []; parcelUrls := [] |}.
  Proof. unfold collectPages. apply fold_left_concat. Qed.

Lemma collectPages_mapped (pages : list (list SearchResultRow)) :
    mapped (collectPages county pages).
  Proof.
    rewrite collectPages_rows. apply mapped_rows. split; cbn [parcelUrls allResults].
    - constructor.
    - intros k Hk. by apply elem_of_nil in Hk.
  Qed.

End CollectFacts.

Lemma find_stub (stubs : list RawParcelRecord) (id : string) :
  (∃ r, r ∈ stubs ∧ parcel_id r = id) →
  ∃ stub, find (λ r, eqs (parcel_id r) id) stubs = Some stub
          ∧ stub ∈ stubs ∧ parcel_id stub = id.
Proof.
  intros (r & Hr & E).
  destruct (find (λ r, eqs (parcel_id r) id) stubs) as [stub|] eqn:Hfind.
  - apply find_some in Hfind as [Hin Heq]. exists stub.
    split; [done|]. split; [by apply list_elem_of_In|]. by apply eqs_true.
  - exfalso. apply list_elem_of_In in Hr.
    pose proof (find_none _ _ Hfind r Hr) as Hno.
    cbn beta in Hno. apply eqs_false in Hno. done.
Qed.

Section ExtractFacts.

Variable dateFromString : string → Date.
Variable fetch : string → string → Settled.
Variable dateRange : DateRange.
Variable stubs : list RawParcelRecord.

Lemma processBatch_fold (batch : list (string * string)) (acc : Enrichment) :
    processBatch dateFromString fetch dateRange stubs acc batch
    = fold_left (λ acc entry,
                   reconcile dateFromString dateRange stubs acc entry
                             (fetch (fst entry) (snd entry)))
                batch acc.
  Proof.
    unfold processBatch. revert acc.
    induction batch as [|entry batch IH]; intros acc; [done|].
    cbn [map zip_with fold_left fst snd]. apply IH.
  Qed.

Lemma reconcile_fold (entries : list (string * string)) (acc : Enrichment) :
    let result :=
      fold_left (λ acc entry,
                   reconcile dateFromString dateRange stubs acc entry
                             (fetch (fst entry) (snd entry)))
                entries acc in
    enrichedRecords result = enrichedRecords acc ++ concat (map (emits dateFromString fetch dateRange stubs) entries)
    ∧ parcelDetails result = parcelDetails acc ++ concat (map (fetched fetch) entries).
  Proof.
    revert acc. induction entries as [|entry entries IH]; intros acc.
    - cbn [fold_left map concat]. by rewrite !app_nil_r.
    - cbn [fold_left map concat].
      destruct (IH (reconcile dateFromString dateRange stubs acc entry
                      (fetch (fst entry) (snd entry)))) as [He Hd].
      cbv zeta in He, Hd. cbv zeta. rewrite He, Hd.
      unfold reconcile. cbn [enrichedRecords parcelDetails].
      rewrite <- !app_assoc. split; [done|].
      unfold fetched at 2.
      destruct (fetch entry.1 entry.2) as [[?|]|]; [by rewrite <- app_assoc|done|done].
  Qed.

Lemma enrichment_batches (size : positive) (entries : list (string * string)) :
    let result :=
      fold_left (processBatch dateFromString fetch dateRange stubs)
                (batches size entries)
                {| parcelDetails := []; enrichedRecords := [] |} in
    enrichedRecords result = concat (map (emits dateFromString fetch dateRange stubs) entries)
    ∧ parcelDetails result = concat (map (fetched fetch) entries).
  Proof.
    cbv zeta.
    replace (fold_left (processBatch dateFromString fetch dateRange stubs)
                       (batches size entries)
                       {| parcelDetails := []; enrichedRecords := [] |})
      with (fold_left (λ acc entry,
                         reconcile dateFromString dateRange stubs acc entry
                                   (fetch (fst entry) (snd entry)))
                      entries {| parcelDetails := []; enrichedRecords := [] |}).
    - apply (reconcile_fold entries {| parcelDetails := []; enrichedRecords := [] |}).
    - rewrite <- (batches_concat size entries) at 1.
      rewrite <- fold_left_concat.
      generalize (batches size entries) as bs.
      generalize {| parcelDetails := []; enrichedRecords := [] |} as acc.
      intros acc bs. revert acc. induction bs as [|b bs IH]; intros acc; [done|].
      cbn [fold_left]. by rewrite IH, processBatch_fold.
  Qed.

  (** the records emitted for one settled fetch, case by case *)
Lemma emitted_cases (id : string) (result : Settled) (stub : RawParcelRecord) :
    find (λ r, eqs (parcel_id r) id) stubs = Some stub →
    match result with
    | Fulfilled (Some details) =>
        (pd_sales details ≠ [] →
         emitted dateFromString dateRange stubs id result
         = map (parcelDetailsToRawRecord details)
               (salesInRange dateFromString dateRange details))
        ∧ (pd_sales details = [] →
           emitted dateFromString dateRange stubs id result
           = [withSourceUrl stub (pd_source_url details)])
    | _ => emitted dateFromString dateRange stubs id result = [stub]
    end.
  Proof.
    intros Hfind. destruct result as [[details|]|error]; cbn [emitted].
    - split.
      + intros Hne. rewrite bool_decide_eq_true_2; [done|].
        destruct (pd_sales details); [done|]. cbn [length]. lia.
      + intros ->. rewrite bool_decide_eq_false_2 by (cbn [length]; lia).
        by rewrite Hfind.
    - by rewrite Hfind.
    - by rewrite Hfind.
  Qed.

End ExtractFacts.

(** C1, as the code has it.  Every parcel of the URL map has a stub among
    the collected rows, the first row with its parcel id.  For each parcel,
    in the order of the map: when the fetch gave details with sales, one
    enriched record is emitted per sale inside the date range, carrying that
    sale's date, price, instrument and qualification, and nothing is emitted
    when none of the sales is inside the range; when the details have no
    sale at all, the stub is emitted with [source_url] replaced by that of
    the details; when the fetch was rejected or gave null, the stub is
    emitted unchanged.  The records returned are the enriched ones if there
    are any, and the collected stubs otherwise. *)
Theorem extract_reconciles
    (dateFromString : string → Date) (fetch : string → string → Settled)
    (config : ExtractorConfig) (dateRange : DateRange)
    (firstPage : list SearchResultRow) (nextPages : list (list SearchResultRow)) :
  let collected := collectPages (countyCode config) (firstPage :: nextPages) in
  let result := extract dateFromString fetch config dateRange firstPage nextPages in
  let emit := emits dateFromString fetch dateRange (allResults collected) in
  let enriched := concat (map emit (parcelUrls collected)) in
  allResults collected
  = map (λ row, searchResultToRawRecord row (countyCode config))
        (concat (firstPage :: nextPages))
  ∧ NoDup (parcelUrls collected).*1
  ∧ (∀ parcelId url,
       (parcelId, url) ∈ parcelUrls collected →
       ∃ stub,
         find (λ r, eqs (parcel_id r) parcelId) (allResults collected) = Some stub
         ∧ stub ∈ allResults collected ∧ parcel_id stub = parcelId
         ∧ match fetch parcelId url with
           | Fulfilled (Some details) =>
               (pd_sales details ≠ [] →
                emit (parcelId, url)
                = map (parcelDetailsToRawRecord details)
                      (salesInRange dateFromString dateRange details)
                ∧ (salesInRange dateFromString dateRange details = [] →
                   emit (parcelId, url) = []))
               ∧ (pd_sales details = [] →
                  emit (parcelId, url) = [withSourceUrl stub (pd_source_url details)])
           | _ => emit (parcelId, url) = [stub]
           end)
  ∧ (∀ details sale,
       sale_date (parcelDetailsToRawRecord details sale) = sr_sale_date sale
       ∧ sale_price (parcelDetailsToRawRecord details sale) = sr_sale_price sale
       ∧ deed_instrument (parcelDetailsToRawRecord details sale) = sr_deed_instrument sale
       ∧ qualified_sale (parcelDetailsToRawRecord details sale) = sr_qualified_sale sale)
  ∧ rawRecords result = (if bool_decide (enriched ≠ []) then enriched
                         else allResults collected)
  ∧ res_parcelDetails result
    = concat (map (fetched fetch) (parcelUrls collected))
  ∧ totalParcels result = length (parcelUrls collected)
  ∧ totalPages result = S (length nextPages).
Proof.
  intros collected result emit enriched.
  destruct (collectPages_mapped (countyCode config) (firstPage :: nextPages))
    as [Hnd Hkeys]. fold collected in Hnd, Hkeys.
  destruct (enrichment_batches dateFromString fetch dateRange (allResults collected)
              (concurrency config) (parcelUrls collected)) as [He Hd].
  cbv zeta in He, Hd.
  split.
  { unfold collected. rewrite collectPages_rows, collect_rows. done. }
  split; [exact Hnd|]. split.
  { intros parcelId url Hin.
    destruct (find_stub (allResults collected) parcelId) as (stub & Hfind & Hstub & Hid).
    { apply Hkeys. by apply key_elem with url. }
    exists stub. split; [done|]. split; [done|]. split; [done|].
    pose proof (emitted_cases dateFromString dateRange (allResults collected)
                  parcelId (fetch parcelId url) stub Hfind) as Hcases.
    unfold emit, emits. cbn [fst snd].
    destruct (fetch parcelId url) as [[details|]|error]; [|done|done].
    destruct Hcases as [Hsome Hnone]. split; [|done].
    intros Hne. split; [by apply Hsome|]. intros Hout. by rewrite Hsome, Hout. }
  split; [done|].
  unfold result, extract. cbv zeta.
  cbn [rawRecords res_parcelDetails totalParcels totalPages].
  fold collected. rewrite He, Hd. fold emit. fold enriched.
  split; [|done].
  destruct enriched as [|r rs].
  - rewrite bool_decide_eq_false_2 by (cbn [length]; lia).
    by rewrite bool_decide_eq_false_2 by (by intros H).
  - rewrite bool_decide_eq_true_2 by (cbn [length]; lia).
    by rewrite bool_decide_eq_true_2.
Qed.

(** A page of two rows: the first parcel is enriched from its sale of
    8 January 2025, the second falls back to its stub. *)
Lemma extract_reconciles_witness :
  map sale_price
      (rawRecords (extract dateFromISO sampleFetch sampleConfig sampleWeek
                     [ sampleRow "067 053.08 000" "./Parcel/Details?parcelId=1";
                       sampleRow "067 054.00 000" "./Parcel/Details?parcelId=2" ] []))
  = ["$250,000"; ""].
Proof.
  destruct (extract_reconciles dateFromISO sampleFetch sampleConfig sampleWeek
              [ sampleRow "067 053.08 000" "./Parcel/Details?parcelId=1";
                sampleRow "067 054.00 000" "./Parcel/Details?parcelId=2" ] [])
    as (_ & _ & _ & _ & Hraw & _).
  rewrite Hraw. vm_compute. reflexivity.
Defined.

(** The chain of three cases does not describe the code: details whose
    only sale is older than the range make the chain fall through to the
    unchanged stub, while the code emits nothing for that parcel. *)
Lemma emitted_not_as_announced :
  ¬ (∀ (dateFromString : string → Date) (dateRange : DateRange)
       (stubs : list RawParcelRecord) (parcelId : string) (result : Settled),
       emitted dateFromString dateRange stubs parcelId result
       = emittedAsAnnounced dateFromString dateRange stubs parcelId result).
Proof.
  intros H.
  specialize (H dateFromISO sampleWeek
                [ searchResultToRawRecord
                    (sampleRow "067 053.08 000" "./Parcel/Details?parcelId=1") "084" ]
                "067 053.08 000"
                (Fulfilled (Some (sampleDetails "067 053.08 000"
                                    [ sampleSaleRecord "3/15/2019" "$100,000" ])))).
  vm_compute in H. discriminate H.
Qed.

(** * Further properties *)

(** ** Letter case and white space *)

Lemma toLower_toUpper (c : ascii) : toLower (toUpper c) = toLower c.
Proof. by destruct c as [[] [] [] [] [] [] [] []]. Qed.

Lemma toUpper_toLower (c : ascii) : toUpper (toLower c) = toUpper c.
Proof. by destruct c as [[] [] [] [] [] [] [] []]. Qed.

Lemma toLower_toLower (c : ascii) : toLower (toLower c) = toLower c.
Proof. by destruct c as [[] [] [] [] [] [] [] []]. Qed.

Lemma toUpper_toUpper (c : ascii) : toUpper (toUpper c) = toUpper c.
Proof. by destruct c as [[] [] [] [] [] [] [] []]. Qed.

Lemma isSpace_toUpper (c : ascii) : isSpace (toUpper c) = isSpace c.
Proof. by destruct c as [[] [] [] [] [] [] [] []]. Qed.

Lemma isSpace_toLower (c : ascii) : isSpace (toLower c) = isSpace c.
Proof. by destruct c as [[] [] [] [] [] [] [] []]. Qed.

Lemma smap_smap (f g : ascii → ascii) (s : string) :
  smap f (smap g s) = smap (λ c, f (g c)) s.
Proof. induction s as [|c s IH]; [done|]. cbn [smap]. by rewrite IH. Qed.

Lemma smap_ext (f g : ascii → ascii) (s : string) :
  (∀ c, f c = g c) → smap f s = smap g s.
Proof. intros H. induction s as [|c s IH]; [done|]. cbn [smap]. by rewrite H, IH. Qed.

Lemma smap_empty (f : ascii → ascii) (s : string) : smap f s = "" ↔ s = "".
Proof. by destruct s. Qed.

Lemma truthy_smap (f : ascii → ascii) (s : string) : truthy (smap f s) = truthy s.
Proof. by destruct s. Qed.

Lemma toLowerCase_toUpperCase (s : string) :
  toLowerCase (toUpperCase s) = toLowerCase s.
Proof.
  unfold toLowerCase, toUpperCase. rewrite smap_smap.
  apply smap_ext, toLower_toUpper.
Qed.

Lemma toUpperCase_toLowerCase (s : string) :
  toUpperCase (toLowerCase s) = toUpperCase s.
Proof.
  unfold toLowerCase, toUpperCase. rewrite smap_smap.
  apply smap_ext, toUpper_toLower.
Qed.

Lemma toLowerCase_idempotent (s : string) :
  toLowerCase (toLowerCase s) = toLowerCase s.
Proof.
  unfold toLowerCase. rewrite smap_smap. apply smap_ext, toLower_toLower.
Qed.

Lemma toUpperCase_idempotent (s : string) :
  toUpperCase (toUpperCase s) = toUpperCase s.
Proof.
  unfold toUpperCase. rewrite smap_smap. apply smap_ext, toUpper_toUpper.
Qed.

Section TrimMap.

Variable f : ascii → ascii.
Hypothesis f_space : ∀ c, isSpace (f c) = isSpace c.

Lemma trimStart_smap (s : string) : trimStart (smap f s) = smap f (trimStart s).
Proof.
  induction s as [|c s IH]; [done|]. cbn [smap trimStart].
  rewrite f_space. by destruct (isSpace c).
Qed.

Lemma trimEnd_smap (s : string) : trimEnd (smap f s) = smap f (trimEnd s).
Proof.
  induction s as [|c s IH]; [done|]. cbn [smap trimEnd].
  rewrite f_space, IH.
  replace (eqs (smap f (trimEnd s)) "") with (eqs (trimEnd s) "")
    by (by destruct (trimEnd s)).
  by destruct (isSpace c && eqs (trimEnd s) "").
Qed.

Lemma trim_smap (s : string) : trim (smap f s) = smap f (trim s).
Proof. unfold trim. by rewrite trimStart_smap, trimEnd_smap. Qed.

End TrimMap.

Lemma trim_toLowerCase (s : string) : trim (toLowerCase s) = toLowerCase (trim s).
Proof. apply trim_smap, isSpace_toLower. Qed.

Lemma trim_toUpperCase (s : string) : trim (toUpperCase s) = toUpperCase (trim s).
Proof. apply trim_smap, isSpace_toUpper. Qed.

(** ** The instrument denylist *)

(** X1.  [isDeniedInstrument] never denies the empty instrument, nor
    anything against the empty denylist; it does not depend on the letter
    case of the instrument nor on that of the denied terms; and a denylist
    made of two lists denies what either of them denies. *)
Theorem isDeniedInstrument_case_insensitive (instrument : string) (denylist more : list string) :
  isDeniedInstrument "" denylist = false
  ∧ isDeniedInstrument instrument [] = false
  ∧ isDeniedInstrument (toUpperCase instrument) denylist
    = isDeniedInstrument instrument denylist
  ∧ isDeniedInstrument (toLowerCase instrument) denylist
    = isDeniedInstrument instrument denylist
  ∧ isDeniedInstrument instrument (map toUpperCase denylist)
    = isDeniedInstrument instrument denylist
  ∧ isDeniedInstrument instrument (denylist ++ more)
    = isDeniedInstrument instrument denylist || isDeniedInstrument instrument more.
Proof.
  unfold isDeniedInstrument.
  split; [done|]. split; [by destruct (truthy instrument)|].
  split; [by rewrite toLowerCase_toUpperCase; unfold toUpperCase; rewrite truthy_smap|].
  split; [by rewrite toLowerCase_idempotent; unfold toLowerCase at 1; rewrite truthy_smap|].
  split.
  - destruct (negb (truthy instrument)); [done|].
    induction denylist as [|term denylist IH]; [done|].
    cbn [map existsb]. by rewrite IH, toLowerCase_toUpperCase.
  - destruct (negb (truthy instrument)); [done|]. apply existsb_app.
Qed.

(** ** The two arms-length checks *)

(** X2.  A record that [filterRecords] lets pass is residential by
    [isResidential] and arms-length by [isLikelyArmsLength]: its price is
    not below the minimum, its instrument is not denied and its
    qualified-sale flag is not negative. *)
Theorem passed_is_residential_arms_length
    (config : ExtractorConfig) (dateRange : DateRange) (record : RawParcelRecord) :
  rejection config dateRange record = None →
  isResidential record = true
  ∧ isLikelyArmsLength record config = true
  ∧ lt (parseSalePrice (sale_price record)) (minSalePrice config) = false
  ∧ isDeniedInstrument (deed_instrument record) (instrumentDenylist config) = false.
Proof.
  rewrite rejection_firstFailure, firstFailure_None. unfold checks.
  intros H. repeat (apply Forall_cons in H as [? H]). cbn [fst] in *.
  assert (isResidential record = true) as Hres.
  { unfold notResidential in *. by destruct (isResidential record). }
  split; [exact Hres|]. unfold priceTooLow, instrumentDenied in *.
  split; [|done].
  unfold isLikelyArmsLength.
  match goal with H : lt _ _ = false |- _ => rewrite H end.
  match goal with H : isDeniedInstrument _ _ = false |- _ => rewrite H end.
  unfold qualifiedNegative in *.
  destruct (truthy (qualified_sale record)); [|done]. cbn [andb] in *.
  rewrite trim_toLowerCase in *.
  destruct (eqs (toLowerCase (qualified_sale record)) "n") eqn:E1.
  { apply eqs_true in E1. rewrite <- trim_toLowerCase, E1 in *. done. }
  destruct (eqs (toLowerCase (qualified_sale record)) "no") eqn:E2.
  { apply eqs_true in E2. rewrite <- trim_toLowerCase, E2 in *. done. }
  destruct (eqs (toLowerCase (qualified_sale record)) "false") eqn:E3.
  { apply eqs_true in E3. rewrite <- trim_toLowerCase, E3 in *. done. }
  done.
Qed.

(** The valid sale of the sample scenario. *)
Lemma passed_is_residential_arms_length_witness :
  isLikelyArmsLength (sampleRecord "01/08/2025" "$250,000" "Warranty Deed") sampleConfig
  = true.
Proof.
  apply (passed_is_residential_arms_length sampleConfig sampleWeek
           (sampleRecord "01/08/2025" "$250,000" "Warranty Deed")).
  vm_compute. reflexivity.
Defined.

(** X3.  [filterRecords] loses no record and invents none: the records
    passed and the records filtered are each taken from the input in its
    order, and together they are the input up to order. *)
Theorem filterRecords_partition
    (records : list RawParcelRecord) (config : ExtractorConfig) (dateRange : DateRange) :
  let result := filterRecords records config dateRange in
  sublist (passed result) records
  ∧ sublist (filtered result) records
  ∧ passed result ++ filtered result ≡ₚ records
  ∧ (length (passed result) + length (filtered result) = length records)%nat
  ∧ (∀ r, r ∈ passed result → rejection config dateRange r = None)
  ∧ (∀ r, r ∈ filtered result → rejection config dateRange r ≠ None).
Proof.
  intros result.
  destruct (filter_loop config dateRange records
              {| passed := []; filtered := []; reasons := noReasons |})
    as (Hp & Hf & _). cbn [app passed filtered] in Hp, Hf.
  fold (filterRecords records config dateRange) in Hp, Hf. fold result in Hp, Hf.
  rewrite Hp, Hf.
  assert (filter (λ r, firstFailure config dateRange r = None) records
          ++ filter (λ r, firstFailure config dateRange r ≠ None) records
          ≡ₚ records) as Hperm by apply filter_app_complement.
  split; [apply sublist_filter|]. split; [apply sublist_filter|].
  split; [exact Hperm|]. split.
  - rewrite <- length_app. by rewrite Hperm.
  - split; intros r Hr%list_elem_of_filter; rewrite rejection_firstFailure; apply Hr.
Qed.

(** Of a sale that passes and a quitclaim, the first is among the records
    passed, and so has no reason for rejection. *)
Lemma filterRecords_partition_witness :
  rejection sampleConfig sampleWeek (sampleRecord "01/08/2025" "$250,000" "Warranty Deed")
  = None.
Proof.
  apply (proj1 (proj2 (proj2 (proj2 (proj2
           (filterRecords_partition
              [ sampleRecord "01/08/2025" "$250,000" "Warranty Deed";
                sampleRecord "01/08/2025" "$250,000" "Quitclaim Deed" ]
              sampleConfig sampleWeek)))))).
  assert (passed (filterRecords
                    [ sampleRecord "01/08/2025" "$250,000" "Warranty Deed";
                      sampleRecord "01/08/2025" "$250,000" "Quitclaim Deed" ]
                    sampleConfig sampleWeek)
          = [sampleRecord "01/08/2025" "$250,000" "Warranty Deed"]) as ->
    by (vm_compute; reflexivity).
  left.
Defined.

(** ** Raw and cleaned deduplication *)

Lemma notin_add (k x : string) (seen : gset string) :
  x ∉ {[k]} ∪ seen ↔ x ≠ k ∧ x ∉ seen.
Proof.
  rewrite elem_of_union, elem_of_singleton. split.
  - intros H. split; intros H'; apply H; [by left|by right].
  - intros [H1 H2] [H|H]; [by apply H1|by apply H2].
Qed.

Section RawDedupe.

Variable numberToString : number → string.

Lemma dedupeRawFrom_spec (records : list RawParcelRecord) (seen : gset string) :
  let kept := dedupeRawFrom numberToString seen records in
  sublist kept records
  ∧ NoDup (generateSaleKey numberToString <$> kept)
  ∧ (∀ r, r ∈ kept → generateSaleKey numberToString r ∉ seen)
  ∧ (∀ r, r ∈ records →
       generateSaleKey numberToString r ∈ seen
       ∨ ∃ r', r' ∈ kept
               ∧ generateSaleKey numberToString r' = generateSaleKey numberToString r)
  ∧ (∀ r, r ∈ kept →
       find (λ x, eqs (generateSaleKey numberToString x)
                      (generateSaleKey numberToString r)) records = Some r).
Proof.
  revert seen. induction records as [|x rest IH]; intros seen; cbn [dedupeRawFrom].
  - cbv zeta. split; [done|]. split; [constructor|].
    split; [by intros r Hr%elem_of_nil|]. split; by intros r Hr%elem_of_nil.
  - case_bool_decide as Hx.
    + destruct (IH seen) as (Hsub & Hnd & Hout & Hall & Hfirst). cbv zeta in *.
      split; [by apply sublist_cons|]. split; [done|]. split; [done|]. split.
      * intros r [->|Hr]%elem_of_cons; [by left|by apply Hall].
      * intros r Hr. cbn [find]. rewrite (proj2 (eqs_false _ _)); [by apply Hfirst|].
        intros E. apply (Hout r Hr). by rewrite <- E.
    + destruct (IH ({[generateSaleKey numberToString x]} ∪ seen))
        as (Hsub & Hnd & Hout & Hall & Hfirst). cbv zeta in *.
      split; [by apply sublist_skip|]. split.
      { rewrite fmap_cons. apply NoDup_cons. split; [|done].
        intros (r & E & Hr)%list_elem_of_fmap.
        destruct (proj1 (notin_add _ _ _) (Hout r Hr)) as [Hne _]. by apply Hne. }
      split.
      { intros r [->|Hr]%elem_of_cons; [done|].
        by destruct (proj1 (notin_add _ _ _) (Hout r Hr)). }
      split.
      * intros r [->|Hr]%elem_of_cons.
        -- right. exists x. split; [left|done].
        -- destruct (Hall r Hr) as [Hin|(r' & Hr' & E)].
           ++ apply elem_of_union in Hin as [Hin|Hin]; [|by left].
              apply elem_of_singleton in Hin. right. exists x. split; [left|done].
           ++ right. exists r'. split; [by right|done].
      * intros r [->|Hr]%elem_of_cons; cbn [find].
        -- by rewrite (proj2 (eqs_true _ _)).
        -- rewrite (proj2 (eqs_false _ _)); [by apply Hfirst|].
           intros E. destruct (proj1 (notin_add _ _ _) (Hout r Hr)) as [Hne _].
           by apply Hne.
Qed.

Lemma dedupeRawFrom_idempotent (records : list RawParcelRecord) (seen : gset string) :
  dedupeRawFrom numberToString seen (dedupeRawFrom numberToString seen records)
  = dedupeRawFrom numberToString seen records.
Proof.
  revert seen. induction records as [|x rest IH]; intros seen; [done|].
  cbn [dedupeRawFrom].
  destruct (bool_decide (generateSaleKey numberToString x ∈ seen)) eqn:Hx.
  - apply IH.
  - cbn [dedupeRawFrom]. rewrite Hx. f_equal. apply IH.
Qed.

Lemma dedupeCleanedFrom_spec (sales : list CleanedSale)
    (seenByKey seenByAddress : gset string) :
  let kept := dedupeCleanedFrom numberToString seenByKey seenByAddress sales in
  NoDup (generateCleanedSaleKey numberToString <$> kept)
  ∧ NoDup (generateAddressKey numberToString <$> kept)
  ∧ (∀ s, s ∈ kept →
       (generateCleanedSaleKey numberToString s ∉ seenByKey)
       ∧ (generateAddressKey numberToString s ∉ seenByAddress))
  ∧ (∀ s, s ∈ sales →
       generateCleanedSaleKey numberToString s ∈ seenByKey
       ∨ generateAddressKey numberToString s ∈ seenByAddress
       ∨ ∃ s', s' ∈ kept
               ∧ (generateCleanedSaleKey numberToString s'
                  = generateCleanedSaleKey numberToString s
                  ∨ generateAddressKey numberToString s'
                    = generateAddressKey numberToString s)).
Proof.
  revert seenByKey seenByAddress.
  induction sales as [|x rest IH]; intros seenByKey seenByAddress;
    cbn [dedupeCleanedFrom].
  - cbv zeta. split; [constructor|]. split; [constructor|].
    split; by intros s Hs%elem_of_nil.
  - destruct (bool_decide (generateCleanedSaleKey numberToString x ∈ seenByKey)
              || bool_decide (generateAddressKey numberToString x ∈ seenByAddress))
      eqn:Hx.
    + destruct (IH seenByKey seenByAddress) as (Hnd1 & Hnd2 & Hout & Hall).
      cbv zeta in *. split; [done|]. split; [done|]. split; [done|].
      intros s [->|Hs]%elem_of_cons; [|by apply Hall].
      apply orb_true_iff in Hx as [Hx%bool_decide_eq_true|Hx%bool_decide_eq_true];
        [by left|right; by left].
    + apply orb_false_iff in Hx as [Hk%bool_decide_eq_false Ha%bool_decide_eq_false].
      destruct (IH ({[generateCleanedSaleKey numberToString x]} ∪ seenByKey)
                   ({[generateAddressKey numberToString x]} ∪ seenByAddress))
        as (Hnd1 & Hnd2 & Hout & Hall).
      cbv zeta in *. split.
      { rewrite fmap_cons. apply NoDup_cons. split; [|done].
        intros (s & E & Hs)%list_elem_of_fmap. destruct (Hout s Hs) as [H1 _].
        destruct (proj1 (notin_add _ _ _) H1) as [Hne _]. by apply Hne. }
      split.
      { rewrite fmap_cons. apply NoDup_cons. split; [|done].
        intros (s & E & Hs)%list_elem_of_fmap. destruct (Hout s Hs) as [_ H2].
        destruct (proj1 (notin_add _ _ _) H2) as [Hne _]. by apply Hne. }
      split.
      { intros s [->|Hs]%elem_of_cons; [done|].
        destruct (Hout s Hs) as [H1 H2].
        split; [by destruct (proj1 (notin_add _ _ _) H1)|by destruct (proj1 (notin_add _ _ _) H2)]. }
      intros s [->|Hs]%elem_of_cons.
      * right. right. exists x. split; [left|by left].
      * destruct (Hall s Hs) as [Hin|[Hin|(s' & Hs' & E)]].
        -- apply elem_of_union in Hin as [Hin%elem_of_singleton|Hin]; [|by left].
           right. right. exists x. split; [left|by left].
        -- apply elem_of_union in Hin as [Hin%elem_of_singleton|Hin]; [|right; by left].
           right. right. exists x. split; [left|by right].
        -- right. right. exists s'. split; [by right|done].
Qed.

End RawDedupe.

(** X4.  The key of [deduplicateRawRecords] is the parcel id with its white
    space normalised, the parsed sale date and the parsed sale price, with
    bars between them.  The function keeps a sub-sequence of its input in
    which no two records have the same key, so no two agree on normalised
    parcel id, parsed date and parsed price; every input record has a kept
    record with its key, and the kept one is the first input record with
    that key; a second pass changes nothing. *)
Theorem deduplicateRawRecords_first_wins
    (numberToString : number → string) (records : list RawParcelRecord) :
  let key := λ r, normalizeParcelId (parcel_id r)
                  +:+ "|" +:+ parseSaleDate (sale_date r)
                  +:+ "|" +:+ numberToString (parseSalePrice (sale_price r)) in
  let kept := deduplicateRawRecords numberToString records in
  (∀ r, generateSaleKey numberToString r = key r)
  ∧ sublist kept records
  ∧ NoDup (key <$> kept)
  ∧ (∀ (i j : nat) r r',
       kept !! i = Some r → kept !! j = Some r' →
       normalizeParcelId (parcel_id r) = normalizeParcelId (parcel_id r') →
       parseSaleDate (sale_date r) = parseSaleDate (sale_date r') →
       parseSalePrice (sale_price r) = parseSalePrice (sale_price r') →
       i = j)
  ∧ (∀ r, r ∈ records → ∃ r', r' ∈ kept ∧ key r' = key r)
  ∧ (∀ r, r ∈ kept → find (λ x, eqs (key x) (key r)) records = Some r)
  ∧ deduplicateRawRecords numberToString kept = kept.
Proof.
  intros key kept.
  destruct (dedupeRawFrom_spec numberToString records ∅)
    as (Hsub & Hnd & _ & Hall & Hfirst). cbv zeta in *.
  split; [done|]. split; [done|]. split; [done|]. split; [|split].
  - intros i j r r' Hi Hj Hid Hdate Hprice.
    apply (NoDup_lookup (key <$> kept) i j (key r)); [done| |].
    + by rewrite list_lookup_fmap, Hi.
    + rewrite list_lookup_fmap, Hj. unfold key. by rewrite Hid, Hdate, Hprice.
  - intros r Hr. destruct (Hall r Hr) as [Hin|?]; [|done]. by apply elem_of_empty in Hin.
  - split; [done|]. apply dedupeRawFrom_idempotent.
Qed.

(** Two records of one parcel, date and price, the parcel id spaced as in
    the two spellings that TPAD uses, the date and the price written
    differently: only the first is kept, and it is the first record of the
    input with the key of the second. *)
Lemma deduplicateRawRecords_first_wins_witness :
  find (λ x, eqs (generateSaleKey renderNumber x)
                 (generateSaleKey renderNumber
                    (sampleRecordOf "067 05308 000" "2025-01-08" "250000")))
       [ sampleRecordOf "067    05308 000" "01/08/2025" "$250,000";
         sampleRecordOf "067 05308 000" "2025-01-08" "250000" ]
  = Some (sampleRecordOf "067    05308 000" "01/08/2025" "$250,000").
Proof.
  assert (generateSaleKey renderNumber
            (sampleRecordOf "067 05308 000" "2025-01-08" "250000")
          = generateSaleKey renderNumber
              (sampleRecordOf "067    05308 000" "01/08/2025" "$250,000")) as ->
    by (vm_compute; reflexivity).
  apply (proj1 (proj2 (proj2 (proj2 (proj2 (proj2
           (deduplicateRawRecords_first_wins renderNumber
              [ sampleRecordOf "067    05308 000" "01/08/2025" "$250,000";
                sampleRecordOf "067 05308 000" "2025-01-08" "250000" ]))))))).
  assert (deduplicateRawRecords renderNumber
            [ sampleRecordOf "067    05308 000" "01/08/2025" "$250,000";
              sampleRecordOf "067 05308 000" "2025-01-08" "250000" ]
          = [sampleRecordOf "067    05308 000" "01/08/2025" "$250,000"]) as ->
    by (vm_compute; reflexivity).
  left.
Defined.

(** X5.  [deduplicateCleanedSales] keeps a sub-sequence of its input in
    which no two sales have the same primary key and no two have the same
    address key; every input sale has a kept sale with which it shares one
    of the two keys. *)
Theorem deduplicateCleanedSales_distinct_keys
    (numberToString : number → string) (sales : list CleanedSale) :
  let kept := deduplicateCleanedSales numberToString sales in
  sublist kept sales
  ∧ NoDup (generateCleanedSaleKey numberToString <$> kept)
  ∧ NoDup (generateAddressKey numberToString <$> kept)
  ∧ (∀ s, s ∈ sales →
       ∃ s', s' ∈ kept
             ∧ (generateCleanedSaleKey numberToString s'
                = generateCleanedSaleKey numberToString s
                ∨ generateAddressKey numberToString s'
                  = generateAddressKey numberToString s)).
Proof.
  intros kept.
  destruct (dedupeCleanedFrom_spec numberToString sales ∅ ∅) as (Hnd1 & Hnd2 & _ & Hall).
  cbv zeta in *.
  split; [exact (dedupeCleanedFrom_sublist numberToString sales ∅ ∅)|].
  split; [done|]. split; [done|].
  intros s Hs. destruct (Hall s Hs) as [Hin|[Hin|?]]; [| |done];
    by apply elem_of_empty in Hin.
Qed.

(** Two sales of one parcel, date and price under different owners: the
    second has a kept sale with one of its keys. *)
Lemma deduplicateCleanedSales_distinct_keys_witness :
  ∃ s', s' ∈ deduplicateCleanedSales renderNumber
               [ sampleSale (Some "John Doe") "123 MAIN ST" 300000;
                 sampleSale (Some "Jane Roe") "123 MAIN ST" 300000 ]
        ∧ (generateCleanedSaleKey renderNumber s'
           = generateCleanedSaleKey renderNumber
               (sampleSale (Some "Jane Roe") "123 MAIN ST" 300000)
           ∨ generateAddressKey renderNumber s'
             = generateAddressKey renderNumber
                 (sampleSale (Some "Jane Roe") "123 MAIN ST" 300000)).
Proof.
  apply (proj2 (proj2 (proj2
           (deduplicateCleanedSales_distinct_keys renderNumber
              [ sampleSale (Some "John Doe") "123 MAIN ST" 300000;
                sampleSale (Some "Jane Roe") "123 MAIN ST" 300000 ])))).
  right. left.
Defined.

(** ** Normal forms of identifiers and addresses *)

Lemma collapseFrom_fixed (s : string) (afterSpace : bool) :
  singleSpacedFrom afterSpace s = true → collapseFrom afterSpace s = s.
Proof.
  revert afterSpace. induction s as [|c s IH]; intros afterSpace; [done|].
  cbn [singleSpacedFrom collapseFrom]. destruct (isSpace c).
  - intros [[Hc Ha%negb_true_iff]%andb_true_iff Hs]%andb_true_iff.
    apply bool_decide_eq_true in Hc. subst. by rewrite (IH true).
  - intros Hs. by rewrite (IH false).
Qed.

Lemma collapseFrom_singleSpaced (s : string) (afterSpace : bool) :
  singleSpacedFrom afterSpace (collapseFrom afterSpace s) = true.
Proof.
  revert afterSpace. induction s as [|c s IH]; intros afterSpace; [done|].
  cbn [collapseFrom]. destruct (isSpace c) eqn:Hc.
  - destruct afterSpace; [apply IH|]. cbn [singleSpacedFrom].
    change (isSpace " ") with true. cbn [negb andb]. rewrite bool_decide_eq_true_2 by done.
    apply IH.
  - cbn [singleSpacedFrom]. rewrite Hc. apply IH.
Qed.

Lemma trimEnd_fixed (s : string) : endsWithSpace s = false → trimEnd s = s.
Proof.
  induction s as [|c s IH]; [done|]. cbn [trimEnd endsWithSpace].
  destruct s as [|c' s].
  - intros ->. done.
  - intros H. rewrite (IH H). by rewrite andb_false_r.
Qed.

Lemma trimEnd_ends (s : string) : endsWithSpace (trimEnd s) = false.
Proof.
  induction s as [|c s IH]; [done|]. cbn [trimEnd].
  destruct (isSpace c && eqs (trimEnd s) "") eqn:E; [done|].
  cbn [endsWithSpace]. destruct (trimEnd s) as [|c' t]; [|done].
  by rewrite andb_true_r in E.
Qed.

Lemma trimStart_starts (s : string) : startsWithSpace (trimStart s) = false.
Proof.
  induction s as [|c s IH]; [done|]. cbn [trimStart].
  by destruct (isSpace c) eqn:Hc.
Qed.

Lemma trimEnd_starts (s : string) :
  startsWithSpace s = false → startsWithSpace (trimEnd s) = false.
Proof.
  destruct s as [|c s]; [done|]. cbn [startsWithSpace trimEnd].
  intros H. rewrite H. cbn [andb startsWithSpace]. exact H.
Qed.

Lemma trimStart_fixed (s : string) : startsWithSpace s = false → trimStart s = s.
Proof. destruct s as [|c s]; [done|]. cbn. by intros ->. Qed.

Lemma trim_clean (s : string) :
  startsWithSpace (trim s) = false ∧ endsWithSpace (trim s) = false.
Proof.
  unfold trim. split; [|apply trimEnd_ends].
  apply trimEnd_starts, trimStart_starts.
Qed.

Lemma trim_fixed (s : string) :
  startsWithSpace s = false → endsWithSpace s = false → trim s = s.
Proof.
  intros H1 H2. unfold trim. rewrite (trimStart_fixed _ H1). by apply trimEnd_fixed.
Qed.

Lemma collapseFrom_starts (s : string) :
  startsWithSpace s = false → startsWithSpace (collapseFrom false s) = false.
Proof.
  destruct s as [|c s]; [done|]. cbn [startsWithSpace collapseFrom].
  intros H. rewrite H. cbn [startsWithSpace]. exact H.
Qed.

Lemma collapseFrom_empty (s : string) (afterSpace : bool) :
  collapseFrom afterSpace s = "" → s = "" ∨ endsWithSpace s = true.
Proof.
  revert afterSpace. induction s as [|c s IH]; intros afterSpace; [by left|].
  cbn [collapseFrom]. destruct (isSpace c) eqn:Hc; [|done].
  destruct afterSpace; [|done]. intros [->|H]%IH; right.
  - exact Hc.
  - cbn [endsWithSpace]. by destruct s.
Qed.

Lemma collapseFrom_ends (s : string) (afterSpace : bool) :
  endsWithSpace s = false → endsWithSpace (collapseFrom afterSpace s) = false.
Proof.
  revert afterSpace. induction s as [|c s IH]; intros afterSpace; [done|].
  intros H.
  assert (s ≠ "" → endsWithSpace s = false) as Hs.
  { intros Hne. cbn [endsWithSpace] in H. by destruct s. }
  assert (∀ b, s ≠ "" → collapseFrom b s ≠ "") as Hne.
  { intros b Hn E. apply collapseFrom_empty in E as [E|E]; [done|].
    rewrite (Hs Hn) in E. done. }
  assert (∀ x b, s ≠ "" → endsWithSpace (String x (collapseFrom b s)) = false) as Hcons.
  { intros x b Hn. cbn [endsWithSpace]. specialize (Hne b Hn).
    destruct (collapseFrom b s) eqn:E; [done|]. rewrite <- E. apply IH. by apply Hs. }
  cbn [collapseFrom]. destruct (isSpace c) eqn:Hc.
  - destruct s as [|c' s]; [cbn in H; congruence|].
    destruct afterSpace; [apply IH; by apply Hs|]. by apply Hcons.
  - destruct s as [|c' s]; [cbn; exact Hc|]. by apply Hcons.
Qed.

Lemma tidy_collapse_trim (s : string) : tidy (collapseSpaces (trim s)).
Proof.
  destruct (trim_clean s) as [H1 H2]. unfold tidy, collapseSpaces.
  split; [by apply collapseFrom_starts|]. split; [by apply collapseFrom_ends|].
  apply collapseFrom_singleSpaced.
Qed.

Lemma tidy_fixed (s : string) : tidy s → collapseSpaces (trim s) = s.
Proof.
  intros (H1 & H2 & H3). rewrite (trim_fixed _ H1 H2). by apply collapseFrom_fixed.
Qed.

Lemma collapseFrom_smap (f : ascii → ascii) (s : string) (afterSpace : bool) :
  (∀ c, isSpace (f c) = isSpace c) → f " "%char = " "%char →
  collapseFrom afterSpace (smap f s) = smap f (collapseFrom afterSpace s).
Proof.
  intros Hf Hsp. revert afterSpace.
  induction s as [|c s IH]; intros afterSpace; [done|].
  cbn [smap collapseFrom]. rewrite Hf. destruct (isSpace c).
  - destruct afterSpace; [apply IH|]. cbn [smap]. by rewrite Hsp, IH.
  - cbn [smap]. by rewrite IH.
Qed.

Lemma tidy_smap (f : ascii → ascii) (s : string) :
  (∀ c, isSpace (f c) = isSpace c) → f " "%char = " "%char →
  tidy s → tidy (smap f s).
Proof.
  intros Hf Hsp Ht. pose proof (tidy_fixed s Ht) as E.
  rewrite <- E. unfold collapseSpaces.
  rewrite <- (collapseFrom_smap f _ _ Hf Hsp), <- (trim_smap f Hf).
  apply tidy_collapse_trim.
Qed.

(** X6.  [normalizeParcelId] returns a text without white space at either
    end and with single blanks inside; it leaves such a text as it is, so
    normalising twice is normalising once; and the two spacings of one
    parcel id that the source mentions normalise to the same text. *)
Theorem normalizeParcelId_normal_form (parcelId : string) :
  tidy (normalizeParcelId parcelId)
  ∧ (tidy parcelId → normalizeParcelId parcelId = parcelId)
  ∧ normalizeParcelId (normalizeParcelId parcelId) = normalizeParcelId parcelId
  ∧ normalizeParcelId "067    05308 000" = normalizeParcelId " 067 05308 000 "
  ∧ normalizeParcelId "067    05308 000" = normalizeParcelId "067 05308 000".
Proof.
  unfold normalizeParcelId.
  split; [apply tidy_collapse_trim|]. split; [apply tidy_fixed|].
  split; [apply tidy_fixed, tidy_collapse_trim|split; vm_compute; reflexivity].
Qed.

(** A parcel id already in normal form. *)
Lemma normalizeParcelId_normal_form_witness :
  tidy "067 05308 000" ∧ normalizeParcelId "067 05308 000" = "067 05308 000".
Proof.
  assert (tidy "067 05308 000") as H by (by repeat split).
  split; [exact H|]. by apply (proj1 (proj2 (normalizeParcelId_normal_form _))).
Defined.

(** X7.  [cleanAddress] returns a text in upper case, without white space
    at either end and with single blanks inside, and cleaning a cleaned
    address changes nothing. *)
Theorem cleanAddress_idempotent (address : string) :
  tidy (cleanAddress address)
  ∧ toUpperCase (cleanAddress address) = cleanAddress address
  ∧ cleanAddress (cleanAddress address) = cleanAddress address.
Proof.
  assert (tidy (cleanAddress address)) as Ht.
  { unfold cleanAddress. destruct (truthy address); [|by repeat split]. cbn [negb].
    apply tidy_smap; [apply isSpace_toUpper|done|apply tidy_collapse_trim]. }
  assert (toUpperCase (cleanAddress address) = cleanAddress address) as Hup.
  { unfold cleanAddress. destruct (truthy address); [|done]. cbn [negb].
    apply toUpperCase_idempotent. }
  split; [exact Ht|]. split; [exact Hup|].
  unfold cleanAddress at 1. destruct (truthy (cleanAddress address)) eqn:E; cbn [negb].
  - by rewrite (tidy_fixed _ Ht).
  - symmetry. by apply truthy_false.
Qed.

(** ** Keeping the best record per key *)

Section KeepBestFacts.

Context {V : Type}.
Variable key : V → string.
Variable better : V → V → bool.
Hypothesis better_irrefl : ∀ v, better v v = false.
Hypothesis better_chain :
  ∀ e s r, better s e = true → better r e = false → better r s = false.

Lemma keptBest_step (seen : list V) (m : JSMap V) (v : V) :
  keptBest key better seen m → keptBest key better (seen ++ [v]) (keepStep key better m v).
Proof.
  intros (Hnd & Hent & Hall). unfold keepStep.
  assert (∀ k s, (k, s) ∈ m → k ≠ key v →
                 key s = k ∧ s ∈ seen ++ [v]
                 ∧ ∀ r, r ∈ seen ++ [v] → key r = k → better r s = false) as Hold.
  { intros k s Hin Hne. destruct (Hent k s Hin) as (Hk & Hs & Hmax).
    split; [done|]. split; [apply elem_of_app; by left|].
    intros r [Hr| ->]%elem_snoc Hkey; [by apply Hmax|congruence]. }
  destruct (mapGet m (key v)) as [existing|] eqn:Hget.
  - pose proof (mapGet_Some_elem _ _ _ Hget) as Hex.
    destruct (Hent _ _ Hex) as (Hk & Hs & Hmax).
    destruct (better v existing) eqn:Hb.
    + split; [by apply mapSet_NoDup|]. split.
      * intros k s Hin. apply mapSet_elem in Hin as [[-> ->]|[Hnk Hin]]; [| |done].
        -- split; [done|]. split; [apply elem_of_app; right; by left|].
           intros r [Hr| ->]%elem_snoc Hkey; [|by apply better_irrefl].
           eapply better_chain; [exact Hb|]. by apply Hmax.
        -- by apply Hold.
      * intros r Hr. rewrite mapSet_keys.
        rewrite bool_decide_eq_true_2 by (by apply key_elem with existing).
        apply elem_snoc in Hr as [Hr| ->]; [by apply Hall|].
        by apply key_elem with existing.
    + split; [done|]. split.
      * intros k s Hin. destruct (decide (k = key v)) as [->|Hne]; [|by apply Hold].
        assert (s = existing) as ->.
        { pose proof (elem_mapGet _ _ _ Hnd Hin) as E. rewrite Hget in E.
          by injection E as <-. }
        split; [done|]. split; [apply elem_of_app; by left|].
        intros r [Hr| ->]%elem_snoc Hkey; [by apply Hmax|done].
      * intros r [Hr| ->]%elem_snoc; [by apply Hall|].
        by apply key_elem with existing.
  - apply mapGet_None in Hget.
    split; [by apply mapSet_NoDup|]. split.
    + intros k s Hin. apply mapSet_elem in Hin as [[-> ->]|[Hnk Hin]]; [| |done].
      * split; [done|]. split; [apply elem_of_app; right; by left|].
        intros r [Hr| ->]%elem_snoc Hkey; [|by apply better_irrefl].
        exfalso. apply Hget. rewrite <- Hkey. by apply Hall.
      * by apply Hold.
    + intros r Hr. rewrite mapSet_keys. rewrite bool_decide_eq_false_2 by done.
      apply elem_of_app. apply elem_snoc in Hr as [Hr| ->]; [left; by apply Hall|].
      right. left.
Qed.

Lemma keptBest_loop (vs seen : list V) (m : JSMap V) :
  keptBest key better seen m →
  keptBest key better (seen ++ vs) (fold_left (keepStep key better) vs m).
Proof.
  revert seen m. induction vs as [|v vs IH]; intros seen m H; cbn [fold_left].
  - by rewrite app_nil_r.
  - replace (seen ++ v :: vs) with ((seen ++ [v]) ++ vs) by (by rewrite <- app_assoc).
    apply IH. by apply keptBest_step.
Qed.

End KeepBestFacts.

Lemma strLt_irrefl (a : string) : strLt a a = false.
Proof.
  induction a as [|x a IH]; [done|]. cbn [strLt]. rewrite IH.
  rewrite Z.ltb_irrefl. by rewrite andb_false_r.
Qed.

Lemma strLt_trans (a b c : string) :
  strLt a b = true → strLt b c = true → strLt a c = true.
Proof.
  revert b c. induction a as [|x a IH]; intros [|y b] [|z c]; try done.
  cbn [strLt]. intros Hab Hbc.
  apply orb_true_iff in Hab as [Hab|[Hxy Hab]%andb_true_iff];
    apply orb_true_iff in Hbc as [Hbc|[Hyz Hbc]%andb_true_iff];
    apply orb_true_iff.
  - left. lia.
  - left. lia.
  - left. lia.
  - right. apply andb_true_iff. split; [lia|]. by apply (IH b c).
Qed.

(** X8.  [deduplicateByParcel] keeps one record per trimmed parcel id, taken
    from the input; no input record of the same parcel has a parsed sale
    date that is a greater text than that of the record kept; and every
    parcel of the input keeps a record. *)
Theorem deduplicateByParcel_keeps_latest (records : list RawParcelRecord) :
  let kept := deduplicateByParcel records in
  NoDup (parcelKey <$> kept)
  ∧ (∀ s, s ∈ kept →
       s ∈ records
       ∧ ∀ r, r ∈ records → parcelKey r = parcelKey s →
              strGt (parseSaleDate (sale_date r)) (parseSaleDate (sale_date s)) = false)
  ∧ (∀ r, r ∈ records → ∃ s, s ∈ kept ∧ parcelKey s = parcelKey r)
  ∧ (length kept ≤ length records)%nat.
Proof.
  intros kept.
  assert (keptBest parcelKey laterSale [] []) as H0.
  { split; [constructor|]. split; [by intros k s H%elem_of_nil|by intros r H%elem_of_nil]. }
  apply (keptBest_loop parcelKey laterSale) with (vs := records) in H0.
  2: { intros v. apply strLt_irrefl. }
  2: { intros e s r Hse Hre. unfold laterSale, strGt in *.
       destruct (strLt (parseSaleDate (sale_date s)) (parseSaleDate (sale_date r))) eqn:E;
         [|done].
       by rewrite (strLt_trans _ _ _ Hse E) in Hre. }
  cbn [app] in H0. destruct H0 as (Hnd & Hent & Hall).
  change (fold_left (keepStep parcelKey laterSale) records [])
    with (fold_left byParcelStep records []) in *.
  set (m := fold_left byParcelStep records []) in *.
  assert (parcelKey <$> kept = m.*1) as Hkeys.
  { unfold kept, deduplicateByParcel. fold m. apply keys_of_values.
    intros k s Hin. by destruct (Hent k s Hin) as (-> & _). }
  split; [by rewrite Hkeys|]. split; [|split].
  - intros s Hs. unfold kept, deduplicateByParcel, mapValues in Hs. fold m in Hs.
    apply list_elem_of_In, in_map_iff in Hs as ([k s'] & E & Hin%list_elem_of_In).
    cbn [snd] in E. subst s'. destruct (Hent k s Hin) as (Hk & Hin' & Hmax).
    split; [done|]. intros r Hr Hkey. apply Hmax; [done|congruence].
  - intros r Hr. specialize (Hall r Hr).
    apply list_elem_of_fmap in Hall as ([k s] & E & Hin). cbn [fst] in E. subst k.
    exists s. split.
    + unfold kept, deduplicateByParcel, mapValues. fold m.
      apply list_elem_of_In, in_map_iff. exists (parcelKey r, s).
      split; [done|]. by apply list_elem_of_In.
    + by destruct (Hent _ _ Hin) as (-> & _).
  - apply submseteq_length, NoDup_submseteq.
    + apply (NoDup_fmap_1 parcelKey). by rewrite Hkeys.
    + intros s Hs. unfold kept, deduplicateByParcel, mapValues in Hs. fold m in Hs.
      apply list_elem_of_In, in_map_iff in Hs as ([k s'] & E & Hin%list_elem_of_In).
      cbn [snd] in E. subst s'. by destruct (Hent k s Hin) as (_ & Hin' & _).
Qed.

(** Two sales of one parcel: the one kept is the later one, and the date of
    the earlier one is not the greater text. *)
Lemma deduplicateByParcel_keeps_latest_witness :
  strGt (parseSaleDate (sale_date (sampleRecord "12/30/2024" "$100,000" "Warranty Deed")))
        (parseSaleDate (sale_date (sampleRecord "01/08/2025" "$250,000" "Warranty Deed")))
  = false.
Proof.
  assert (sampleRecord "01/08/2025" "$250,000" "Warranty Deed"
          ∈ deduplicateByParcel
              [ sampleRecord "12/30/2024" "$100,000" "Warranty Deed";
                sampleRecord "01/08/2025" "$250,000" "Warranty Deed" ]) as Hin.
  { assert (deduplicateByParcel
              [ sampleRecord "12/30/2024" "$100,000" "Warranty Deed";
                sampleRecord "01/08/2025" "$250,000" "Warranty Deed" ]
            = [sampleRecord "01/08/2025" "$250,000" "Warranty Deed"]) as ->
      by (vm_compute; reflexivity).
    left. }
  destruct (proj1 (proj2 (deduplicateByParcel_keeps_latest
                            [ sampleRecord "12/30/2024" "$100,000" "Warranty Deed";
                              sampleRecord "01/08/2025" "$250,000" "Warranty Deed" ]))
              _ Hin) as (_ & Hmax).
  apply Hmax; [left|reflexivity].
Defined.

(** ** Dates for display *)

Lemma formatDisplayDate_iso (year month day : string) :
  digits year → digits month → digits day →
  String.length year = 4%nat → String.length month = 2%nat →
  String.length day = 2%nat →
  formatDisplayDate (year +:+ "-" +:+ month +:+ "-" +:+ day)
  = month +:+ "/" +:+ day +:+ "/" +:+ year.
Proof.
  unfold digits.
  destruct year as [|y1 [|y2 [|y3 [|y4 [|? ?]]]]]; try done.
  destruct month as [|m1 [|m2 [|? ?]]]; try done.
  destruct day as [|d1 [|d2 [|? ?]]]; try done.
  cbn [sall]. intros Hy Hm Hd _ _ _.
  repeat match goal with
         | H : _ && _ = true |- _ => apply andb_true_iff in H as [? H]
         end.
  cbv [String.append].
  unfold formatDisplayDate. cbn [truthy negb matchISOPrefix].
  repeat match goal with H : isDigit _ = true |- _ => rewrite H; clear H end.
  cbn [andb]. reflexivity.
Qed.

Lemma usDate_of_iso (year month day : string) :
  digits year → digits month → digits day →
  String.length year = 4%nat → String.length month = 2%nat →
  String.length day = 2%nat →
  parseSaleDate (month +:+ "/" +:+ day +:+ "/" +:+ year)
  = year +:+ "-" +:+ month +:+ "-" +:+ day.
Proof.
  intros Hy Hm Hd Ly Lm Ld.
  assert (usDate month day year (month +:+ "/" +:+ day +:+ "/" +:+ year)) as Hus.
  { repeat split; try done; lia. }
  apply matchUSDate_Some in Hus. unfold parseSaleDate. rewrite Hus.
  destruct (truthy _) eqn:Ht.
  - cbn [negb].
    destruct month as [|m1 [|m2 [|? ?]]]; try done.
    destruct day as [|d1 [|d2 [|? ?]]]; try done.
  - apply truthy_false in Ht. by destruct month.
Qed.

(** X9.  [formatDisplayDate] and [parseSaleDate] are inverse on well-formed
    dates: an ISO date YYYY-MM-DD is displayed as MM/DD/YYYY, which parses
    back to it; and a sale date of shape M/D/YYYY, once parsed, is displayed
    with month and day padded to two digits, which parses back to the same
    ISO date. *)
Theorem formatDisplayDate_round_trip :
  (∀ year month day,
      digits year → digits month → digits day →
      String.length year = 4%nat → String.length month = 2%nat →
      String.length day = 2%nat →
      formatDisplayDate (year +:+ "-" +:+ month +:+ "-" +:+ day)
      = month +:+ "/" +:+ day +:+ "/" +:+ year
      ∧ parseSaleDate (formatDisplayDate (year +:+ "-" +:+ month +:+ "-" +:+ day))
        = year +:+ "-" +:+ month +:+ "-" +:+ day)
  ∧ (∀ month day year s,
        usDate month day year s →
        formatDisplayDate (parseSaleDate s)
        = padStart2 month +:+ "/" +:+ padStart2 day +:+ "/" +:+ year
        ∧ parseSaleDate (formatDisplayDate (parseSaleDate s)) = parseSaleDate s).
Proof.
  assert (∀ year month day,
      digits year → digits month → digits day →
      String.length year = 4%nat → String.length month = 2%nat →
      String.length day = 2%nat →
      formatDisplayDate (year +:+ "-" +:+ month +:+ "-" +:+ day)
      = month +:+ "/" +:+ day +:+ "/" +:+ year
      ∧ parseSaleDate (formatDisplayDate (year +:+ "-" +:+ month +:+ "-" +:+ day))
        = year +:+ "-" +:+ month +:+ "-" +:+ day) as Hiso.
  { intros y m d Hy Hm Hd Ly Lm Ld.
    rewrite (formatDisplayDate_iso y m d) by done.
    split; [done|]. by apply usDate_of_iso. }
  split; [exact Hiso|].
  intros m d y s Hs. pose proof Hs as (Hm & Hd & Hy & Lm & Ld & Ly & E).
  assert (parseSaleDate s = y +:+ "-" +:+ padStart2 m +:+ "-" +:+ padStart2 d) as ->.
  { unfold parseSaleDate. apply matchUSDate_Some in Hs. rewrite Hs.
    destruct (truthy s) eqn:Ht; [done|].
    apply truthy_false in Ht. subst s. by destruct m. }
  destruct (padStart2_digits m Hm Lm) as [? ?].
  destruct (padStart2_digits d Hd Ld) as [? ?].
  by apply Hiso.
Qed.

(** The sale date "1/8/2025" is stored as "2025-01-08" and displayed as
    "01/08/2025". *)
Lemma formatDisplayDate_round_trip_witness :
  formatDisplayDate (parseSaleDate "1/8/2025") = "01/08/2025"
  ∧ parseSaleDate (formatDisplayDate (parseSaleDate "1/8/2025")) = parseSaleDate "1/8/2025".
Proof.
  apply (proj2 formatDisplayDate_round_trip "1" "8" "2025" "1/8/2025").
  repeat split; try reflexivity; cbn [String.length]; lia.
Defined.

(** ** Retrying until success *)

Section CallsFacts.

Context {W T : Type}.
Variable fn : W → W * (Error + T).

Lemma length_calls (n : nat) (w : W) : length (calls fn n w) = n.
  Proof. revert w. induction n as [|n IH]; intros w; cbn [calls length]; [done|by rewrite IH]. Qed.

Lemma calls_lookup (n m i : nat) (w : W) :
    (i < n)%nat → (i < m)%nat → calls fn n w !! i = calls fn m w !! i.
  Proof.
    revert m i w. induction n as [|n IH]; intros [|m] i w Hn Hm; try lia.
    cbn [calls]. destruct i as [|i]; [done|]. cbn [lookup list_lookup].
    apply IH; lia.
  Qed.

End CallsFacts.

(** X10.  [withRetry] does not give up early: when the first [k]
    invocations of the operation fail with errors that may be retried, with
    [k] at most [maxRetries], and the next one produces a value, the call
    returns that value after exactly [k + 1] invocations. *)
Theorem withRetry_succeeds_after_retries {W T : Type}
    (fn : W → W * (Error + T)) (opts : RetryOptions) (w : W) (k : nat) (v : T) :
  (k ≤ maxRetries opts)%nat →
  (∀ i, (i < k)%nat →
        ∃ e, calls fn (S k) w !! i = Some (inl e) ∧ mayRetry opts e = true) →
  calls fn (S k) w !! k = Some (inr v) →
  withRetry fn opts w
  = Some {| outcome := Returned v;
            invocations := calls fn (S k) w;
            world := after fn (S k) w |}.
Proof.
  intros Hk Hfail Hok.
  destruct (retryFrom_runs fn opts (S (maxRetries opts)) 0 None [] w)
    as (run & Hrun & more & Hi & Hlen & Hcalls & Hw & Hmid & Hval & Herr & Hret);
    [lia|lia|].
  unfold withRetry. rewrite Hrun. f_equal. cbn [app] in Hi.
  assert (length more = S k) as Hn.
  { destruct (decide (S k < length more)%nat) as [Hgt|Hle].
    - symmetry. apply (Hval k v). rewrite <- Hok.
      remember (length more) as n eqn:En. rewrite Hcalls. apply calls_lookup; lia.
    - destruct (decide (length more = S k)) as [|Hne]; [done|]. exfalso.
      assert (length more - 1 < k)%nat as Hlt by lia.
      destruct (Hfail _ Hlt) as (e & He & Hretry).
      assert (last more = Some (inl e)) as Hlast.
      { rewrite last_lookup. replace (pred (length more)) with (length more - 1)%nat by lia.
        rewrite <- He. remember (length more) as n eqn:En. rewrite Hcalls.
        apply calls_lookup; lia. }
      destruct (Herr e Hlast) as [_ [Hno|Hfull]]; [congruence|lia]. }
  rewrite Hn in Hcalls, Hw.
  assert (outcome run = Returned v) as Ho.
  { apply Hret. rewrite last_lookup, Hn. cbn [pred]. rewrite Hcalls. exact Hok. }
  destruct run as [o inv wd]. cbn [outcome invocations world] in *. congruence.
Qed.

(** Three retries allowed; the operation times out, loses its connection,
    and then succeeds: the value is returned after three invocations. *)
Lemma withRetry_succeeds_after_retries_witness :
  withRetry scripted {| maxRetries := 3; isRetryable := Some isNetworkRetryable |}
            ["Navigation timeout of 30000 ms exceeded"; "read ECONNRESET"]
  = Some {| outcome := Returned 7%nat;
            invocations := [ inl {| message := "Navigation timeout of 30000 ms exceeded" |};
                             inl {| message := "read ECONNRESET" |};
                             inr 7%nat ];
            world := [] |}.
Proof.
  apply (withRetry_succeeds_after_retries scripted
           {| maxRetries := 3; isRetryable := Some isNetworkRetryable |}
           ["Navigation timeout of 30000 ms exceeded"; "read ECONNRESET"] 2 7%nat).
  - cbn [maxRetries]. lia.
  - intros [|[|i]] Hi; [| |lia].
    + exists {| message := "Navigation timeout of 30000 ms exceeded" |}.
      split; vm_compute; reflexivity.
    + exists {| message := "read ECONNRESET" |}. split; vm_compute; reflexivity.
  - vm_compute. reflexivity.
Defined.

(** ** The processing chain of the entry point *)

Lemma trim_trim (s : string) : trim (trim s) = trim s.
Proof. destruct (trim_clean s) as [H1 H2]. by apply trim_fixed. Qed.

Lemma transformRecord_price (now : string) (record : RawParcelRecord) :
  cs_sale_price (transformRecord now record) = parseSalePrice (sale_price record).
Proof. unfold transformRecord. cbv zeta. by destruct (negb _ && _). Qed.

Lemma transformRecord_instrument (now : string) (record : RawParcelRecord) :
  cs_deed_instrument (transformRecord now record) = trim (deed_instrument record).
Proof.
  unfold transformRecord. cbv zeta. destruct (negb _ && _); cbn [cs_deed_instrument];
    apply orElse_empty.
Qed.

Lemma isDeniedInstrument_trim (instrument : string) (denylist : list string) :
  isDeniedInstrument instrument denylist = false →
  isDeniedInstrument (trim instrument) denylist = false.
Proof.
  unfold isDeniedInstrument. intros H.
  destruct (truthy (trim instrument)) eqn:Ht; [|done]. cbn [negb].
  rewrite trim_toLowerCase, trim_trim, <- trim_toLowerCase.
  destruct (truthy instrument) eqn:Hi; [done|].
  apply truthy_false in Hi. subst instrument. done.
Qed.

(** where the sales delivered by the chain come from *)
Lemma cleanSales_origin
    (numberToString : number → string) (clock : nat → string)
    (config : ExtractorConfig) (dateRange : DateRange)
    (rawRecords : list RawParcelRecord) :
  let sales := cleanSales numberToString clock config dateRange rawRecords in
  (∀ sale, sale ∈ sales →
     ownerAddressKey sale ≠ "|"
     ∧ ∃ i raw, raw ∈ rawRecords
                ∧ firstFailure config dateRange raw = None
                ∧ sale = transformRecord (clock i) raw)
  ∧ NoDup (ownerAddressKey <$> sales)
  ∧ (length sales ≤ length rawRecords)%nat.
Proof.
  intros sales. unfold cleanSales in sales. cbv zeta in sales.
  set (deduped := deduplicateRawRecords numberToString rawRecords) in *.
  set (result := filterRecords deduped config dateRange) in *.
  set (transformed := transformRecords clock (passed result)) in *.
  set (byRecord := deduplicateCleanedSales numberToString transformed) in *.
  assert (sublist deduped rawRecords) as Hraw
    by apply (dedupeRawFrom_spec numberToString rawRecords ∅).
  assert (passed result = filter (λ r, firstFailure config dateRange r = None) deduped)
    as Hpassed.
  { destruct (filter_loop config dateRange deduped
                {| passed := []; filtered := []; reasons := noReasons |}) as (Hp & _).
    exact Hp. }
  assert (sublist byRecord transformed) as Hrec
    by apply (dedupeCleanedFrom_sublist numberToString transformed ∅ ∅).
  assert (filed [] []) as H0.
  { split; [constructor|].
    split; [by intros k s H%elem_of_nil|by intros r H%elem_of_nil]. }
  apply (filed_loop byRecord) in H0. cbn [app] in H0.
  destruct H0 as (Hnd & Hent & _).
  set (m := fold_left ownerAddressStep byRecord []) in *.
  assert (sales = mapValues m) as Hsales by done.
  assert (ownerAddressKey <$> sales = m.*1) as Hkeys.
  { rewrite Hsales. apply keys_of_values.
    intros k s Hin. by destruct (Hent k s Hin) as (-> & _). }
  assert (∀ sale, sale ∈ sales → sale ∈ byRecord ∧ ownerAddressKey sale ≠ "|") as Hin.
  { intros sale Hs. rewrite Hsales in Hs. unfold mapValues in Hs.
    apply list_elem_of_In, in_map_iff in Hs as ([k s] & E & Hs%list_elem_of_In).
    cbn [snd] in E. subst s. destruct (Hent k sale Hs) as (Hk & Hne & Hs' & _).
    split; [done|congruence]. }
  split; [|split].
  - intros sale Hs. destruct (Hin sale Hs) as [Hb Hkey]. split; [exact Hkey|].
    assert (sale ∈ transformed) as Ht.
    { eapply elem_of_submseteq; [exact Hb|]. by apply sublist_submseteq. }
    unfold transformed, transformRecords in Ht.
    apply elem_of_lookup_imap in Ht as (i & raw & -> & Hi).
    apply list_elem_of_lookup_2 in Hi. rewrite Hpassed in Hi.
    apply list_elem_of_filter in Hi as [Hok Hd].
    exists i, raw.
    split; [eapply elem_of_submseteq; [exact Hd|by apply sublist_submseteq]|done].
  - by rewrite Hkeys.
  - assert (length sales ≤ length byRecord)%nat as H1.
    { apply submseteq_length, NoDup_submseteq.
      - apply (NoDup_fmap_1 ownerAddressKey). by rewrite Hkeys.
      - intros s Hs. by destruct (Hin s Hs). }
    apply sublist_length in Hrec, Hraw.
    assert (length transformed = length (passed result)) as H2
      by apply length_imap.
    assert (length (passed result) ≤ length deduped)%nat as H3.
    { rewrite Hpassed. apply length_filter. }
    lia.
Qed.

(** X11.  Every sale that the entry point's chain (raw deduplication,
    filter, transformation, the two deduplications of cleaned sales)
    delivers is the transformation of one of the raw records, one that the
    filter does not reject; its price is not below the configured minimum,
    its instrument is not denied, and it has an owner name or an address.
    No two delivered sales have the same owner and address, and there are
    at most as many of them as raw records. *)
Theorem cleanSales_sound
    (numberToString : number → string) (clock : nat → string)
    (config : ExtractorConfig) (dateRange : DateRange)
    (rawRecords : list RawParcelRecord) :
  let sales := cleanSales numberToString clock config dateRange rawRecords in
  (∀ sale, sale ∈ sales →
     ∃ i raw,
       raw ∈ rawRecords
       ∧ rejection config dateRange raw = None
       ∧ sale = transformRecord (clock i) raw
       ∧ lt (cs_sale_price sale) (minSalePrice config) = false
       ∧ isDeniedInstrument (cs_deed_instrument sale) (instrumentDenylist config) = false
       ∧ ownerAddressKey sale ≠ "|")
  ∧ NoDup (ownerAddressKey <$> sales)
  ∧ (length sales ≤ length rawRecords)%nat.
Proof.
  intros sales.
  destruct (cleanSales_origin numberToString clock config dateRange rawRecords)
    as (Hfrom & Hnd & Hlen).
  split; [|by split].
  intros sale Hs. destruct (Hfrom sale Hs) as (Hkey & i & raw & Hraw & Hok & ->).
  exists i, raw. split; [exact Hraw|].
  split; [by rewrite rejection_firstFailure|]. split; [done|].
  rewrite firstFailure_None in Hok. unfold checks in Hok.
  repeat (apply Forall_cons in Hok as [? Hok]). cbn [fst] in *.
  unfold priceTooLow, instrumentDenied in *.
  rewrite transformRecord_price, transformRecord_instrument.
  split; [done|]. split; [by apply isDeniedInstrument_trim|done].
Qed.

(** A valid sale and a quitclaim of the sample week: the chain delivers the
    transformation of the valid sale, whose price is not below the
    minimum. *)
Lemma cleanSales_sound_witness :
  ∃ (i : nat) raw,
    raw ∈ [ sampleRecord "01/08/2025" "$250,000" "Warranty Deed";
            sampleRecord "01/08/2025" "$250,000" "Quitclaim Deed" ]
    ∧ rejection sampleConfig sampleWeek raw = None
    ∧ transformRecord "2025-01-13T06:00:00.000Z"
        (sampleRecord "01/08/2025" "$250,000" "Warranty Deed")
      = transformRecord "2025-01-13T06:00:00.000Z" raw
    ∧ lt (cs_sale_price (transformRecord "2025-01-13T06:00:00.000Z"
                           (sampleRecord "01/08/2025" "$250,000" "Warranty Deed")))
         (minSalePrice sampleConfig) = false
    ∧ isDeniedInstrument
        (cs_deed_instrument (transformRecord "2025-01-13T06:00:00.000Z"
                               (sampleRecord "01/08/2025" "$250,000" "Warranty Deed")))
        (instrumentDenylist sampleConfig) = false
    ∧ ownerAddressKey (transformRecord "2025-01-13T06:00:00.000Z"
                         (sampleRecord "01/08/2025" "$250,000" "Warranty Deed")) ≠ "|".
Proof.
  apply (proj1 (cleanSales_sound renderNumber (λ _, "2025-01-13T06:00:00.000Z")
                  sampleConfig sampleWeek
                  [ sampleRecord "01/08/2025" "$250,000" "Warranty Deed";
                    sampleRecord "01/08/2025" "$250,000" "Quitclaim Deed" ])).
  assert (cleanSales renderNumber (λ _, "2025-01-13T06:00:00.000Z")
            sampleConfig sampleWeek
            [ sampleRecord "01/08/2025" "$250,000" "Warranty Deed";
              sampleRecord "01/08/2025" "$250,000" "Quitclaim Deed" ]
          = [transformRecord "2025-01-13T06:00:00.000Z"
               (sampleRecord "01/08/2025" "$250,000" "Warranty Deed")]) as ->
    by (vm_compute; reflexivity).
  left.
Defined.

(** ** The URL map and the fall-backs of the extraction *)

Lemma mapGet_mapSet {V : Type} (m : JSMap V) (k k' : string) (v : V) :
  mapGet (mapSet m k v) k' = if bool_decide (k = k') then Some v else mapGet m k'.
Proof.
  induction m as [|[k0 v0] m IH]; cbn [mapSet mapGet].
  - done.
  - destruct (decide (k0 = k)) as [->|Hk].
    + rewrite (bool_decide_eq_true_2 (k = k)) by done. cbn [mapGet].
      by destruct (bool_decide (k = k')).
    + rewrite (bool_decide_eq_false_2 (k0 = k)) by done. cbn [mapGet]. rewrite IH.
      destruct (decide (k0 = k')) as [->|Hk'].
      * rewrite (bool_decide_eq_true_2 (k' = k')) by done.
        by rewrite bool_decide_eq_false_2 by congruence.
      * by rewrite (bool_decide_eq_false_2 (k0 = k')) by done.
Qed.

Lemma last_cons_or {A : Type} (x : A) (l : list A) :
  last (x :: l) = match last l with Some y => Some y | None => Some x end.
Proof. destruct l as [|y l]; [done|]. rewrite last_cons_cons. by destruct (last (y :: l)) eqn:E; [|apply last_None in E]. Qed.

Lemma collect_urls (county : string) (rows : list SearchResultRow) (acc : Collected)
    (id : string) :
  mapGet (parcelUrls (fold_left (collectRow county) rows acc)) id
  = match last (filter (λ row, linked id row = true) rows) with
    | Some row => Some (detailUrl row)
    | None => mapGet (parcelUrls acc) id
    end.
Proof.
  revert acc. induction rows as [|row rows IH]; intros acc; [done|].
  cbn [fold_left]. rewrite IH. rewrite filter_cons.
  destruct (decide (linked id row = true)) as [Hl|Hl].
  - rewrite last_cons_or.
    destruct (last (filter _ rows)); [done|].
    unfold linked in Hl. apply andb_true_iff in Hl as [Hid%bool_decide_eq_true Hv].
    unfold collectRow. cbn [parcelUrls]. rewrite Hv, mapGet_mapSet.
    by rewrite bool_decide_eq_true_2.
  - destruct (last (filter _ rows)); [done|].
    unfold collectRow. cbn [parcelUrls].
    destruct (truthy (viewUrl row)) eqn:Hv; [|done].
    rewrite mapGet_mapSet. rewrite bool_decide_eq_false_2; [done|].
    intros Hid. apply Hl. unfold linked. rewrite Hv.
    by rewrite bool_decide_eq_true_2.
Qed.

(** X12.  The detail URL that [extract] files for a parcel id is the one
    of the last collected row with that id and a link (a later row
    overrides an earlier one); a parcel id is in the URL map exactly when
    one of its rows has a link, and [totalParcels] counts the entries of
    the map.  For a row whose link is relative, the URL filed is the
    [source_url] of the row's own stub. *)
Theorem extract_fetches_last_link
    (dateFromString : string → Date) (fetch : string → string → Settled)
    (config : ExtractorConfig) (dateRange : DateRange)
    (firstPage : list SearchResultRow) (nextPages : list (list SearchResultRow)) :
  let rows := concat (firstPage :: nextPages) in
  let collected := collectPages (countyCode config) (firstPage :: nextPages) in
  (∀ id, mapGet (parcelUrls collected) id
         = detailUrl <$> last (filter (λ row, linked id row = true) rows))
  ∧ (∀ id, id ∈ (parcelUrls collected).*1 ↔ ∃ row, row ∈ rows ∧ linked id row = true)
  ∧ totalParcels (extract dateFromString fetch config dateRange firstPage nextPages)
    = length (parcelUrls collected)
  ∧ (∀ row, truthy (viewUrl row) = true → startsWith (viewUrl row) "http" = false →
            source_url (searchResultToRawRecord row (countyCode config)) = detailUrl row).
Proof.
  intros rows collected.
  assert (∀ id, mapGet (parcelUrls collected) id
                = detailUrl <$> last (filter (λ row, linked id row = true) rows)) as Hget.
  { intros id. unfold collected. rewrite collectPages_rows, collect_urls.
    fold rows. by destruct (last _). }
  split; [exact Hget|]. split; [|split; [done|]].
  - intros id. split.
    + intros Hin. destruct (mapGet (parcelUrls collected) id) as [url|] eqn:E.
      * rewrite Hget in E. destruct (last _) as [row|] eqn:Hlast; [|done].
        exists row. apply last_Some_elem_of, list_elem_of_filter in Hlast.
        destruct Hlast. done.
      * by apply mapGet_None in E.
    + intros (row & Hrow & Hl).
      destruct (mapGet (parcelUrls collected) id) as [url|] eqn:E.
      * apply mapGet_Some_elem in E. by apply key_elem with url.
      * rewrite Hget in E. destruct (last _) eqn:Hlast; [done|].
        apply last_None in Hlast.
        assert (row ∈ filter (λ row, linked id row = true) rows) as Hin
          by (by apply list_elem_of_filter).
        rewrite Hlast in Hin. by apply elem_of_nil in Hin.
  - intros row Hv Hh. unfold searchResultToRawRecord, detailUrl.
    cbn [source_url]. by rewrite Hv, Hh.
Qed.

(** Two rows of one parcel with different relative links: the link of the
    second row is the one filed, and it is the [source_url] of that row's
    stub. *)
Lemma extract_fetches_last_link_witness :
  mapGet (parcelUrls (collectPages (countyCode sampleConfig)
                        [ [ sampleRow "067 053.08 000" "./Parcel/Details?parcelId=1";
                            sampleRow "067 053.08 000" "./Parcel/Details?parcelId=2" ] ]))
         "067 053.08 000"
  = Some "https://assessment.cot.tn.gov/TPAD/Parcel/Details?parcelId=2"
  ∧ source_url (searchResultToRawRecord
                  (sampleRow "067 053.08 000" "./Parcel/Details?parcelId=2")
                  (countyCode sampleConfig))
    = detailUrl (sampleRow "067 053.08 000" "./Parcel/Details?parcelId=2").
Proof.
  destruct (extract_fetches_last_link dateFromISO sampleFetch sampleConfig sampleWeek
              [ sampleRow "067 053.08 000" "./Parcel/Details?parcelId=1";
                sampleRow "067 053.08 000" "./Parcel/Details?parcelId=2" ] [])
    as (Hget & _ & _ & Hurl).
  split.
  - rewrite Hget. vm_compute. reflexivity.
  - apply Hurl; vm_compute; reflexivity.
Defined.

Section FallBack.

Variable dateFromString : string → Date.
Variable fetch : string → string → Settled.
Variable dateRange : DateRange.
Variable stubs : list RawParcelRecord.

Lemma emits_failed (entries : list (string * string)) :
    Forall (fetchFailed fetch) entries →
    (∀ id, id ∈ entries.*1 → ∃ r, r ∈ stubs ∧ parcel_id r = id) →
    parcel_id <$> concat (map (emits dateFromString fetch dateRange stubs) entries)
    = entries.*1
    ∧ (∀ r, r ∈ concat (map (emits dateFromString fetch dateRange stubs) entries) →
            r ∈ stubs)
    ∧ concat (map (fetched fetch) entries) = [].
  Proof.
    induction entries as [|[id url] entries IH]; intros Hfail Hstub.
    - split; [done|]. split; [|done]. by intros r Hr%elem_of_nil.
    - apply Forall_cons in Hfail as [Hf Hfail].
      destruct IH as (IH1 & IH2 & IH3); [done| |].
      { intros k Hk. apply Hstub. rewrite fmap_cons. by right. }
      destruct (find_stub stubs id) as (stub & Hfind & Hin & Hid).
      { apply Hstub. rewrite fmap_cons. left. }
      cbn [map concat].
      unfold fetchFailed in Hf. cbn [fst snd] in Hf.
      assert (emits dateFromString fetch dateRange stubs (id, url) = [stub]) as ->.
      { unfold emits. cbn [fst snd].
        destruct (fetch id url) as [[?|]|]; [done| |]; cbn [emitted]; by rewrite Hfind. }
      assert (fetched fetch (id, url) = []) as ->.
      { unfold fetched. cbn [fst snd]. by destruct (fetch id url) as [[?|]|]. }
      split; [|split].
      + rewrite fmap_app, IH1. cbn [fmap list_fmap app fst]. by rewrite Hid.
      + intros r [Hr%list_elem_of_singleton|Hr]%elem_of_app; [by subst r|by apply IH2].
      + by rewrite IH3.
  Qed.

End FallBack.

(** the result of [extract] through the records emitted per parcel *)
Lemma extract_result
    (dateFromString : string → Date) (fetch : string → string → Settled)
    (config : ExtractorConfig) (dateRange : DateRange)
    (firstPage : list SearchResultRow) (nextPages : list (list SearchResultRow)) :
  let rows := concat (firstPage :: nextPages) in
  let collected := collectPages (countyCode config) (firstPage :: nextPages) in
  let result := extract dateFromString fetch config dateRange firstPage nextPages in
  let enriched := concat (map (emits dateFromString fetch dateRange (allResults collected))
                              (parcelUrls collected)) in
  allResults collected = map (λ row, searchResultToRawRecord row (countyCode config)) rows
  ∧ rawRecords result = (if bool_decide (0 < length enriched)%nat then enriched
                         else allResults collected)
  ∧ res_parcelDetails result = concat (map (fetched fetch) (parcelUrls collected)).
Proof.
  intros rows collected result enriched.
  destruct (enrichment_batches dateFromString fetch dateRange (allResults collected)
              (concurrency config) (parcelUrls collected)) as [He Hd].
  cbv zeta in He, Hd.
  split; [|split].
  - unfold collected. rewrite collectPages_rows, collect_rows. done.
  - unfold result, extract. cbv zeta. cbn [rawRecords]. fold collected. by rewrite He.
  - unfold result, extract. cbv zeta. cbn [res_parcelDetails]. fold collected. done.
Qed.

(** when every detail fetch fails, the records returned are stubs *)
Lemma extract_failed_stubs
    (dateFromString : string → Date) (fetch : string → string → Settled)
    (config : ExtractorConfig) (dateRange : DateRange)
    (firstPage : list SearchResultRow) (nextPages : list (list SearchResultRow)) :
  let rows := concat (firstPage :: nextPages) in
  let collected := collectPages (countyCode config) (firstPage :: nextPages) in
  let result := extract dateFromString fetch config dateRange firstPage nextPages in
  Forall (fetchFailed fetch) (parcelUrls collected) →
  ∀ r, r ∈ rawRecords result →
       ∃ row, row ∈ rows ∧ r = searchResultToRawRecord row (countyCode config).
Proof.
  intros rows collected result Hfail r Hr.
  destruct (collectPages_mapped (countyCode config) (firstPage :: nextPages))
    as [Hnd Hkeys]. fold collected in Hnd, Hkeys.
  destruct (extract_result dateFromString fetch config dateRange firstPage nextPages)
    as (Hall & Hraw & _). cbv zeta in Hall, Hraw. fold collected rows result in Hall, Hraw.
  destruct (emits_failed dateFromString fetch dateRange (allResults collected)
              (parcelUrls collected) Hfail Hkeys) as (_ & Hstubs & _).
  assert (r ∈ allResults collected) as Hin.
  { rewrite Hraw in Hr. case_bool_decide; [by apply Hstubs|done]. }
  rewrite Hall in Hin.
  apply list_elem_of_In, in_map_iff in Hin as (row & <- & Hin%list_elem_of_In).
  by exists row.
Qed.

(** X13.  [extract] returns no record only when the result pages held no
    row.  When every detail fetch fails (is rejected or gives null), the
    records returned are search-result stubs, no detail page is reported,
    and, if some row had a link, there is exactly one record per fetched
    parcel, in the order of the fetches. *)
Theorem extract_falls_back
    (dateFromString : string → Date) (fetch : string → string → Settled)
    (config : ExtractorConfig) (dateRange : DateRange)
    (firstPage : list SearchResultRow) (nextPages : list (list SearchResultRow)) :
  let rows := concat (firstPage :: nextPages) in
  let collected := collectPages (countyCode config) (firstPage :: nextPages) in
  let result := extract dateFromString fetch config dateRange firstPage nextPages in
  (rawRecords result = [] ↔ rows = [])
  ∧ (Forall (fetchFailed fetch) (parcelUrls collected) →
     res_parcelDetails result = []
     ∧ (∀ r, r ∈ rawRecords result →
             ∃ row, row ∈ rows ∧ r = searchResultToRawRecord row (countyCode config))
     ∧ (parcelUrls collected ≠ [] →
        parcel_id <$> rawRecords result = (parcelUrls collected).*1)
     ∧ (parcelUrls collected = [] →
        rawRecords result
        = map (λ row, searchResultToRawRecord row (countyCode config)) rows)).
Proof.
  intros rows collected result.
  destruct (collectPages_mapped (countyCode config) (firstPage :: nextPages))
    as [Hnd Hkeys]. fold collected in Hnd, Hkeys.
  destruct (extract_result dateFromString fetch config dateRange firstPage nextPages)
    as (Hall & Hraw & Hdet). cbv zeta in Hall, Hraw, Hdet.
  fold collected rows result in Hall, Hraw, Hdet.
  split.
  - rewrite Hraw. split.
    + case_bool_decide as Hlen.
      * intros E. rewrite E in Hlen. cbn [length] in Hlen. lia.
      * rewrite Hall. intros E. by apply map_eq_nil in E.
    + intros E.
      assert (collected = {| allResults := []; parcelUrls := [] |}) as ->.
      { unfold collected. rewrite collectPages_rows. fold rows. by rewrite E. }
      done.
  - intros Hfail.
    destruct (emits_failed dateFromString fetch dateRange (allResults collected)
                (parcelUrls collected) Hfail Hkeys) as (Hids & Hstubs & Hnone).
    split; [by rewrite Hdet|].
    split; [by apply extract_failed_stubs|]. split.
    + intros Hne. rewrite Hraw.
      rewrite bool_decide_eq_true_2; [done|].
      assert (length (parcel_id <$> concat (map (emits dateFromString fetch dateRange
                                                   (allResults collected))
                                              (parcelUrls collected)))
              = length (parcelUrls collected).*1) as Hlen by (by rewrite Hids).
      rewrite !length_fmap in Hlen. rewrite Hlen.
      destruct (parcelUrls collected); [done|]. cbn [length]. lia.
    + intros E. rewrite Hraw, E. cbn [map concat length].
      rewrite bool_decide_eq_false_2 by lia. exact Hall.
Qed.

(** A page of two rows whose detail fetches both fail: the two stubs are
    returned. *)
Lemma extract_falls_back_witness :
  parcel_id <$> rawRecords
    (extract dateFromISO (λ _ _, Rejected {| message := "Target closed" |})
       sampleConfig sampleWeek
       [ sampleRow "067 053.08 000" "./Parcel/Details?parcelId=1";
         sampleRow "067 054.00 000" "./Parcel/Details?parcelId=2" ] [])
  = ["067 053.08 000"; "067 054.00 000"].
Proof.
  destruct (proj2 (extract_falls_back dateFromISO
                     (λ _ _, Rejected {| message := "Target closed" |})
                     sampleConfig sampleWeek
                     [ sampleRow "067 053.08 000" "./Parcel/Details?parcelId=1";
                       sampleRow "067 054.00 000" "./Parcel/Details?parcelId=2" ] []))
    as (_ & _ & Hids & _).
  - repeat constructor.
  - rewrite Hids; [vm_compute; reflexivity|]. vm_compute. discriminate.
Defined.

(** ** The batches of detail fetches *)

Lemma batchesFrom_lookup {A : Type} (fuel : nat) (size : positive) (entries : list A)
    (i : nat) :
  (length entries ≤ fuel)%nat → (i * Pos.to_nat size < length entries)%nat →
  batchesFrom fuel size entries !! i
  = Some (take (Pos.to_nat size) (drop (i * Pos.to_nat size) entries)).
Proof.
  revert entries i. induction fuel as [|fuel IH]; intros entries i Hfuel Hi; [lia|].
  destruct entries as [|x entries]; [cbn [length] in Hi; lia|].
  cbn [batchesFrom]. destruct i as [|i]; [done|].
  rewrite lookup_cons. rewrite IH.
  - rewrite drop_drop. reflexivity.
  - rewrite length_drop. cbn [length] in *. lia.
  - rewrite length_drop. lia.
Qed.

Lemma batchesFrom_length {A : Type} (fuel : nat) (size : positive) (entries : list A)
    (i : nat) :
  (length entries ≤ fuel)%nat →
  (i < length (batchesFrom fuel size entries))%nat
  ↔ (i * Pos.to_nat size < length entries)%nat.
Proof.
  revert entries i. induction fuel as [|fuel IH]; intros entries i Hfuel.
  - destruct entries; cbn [length batchesFrom] in *; lia.
  - destruct entries as [|x entries]; [cbn [batchesFrom length]; lia|].
    cbn [batchesFrom]. destruct i as [|i]; [cbn [length]; lia|].
    cbn [length]. rewrite <- Nat.succ_lt_mono, IH.
    + rewrite length_drop. cbn [length]. lia.
    + rewrite length_drop. cbn [length] in *. lia.
Qed.

(** X14.  The detail fetches of [extract] are issued in batches that cut
    the list of parcels into consecutive slices of [concurrency] entries:
    batch [i] is the slice starting at entry [i * concurrency], there is a
    batch for every such start inside the list and no other, no batch is
    empty or longer than [concurrency], and together the batches are the
    list, each parcel once and in order. *)
Theorem batches_slices {A : Type} (size : positive) (entries : list A) :
  (∀ i, (i < length (batches size entries))%nat
        ↔ (i * Pos.to_nat size < length entries)%nat)
  ∧ (∀ i, (i * Pos.to_nat size < length entries)%nat →
          batches size entries !! i
          = Some (take (Pos.to_nat size) (drop (i * Pos.to_nat size) entries)))
  ∧ concat (batches size entries) = entries
  ∧ Forall (λ batch, (1 ≤ length batch ≤ Pos.to_nat size)%nat) (batches size entries).
Proof.
  assert (∀ i, (i < length (batches size entries))%nat
               ↔ (i * Pos.to_nat size < length entries)%nat) as Hlen
    by (intros i; by apply batchesFrom_length).
  assert (∀ i, (i * Pos.to_nat size < length entries)%nat →
               batches size entries !! i
               = Some (take (Pos.to_nat size) (drop (i * Pos.to_nat size) entries)))
    as Hlook by (intros i Hi; by apply batchesFrom_lookup).
  split; [exact Hlen|]. split; [exact Hlook|]. split; [apply batches_concat|].
  apply Forall_lookup. intros i batch Hb.
  assert (i * Pos.to_nat size < length entries)%nat as Hi
    by (apply Hlen; by apply lookup_lt_Some in Hb).
  rewrite (Hlook i Hi) in Hb. injection Hb as <-.
  rewrite length_take, length_drop. lia.
Qed.

(** Seven parcels fetched three at a time: the third batch is the seventh
    parcel alone. *)
Lemma batches_slices_witness :
  batches 3 [1; 2; 3; 4; 5; 6; 7]%nat !! 2%nat = Some [7%nat].
Proof.
  apply (proj1 (proj2 (batches_slices 3 [1; 2; 3; 4; 5; 6; 7]%nat)) 2%nat).
  vm_compute. lia.
Defined.

(** ** Weeks (utils/date-range.ts) *)

Lemma allFrom_spec (p : Z → bool) (n : nat) (from z : Z) :
  allFrom p from n = true → from ≤ z < from + Z.of_nat n → p z = true.
Proof.
  revert from. induction n as [|n IH]; intros from; cbn [allFrom]; [lia|].
  intros [Hn Hrest]%andb_true_iff Hz.
  destruct (decide (z = from)) as [->|Hne]; [done|]. apply (IH (from + 1)); [done|lia].
Qed.

Lemma civilCheck_era (doe : Z) : 0 ≤ doe < 146097 → civilCheck doe = true.
Proof.
  assert (allFrom civilCheck 0 (Z.to_nat 146097) = true) as H
    by (vm_compute; reflexivity).
  intros Hdoe. apply (allFrom_spec _ _ _ _ H). rewrite Z2Nat.id; lia.
Qed.

(** the date read from a day number is a date of that day *)
Lemma civil_inverse (day : Z) :
  dayFromYearMonth (fst (fst (civilFromDay day))) (snd (fst (civilFromDay day)))
  + snd (civilFromDay day) - 1 = day.
Proof.
  unfold civilFromDay. cbv zeta.
  set (z := day + 719468).
  set (era := z / 146097).
  set (doe := z - era * 146097).
  assert (0 ≤ doe < 146097) as Hdoe.
  { unfold doe, era. pose proof (Z.mod_pos_bound z 146097 ltac:(lia)) as H.
    rewrite Z.mod_eq in H by lia. lia. }
  pose proof (civilCheck_era doe Hdoe) as Hc.
  unfold civilCheck in Hc. cbv zeta in Hc.
  set (yoe := (doe - doe / 1460 + doe / 36524 - doe / 146096) / 365) in *.
  set (doy := doe - (365 * yoe + yoe / 4 - yoe / 100)) in *.
  set (mp := (5 * doy + 2) / 153) in *.
  set (d := doy - (153 * mp + 2) / 5 + 1) in *.
  repeat (apply andb_true_iff in Hc as [Hc ?]).
  cbn [fst snd]. unfold dayFromYearMonth. cbv zeta.
  assert ((yoe + era * 400) / 400 = era) as Hera.
  { rewrite Z.div_add by lia. rewrite Z.div_small by lia. lia. }
  destruct (mp <? 10) eqn:Hmp.
  - assert ((mp + 2 <? 2) = false) as -> by lia.
    rewrite Hera.
    replace (yoe + era * 400 - era * 400) with yoe by lia.
    replace (mp + 2 - 2) with mp by lia. unfold z in doe. lia.
  - assert ((mp - 10 <? 2) = true) as -> by lia.
    replace (yoe + era * 400 + 1 - 1) with (yoe + era * 400) by lia.
    rewrite Hera.
    replace (yoe + era * 400 - era * 400) with yoe by lia.
    replace (mp - 10 + 10) with mp by lia. unfold z in doe. lia.
Qed.

Lemma TimeClip_ok (t : Z) : Z.abs t ≤ maxTime → TimeClip t = Some t.
Proof. unfold TimeClip, maxTime. intros H. by rewrite (proj2 (Z.leb_le _ _) H). Qed.

Lemma TimeClip_Some (t u : Z) : TimeClip t = Some u → u = t ∧ Z.abs t ≤ maxTime.
Proof.
  unfold TimeClip, maxTime. destruct (Z.abs t <=? 8640000000000000) eqn:E; [|done].
  intros [= <-]. split; [done|]. by apply Z.leb_le.
Qed.

Lemma Day_add (t k : Z) : Day (t + k * msPerDay) = Day t + k.
Proof. unfold Day, msPerDay. by rewrite Z.div_add. Qed.

Lemma Day_within (d x : Z) : 0 ≤ x < msPerDay → Day (d * msPerDay + x) = d.
Proof.
  unfold Day, msPerDay. intros H.
  rewrite Z.add_comm, Z.div_add by lia. rewrite Z.div_small by lia. lia.
Qed.

Lemma Day_time (t : Z) : t = Day t * msPerDay + TimeWithinDay t.
Proof. unfold Day, TimeWithinDay, msPerDay. pose proof (Z.div_mod t 86400000). lia. Qed.

Lemma TimeWithinDay_bound (t : Z) : 0 ≤ TimeWithinDay t < msPerDay.
Proof. unfold TimeWithinDay, msPerDay. apply Z.mod_pos_bound. lia. Qed.

(** [d.setDate(d.getDate() + k)] moves a date by [k] days *)
Lemma setDate_getDate (t k : Z) :
  setDate (Some t) (getDate t + k) = TimeClip (t + k * msPerDay).
Proof.
  unfold setDate, getFullYear, getMonth, getDate. f_equal.
  pose proof (civil_inverse (Day t)) as H. pose proof (Day_time t) as Ht.
  replace (dayFromYearMonth (civilFromDay (Day t)).1.1 (civilFromDay (Day t)).1.2
           + ((civilFromDay (Day t)).2 + k) - 1) with (Day t + k) by lia.
  lia.
Qed.

Lemma sundayAfter_midnight (m : Z) :
  TimeWithinDay m = 0 → - maxTime ≤ m ≤ maxTime - 7 * msPerDay →
  sundayAfter (Some m) = Some (m + 7 * msPerDay - 1).
Proof.
  intros Hm Hb. unfold sundayAfter. rewrite setDate_getDate.
  rewrite TimeClip_ok by (unfold maxTime, msPerDay in *; lia).
  unfold setHours. rewrite Day_add.
  pose proof (Day_time m) as Ht. rewrite Hm in Ht.
  rewrite TimeClip_ok by (unfold maxTime, msPerDay in *; lia).
  f_equal. unfold msPerDay in *. lia.
Qed.

Lemma weekDay_shift (d k : Z) : (d + k * 7 + 4) mod 7 = (d + 4) mod 7.
Proof. replace (d + k * 7 + 4) with (d + 4 + k * 7) by lia. by rewrite Z.mod_add by lia. Qed.

Lemma getMonday_value (t : Z) :
  Z.abs t ≤ maxTime - 7 * msPerDay →
  ∃ m, getMonday (Some t) = Some m ∧ weekDay m = 1 ∧ TimeWithinDay m = 0
       ∧ m ≤ t < m + 7 * msPerDay.
Proof.
  intros Hb. unfold getMonday. cbv zeta.
  set (diff := if weekDay t =? 0 then -6 else 1 - weekDay t).
  assert (0 ≤ weekDay t < 7) as Hw by (unfold weekDay; apply Z.mod_pos_bound; lia).
  assert (-6 ≤ diff ≤ 0) as Hdiff by (unfold diff; destruct (weekDay t =? 0) eqn:E; lia).
  assert ((Day t + diff + 4) mod 7 = 1) as Hmon.
  { pose proof (Z.div_mod (Day t + 4) 7 ltac:(lia)) as H.
    assert (weekDay t = (Day t + 4) mod 7) as Hwd by done.
    assert (Day t + diff + 4 = 1 + ((Day t + 4) / 7 + (if weekDay t =? 0 then -1 else 0)) * 7)
      as ->.
    { unfold diff. destruct (weekDay t =? 0) eqn:E; lia. }
    by rewrite Z.mod_add by lia. }
  rewrite setDate_getDate.
  rewrite TimeClip_ok by (unfold maxTime, msPerDay in *; lia).
  unfold setHours. rewrite Day_add.
  pose proof (Day_time t) as Ht. pose proof (TimeWithinDay_bound t) as Hr.
  rewrite TimeClip_ok by (unfold maxTime, msPerDay in *; lia).
  eexists. split; [reflexivity|].
  replace ((Day t + diff) * msPerDay + (0 * 3600000 + 0 * 60000 + 0 * 1000 + 0))
    with ((Day t + diff) * msPerDay + 0) by lia.
  split; [|split].
  - unfold weekDay. fold (Day ((Day t + diff) * msPerDay + 0)).
    rewrite Day_within by (unfold msPerDay; lia). exact Hmon.
  - unfold TimeWithinDay, msPerDay. rewrite Z.add_0_r. apply Z.mod_mul. lia.
  - unfold msPerDay in *. lia.
Qed.

Lemma parseDate_midnight (dateStr : string) (u : Z) :
  parseDate dateStr = Some u → TimeWithinDay u = 0 ∧ Z.abs u ≤ maxTime.
Proof.
  unfold parseDate, newDate. cbv zeta.
  destruct (MakeDay _ _ _) as [d|]; [|done].
  intros [-> Hb]%TimeClip_Some. split; [|done].
  unfold TimeWithinDay, msPerDay. apply Z.mod_mul. lia.
Qed.

(** X15.  For a reference date at least two weeks inside the range of
    time values, [getMonday] gives the midnight that begins the Monday of
    its week (a Sunday belongs to the week of the Monday before it): a
    Monday, at most the reference date and less than seven days before it;
    and [getSunday] gives the last millisecond of the sixth day after that
    Monday, a Sunday. *)
Theorem getMonday_week (t : Z) :
  Z.abs t ≤ maxTime - 14 * msPerDay →
  ∃ m, getMonday (Some t) = Some m
       ∧ weekDay m = 1 ∧ TimeWithinDay m = 0
       ∧ m ≤ t < m + 7 * msPerDay
       ∧ getSunday (Some t) = Some (m + 7 * msPerDay - 1)
       ∧ weekDay (m + 7 * msPerDay - 1) = 0.
Proof.
  intros Hb.
  destruct (getMonday_value t) as (m & Hm & Hw & Hmid & Hle);
    [unfold maxTime, msPerDay in *; lia|].
  exists m. split; [exact Hm|]. split; [exact Hw|]. split; [exact Hmid|].
  split; [exact Hle|]. split.
  - unfold getSunday. rewrite Hm. apply sundayAfter_midnight; [done|].
    unfold maxTime, msPerDay in *. lia.
  - unfold weekDay in *. pose proof (Day_time m) as Ht. rewrite Hmid in Ht.
    fold (Day m) in Hw. fold (Day (m + 7 * msPerDay - 1)).
    replace (m + 7 * msPerDay - 1) with ((Day m + 6) * msPerDay + (msPerDay - 1))
      by (unfold msPerDay in *; lia).
    rewrite Day_within by (unfold msPerDay; lia).
    pose proof (Z.div_mod (Day m + 4) 7 ltac:(lia)) as H.
    replace (Day m + 6 + 4) with (0 + ((Day m + 4) / 7 + 1) * 7) by lia.
    by rewrite Z.mod_add by lia.
Qed.

(** Wednesday 15 January 2025, 12:34: its week begins on Monday 6 January
    and ends with Sunday 12 January. *)
Lemma getMonday_week_witness :
  ∃ m, getMonday (Some 1736944440000) = Some m
       ∧ weekDay m = 1 ∧ TimeWithinDay m = 0
       ∧ m ≤ 1736944440000 < m + 7 * msPerDay
       ∧ getSunday (Some 1736944440000) = Some (m + 7 * msPerDay - 1)
       ∧ weekDay (m + 7 * msPerDay - 1) = 0.
Proof. apply (getMonday_week 1736944440000). vm_compute. discriminate. Defined.

(** the range of the previous week, field by field *)
Lemma previousWeek_value (t : Z) :
  Z.abs t ≤ maxTime - 14 * msPerDay →
  ∃ m, getPreviousWeekRange (Some t)
       = {| start := Some m;
            end_ := Some (m + 7 * msPerDay - 1);
            label := "Week of " +:+ formatDate (Some m) |}
       ∧ weekDay m = 1 ∧ TimeWithinDay m = 0
       ∧ m + 7 * msPerDay ≤ t < m + 14 * msPerDay
       ∧ getMonday (Some t) = Some (m + 7 * msPerDay).
Proof.
  intros Hb.
  destruct (getMonday_value t) as (cm & Hcm & Hw & Hmid & Hle);
    [unfold maxTime, msPerDay in *; lia|].
  assert (setDate (Some cm) (getDate cm - 7) = Some (cm - 7 * msPerDay)) as Hprev.
  { replace (getDate cm - 7) with (getDate cm + -7) by lia.
    rewrite setDate_getDate. rewrite TimeClip_ok by (unfold maxTime, msPerDay in *; lia).
    f_equal; lia. }
  assert (TimeWithinDay (cm - 7 * msPerDay) = 0) as Hmid'.
  { unfold TimeWithinDay, msPerDay in *.
    replace (cm - 7 * 86400000) with (cm + -7 * 86400000) by lia.
    by rewrite Z.mod_add by lia. }
  assert (sundayAfter (Some (cm - 7 * msPerDay))
          = Some (cm - 7 * msPerDay + 7 * msPerDay - 1)) as Hsun.
  { apply sundayAfter_midnight; [done|]. unfold maxTime, msPerDay in *. lia. }
  exists (cm - 7 * msPerDay).
  unfold getPreviousWeekRange. cbv zeta. rewrite Hcm, Hprev, Hsun.
  split; [done|]. split; [|split; [exact Hmid'|]].
  - unfold weekDay in *. fold (Day cm) in Hw. fold (Day (cm - 7 * msPerDay)).
    replace (cm - 7 * msPerDay) with (cm + -7 * msPerDay) by lia.
    rewrite Day_add. replace (Day cm + -7 + 4) with (Day cm + -1 * 7 + 4) by lia.
    by rewrite weekDay_shift.
  - split; [unfold msPerDay in *; lia|]. f_equal; lia.
Qed.

(** X16.  For a reference date at least two weeks inside the range of
    time values, [getPreviousWeekRange] gives the week before the week of
    the reference date: it starts at the midnight that begins a Monday,
    seven days before the Monday of the reference date, and ends with the
    last millisecond of the following Sunday, so that the reference date
    lies in the seven days after its end; its label is "Week of " followed
    by the formatted start. *)
Theorem getPreviousWeekRange_week (t : Z) :
  Z.abs t ≤ maxTime - 14 * msPerDay →
  let range := getPreviousWeekRange (Some t) in
  ∃ m, start range = Some m
       ∧ end_ range = Some (m + 7 * msPerDay - 1)
       ∧ weekDay m = 1 ∧ TimeWithinDay m = 0
       ∧ m + 7 * msPerDay ≤ t < m + 14 * msPerDay
       ∧ getMonday (Some t) = Some (m + 7 * msPerDay)
       ∧ label range = "Week of " +:+ formatDate (Some m).
Proof.
  intros Hb range.
  destruct (previousWeek_value t Hb) as (m & Hrange & Hw & Hmid & Hle & Hcm).
  exists m. unfold range. rewrite Hrange. cbn [start end_ label].
  split; [done|]. split; [done|]. split; [done|]. split; [done|].
  split; [done|]. by split.
Qed.

(** A run on Wednesday 15 January 2025 reports the week that starts on
    Monday 6 January. *)
Lemma getPreviousWeekRange_week_witness :
  ∃ m, start (getPreviousWeekRange (Some 1736944440000)) = Some m
       ∧ end_ (getPreviousWeekRange (Some 1736944440000)) = Some (m + 7 * msPerDay - 1)
       ∧ weekDay m = 1 ∧ TimeWithinDay m = 0
       ∧ m + 7 * msPerDay ≤ 1736944440000 < m + 14 * msPerDay
       ∧ getMonday (Some 1736944440000) = Some (m + 7 * msPerDay)
       ∧ label (getPreviousWeekRange (Some 1736944440000))
         = "Week of " +:+ formatDate (Some m).
Proof. apply (getPreviousWeekRange_week 1736944440000). vm_compute. discriminate. Defined.

Lemma replaceFirst_prefix (pat s : string) : replaceFirst pat "" (pat +:+ s) = s.
Proof.
  assert (String.prefix pat (pat +:+ s) = true) as Hp.
  { induction pat as [|c pat IH]; [by destruct s|].
    rewrite app_String. cbn [String.prefix]. by destruct (ascii_dec c c). }
  assert (sdrop (String.length pat) (pat +:+ s) = s) as Hd.
  { clear Hp. induction pat as [|c pat IH]; [done|].
    rewrite app_String. cbn [String.length sdrop]. exact IH. }
  destruct (pat +:+ s) eqn:E; cbn [replaceFirst]; rewrite Hp, Hd; done.
Qed.

Lemma hyphensToUnderscores_without (s : string) : without "-" (hyphensToUnderscores s).
Proof.
  unfold without, hyphensToUnderscores. induction s as [|c s IH]; [done|].
  cbn [smap sall]. rewrite IH, andb_true_r.
  destruct (decide (c = "-"%char)) as [Hc|Hc].
  - by rewrite (bool_decide_eq_true_2 _ Hc).
  - rewrite (bool_decide_eq_false_2 _ Hc). by rewrite (bool_decide_eq_false_2 _ Hc).
Qed.

(** X17.  [getWeekRangeFromMonday] throws exactly when the text is not
    read by [parseDate] as a Monday.  Otherwise the range starts at the
    midnight of that Monday and is labelled "Week of " followed by the
    formatted Monday; and, unless the Monday is in the last week of the
    range of time values, the range ends with the last millisecond of the
    following Sunday, it contains the Monday itself, and the date texts it
    contains are those that [parseDate] reads as one of the seven days from
    that Monday on. *)
Theorem getWeekRangeFromMonday_week (mondayStr : string) :
  (getWeekRangeFromMonday mondayStr = None
   ↔ ∀ m, parseDate mondayStr = Some m → weekDay m ≠ 1)
  ∧ (∀ range, getWeekRangeFromMonday mondayStr = Some range →
       ∃ m, parseDate mondayStr = Some m
            ∧ weekDay m = 1 ∧ TimeWithinDay m = 0
            ∧ start range = Some m
            ∧ label range = "Week of " +:+ formatDate (Some m)
            ∧ (m ≤ maxTime - 7 * msPerDay →
               end_ range = Some (m + 7 * msPerDay - 1)
               ∧ isDateInRange mondayStr range = true
               ∧ ∀ dateStr,
                   isDateInRange dateStr range = true
                   ↔ ∃ k, 0 ≤ k ≤ 6 ∧ parseDate dateStr = Some (m + k * msPerDay))).
Proof.
  unfold getWeekRangeFromMonday. split.
  - destruct (parseDate mondayStr) as [m|]; [|done].
    case_bool_decide as Hw.
    + split; [done|]. intros H. by destruct (H m).
    + split; [|done]. by intros _ m' [= <-].
  - intros range. destruct (parseDate mondayStr) as [m|] eqn:Hm; [|done].
    case_bool_decide as Hw; [|done]. intros E. apply (inj Some) in E. subst range.
    destruct (parseDate_midnight _ _ Hm) as [Hmid Hb].
    exists m. cbn [start end_ label].
    split; [done|]. split; [done|]. split; [done|]. split; [done|]. split; [done|].
    intros Hlast.
    assert (sundayAfter (Some m) = Some (m + 7 * msPerDay - 1)) as Hsun.
    { apply sundayAfter_midnight; [done|]. unfold maxTime, msPerDay in *. lia. }
    rewrite Hsun. split; [done|].
    unfold isDateInRange. cbv zeta. cbn [start end_]. split.
    + rewrite Hm. unfold dateGe, dateLe.
      apply andb_true_iff. split; apply Z.leb_le; unfold msPerDay; lia.
    + intros dateStr. destruct (parseDate dateStr) as [u|] eqn:Hu.
      * destruct (parseDate_midnight _ _ Hu) as [Hmid' _].
        pose proof (Day_time u) as Du. pose proof (Day_time m) as Dm.
        rewrite Hmid' in Du. rewrite Hmid in Dm.
        unfold dateGe, dateLe. rewrite andb_true_iff, !Z.leb_le. split.
        -- intros [H1 H2]. exists (Day u - Day m).
           split; [unfold msPerDay in *; lia|]. f_equal. lia.
        -- intros (k & Hk & [= ->]). unfold msPerDay in *. lia.
      * split; [done|]. by intros (k & _ & ?).
Qed.

(** The week of Monday 6 January 2025 contains Wednesday 8 January. *)
Lemma getWeekRangeFromMonday_week_witness :
  isDateInRange "2025-01-08" sampleWeek = true
  ↔ ∃ k, 0 ≤ k ≤ 6 ∧ parseDate "2025-01-08" = Some (1736121600000 + k * msPerDay).
Proof.
  destruct (proj2 (getWeekRangeFromMonday_week "2025-01-06") sampleWeek)
    as (m & Hm & _ & _ & _ & _ & Hin); [vm_compute; reflexivity|].
  assert (m = 1736121600000) as -> by (vm_compute in Hm; congruence).
  apply Hin. vm_compute. discriminate.
Defined.

(** X18.  The files of a run are named after the Monday of the week: for a
    range built by [getPreviousWeekRange] or [getWeekRangeFromMonday], the
    label is "Week of " followed by the formatted start; the name that
    [generateFilename] makes from the label is the prefix, an underscore,
    the formatted start with every hyphen replaced by an underscore, a dot
    and the extension; [getDateRangeFilename] gives "week_" followed by the
    same date part, which contains no hyphen; and the S3 key prefix is
    "newhomeowners/", the county in lower case and the formatted start with
    slashes for hyphens, each followed by a slash. *)
Theorem week_file_names :
  (∀ referenceDate,
      label (getPreviousWeekRange referenceDate)
      = "Week of " +:+ formatDate (start (getPreviousWeekRange referenceDate)))
  ∧ (∀ mondayStr range,
        getWeekRangeFromMonday mondayStr = Some range →
        label range = "Week of " +:+ formatDate (start range))
  ∧ (∀ range prefix extension countyName,
        label range = "Week of " +:+ formatDate (start range) →
        generateFilename prefix (label range) extension
        = prefix +:+ "_" +:+ hyphensToUnderscores (formatDate (start range))
          +:+ "." +:+ extension
        ∧ getDateRangeFilename range
          = "week_" +:+ hyphensToUnderscores (formatDate (start range))
        ∧ without "-" (hyphensToUnderscores (formatDate (start range)))
        ∧ generateS3KeyPrefix countyName (label range)
          = "newhomeowners/" +:+ toLowerCase countyName +:+ "/"
            +:+ hyphensToSlashes (formatDate (start range)) +:+ "/").
Proof.
  split; [done|]. split.
  - intros mondayStr range. unfold getWeekRangeFromMonday.
    destruct (parseDate mondayStr) as [m|]; [|done].
    case_bool_decide; [|done]. intros E. apply (inj Some) in E. by subst range.
  - intros range prefix extension countyName Hl.
    split; [|split; [done|split]].
    + unfold generateFilename. cbv zeta. by rewrite Hl, replaceFirst_prefix.
    + apply hyphensToUnderscores_without.
    + unfold generateS3KeyPrefix. cbv zeta. by rewrite Hl, replaceFirst_prefix.
Qed.

(** The cleaned CSV and the S3 prefix of the week of 6 January 2025. *)
Lemma week_file_names_witness :
  generateFilename "cleaned_sales" (label sampleWeek) "csv" = "cleaned_sales_2025_01_06.csv"
  ∧ getDateRangeFilename sampleWeek = "week_2025_01_06"
  ∧ generateS3KeyPrefix "Tipton" (label sampleWeek) = "newhomeowners/tipton/2025/01/06/".
Proof.
  destruct (proj2 (proj2 week_file_names) sampleWeek "cleaned_sales" "csv" "Tipton")
    as (Hname & Hweek & _ & Hkey); [vm_compute; reflexivity|].
  rewrite Hname, Hweek, Hkey. vm_compute. repeat split; reflexivity.
Defined.

(** ** A run whose detail fetches all fail *)

(** a search-result stub carries no price, so that the filter rejects it
    under a positive minimum price *)
Lemma stub_rejected (config : ExtractorConfig) (dateRange : DateRange)
    (row : SearchResultRow) (county : string) :
  lt (ofZ 0) (minSalePrice config) = true →
  firstFailure config dateRange (searchResultToRawRecord row county) ≠ None.
Proof.
  intros Hmin Hnone. apply firstFailure_None in Hnone. unfold checks in Hnone.
  repeat (apply Forall_cons in Hnone as [? Hnone]). cbn [fst] in *.
  unfold priceTooLow, searchResultToRawRecord in *. cbn [sale_price] in *.
  change (parseSalePrice "") with (ofZ 0) in *. congruence.
Qed.

(** X19.  Under a positive minimum sale price, a search-result stub never
    passes the filter, since it carries no price; so a run in which every
    detail fetch fails (is rejected or gives null) delivers no sale at all,
    whatever rows the search returned. *)
Theorem degraded_run_delivers_nothing
    (numberToString : number → string) (clock : nat → string)
    (dateFromString : string → Date) (fetch : string → string → Settled)
    (config : ExtractorConfig) (dateRange : DateRange)
    (firstPage : list SearchResultRow) (nextPages : list (list SearchResultRow)) :
  lt (ofZ 0) (minSalePrice config) = true →
  (∀ row, rejection config dateRange (searchResultToRawRecord row (countyCode config))
          ≠ None)
  ∧ (Forall (fetchFailed fetch)
            (parcelUrls (collectPages (countyCode config) (firstPage :: nextPages))) →
     cleanSales numberToString clock config dateRange
       (rawRecords (extract dateFromString fetch config dateRange firstPage nextPages))
     = []).
Proof.
  intros Hmin. split.
  - intros row. rewrite rejection_firstFailure. by apply stub_rejected.
  - intros Hfail.
    destruct (cleanSales_origin numberToString clock config dateRange
                (rawRecords (extract dateFromString fetch config dateRange
                               firstPage nextPages))) as (Hfrom & _).
    destruct (cleanSales _ _ _ _ _) as [|sale sales] eqn:E; [done|]. exfalso.
    destruct (Hfrom sale) as (_ & i & raw & Hraw & Hok & _); [left|].
    destruct (extract_failed_stubs dateFromString fetch config dateRange
                firstPage nextPages Hfail raw Hraw) as (row & _ & ->).
    by apply (stub_rejected config dateRange row (countyCode config)).
Qed.

(** The sample page with every detail fetch rejected: nothing is
    delivered. *)
Lemma degraded_run_delivers_nothing_witness :
  cleanSales renderNumber (λ _, "2025-01-13T06:00:00.000Z") sampleConfig sampleWeek
    (rawRecords (extract dateFromISO (λ _ _, Rejected {| message := "Target closed" |})
                   sampleConfig sampleWeek
                   [ sampleRow "067 053.08 000" "./Parcel/Details?parcelId=1";
                     sampleRow "067 054.00 000" "./Parcel/Details?parcelId=2" ] []))
  = [].
Proof.
  apply (degraded_run_delivers_nothing renderNumber (λ _, "2025-01-13T06:00:00.000Z")
           dateFromISO (λ _ _, Rejected {| message := "Target closed" |})
           sampleConfig sampleWeek).
  - vm_compute. reflexivity.
  - repeat constructor.
Defined.

(** ** Owner names *)

Section CharFacts.

Variable p : ascii → bool.

Lemma sall_sfilter (s : string) : sall p (sfilter p s) = true.
  Proof.
    induction s as [|c s IH]; [done|]. cbn [sfilter].
    destruct (p c) eqn:Hc; [|exact IH]. cbn [sall]. by rewrite Hc, IH.
  Qed.

Lemma sfilter_fixed (s : string) : sall p s = true → sfilter p s = s.
  Proof.
    induction s as [|c s IH]; [done|]. cbn [sall sfilter].
    intros [Hc Hs]%andb_true_iff. by rewrite Hc, IH.
  Qed.

Lemma sall_trimStart (s : string) : sall p s = true → sall p (trimStart s) = true.
  Proof.
    induction s as [|c s IH]; [done|]. intros H. cbn [trimStart].
    destruct (isSpace c); [|exact H]. cbn [sall] in H.
    apply andb_true_iff in H as [_ H]. by apply IH.
  Qed.

Lemma sall_trimEnd (s : string) : sall p s = true → sall p (trimEnd s) = true.
  Proof.
    induction s as [|c s IH]; [done|]. cbn [sall trimEnd].
    intros [Hc Hs]%andb_true_iff. destruct (isSpace c && eqs (trimEnd s) ""); [done|].
    cbn [sall]. by rewrite Hc, IH.
  Qed.

Lemma sall_trim (s : string) : sall p s = true → sall p (trim s) = true.
  Proof. intros H. unfold trim. by apply sall_trimEnd, sall_trimStart. Qed.

Lemma sall_collapseFrom (inrun : bool) (s : string) :
    p " "%char = true → sall p s = true → sall p (collapseFrom inrun s) = true.
  Proof.
    intros Hsp. revert inrun. induction s as [|c s IH]; intros inrun; [done|].
    cbn [sall collapseFrom]. intros [Hc Hs]%andb_true_iff.
    destruct (isSpace c).
    - destruct inrun; [by apply IH|]. cbn [sall]. by rewrite Hsp, IH.
    - cbn [sall]. by rewrite Hc, IH.
  Qed.

End CharFacts.

(** X20.  [cleanOwnerName] returns only characters that it allows in a name
    (letters, digits, underscore, white space and , . ' & -).  On a name
    made of such characters it only trims and collapses white space, giving
    a text without white space at either end and with single blanks inside.
    The removal of other characters comes last, so one cleaning can leave
    white space that a second cleaning removes; a third cleaning never
    changes anything. *)
Theorem cleanOwnerName_characters (name : string) :
  sall nameChar (cleanOwnerName name) = true
  ∧ (sall nameChar name = true →
     cleanOwnerName name = collapseSpaces (trim name) ∧ tidy (cleanOwnerName name))
  ∧ tidy (cleanOwnerName (cleanOwnerName name))
  ∧ cleanOwnerName (cleanOwnerName (cleanOwnerName name))
    = cleanOwnerName (cleanOwnerName name)
  ∧ cleanOwnerName "DOE # JOHN" = "DOE  JOHN"
  ∧ cleanOwnerName "DOE  JOHN" = "DOE JOHN".
Proof.
  assert (∀ s, sall nameChar (cleanOwnerName s) = true) as Hchars.
  { intros s. unfold cleanOwnerName. destruct (negb (truthy s)); [done|].
    apply sall_sfilter. }
  assert (∀ s, sall nameChar s = true →
               cleanOwnerName s = collapseSpaces (trim s) ∧ tidy (cleanOwnerName s))
    as Hclean.
  { intros s Hs.
    assert (cleanOwnerName s = collapseSpaces (trim s)) as E.
    { unfold cleanOwnerName. destruct (truthy s) eqn:Ht; cbn [negb].
      - apply sfilter_fixed. unfold collapseSpaces.
        apply sall_collapseFrom; [done|]. by apply sall_trim.
      - apply truthy_false in Ht. by subst s. }
    split; [exact E|]. rewrite E. apply tidy_collapse_trim. }
  split; [apply Hchars|]. split; [apply Hclean|].
  destruct (Hclean (cleanOwnerName name) (Hchars name)) as [E Ht].
  split; [exact Ht|]. split; [|split; vm_compute; reflexivity].
  destruct (Hclean (cleanOwnerName (cleanOwnerName name)) (Hchars _)) as [E' _].
  rewrite E'. by apply tidy_fixed.
Qed.

(** A name with surplus white space. *)
Lemma cleanOwnerName_characters_witness :
  cleanOwnerName "  DOE,   JOHN & JANE " = collapseSpaces (trim "  DOE,   JOHN & JANE ")
  ∧ tidy (cleanOwnerName "  DOE,   JOHN & JANE ").
Proof.
  apply (proj1 (proj2 (cleanOwnerName_characters "  DOE,   JOHN & JANE "))).
  vm_compute. reflexivity.
Defined.

(** ** The classifier of retryable errors *)

Lemma prefix_app (a b : string) : String.prefix a (a +:+ b) = true.
Proof.
  induction a as [|c a IH]; [by destruct b|].
  rewrite app_String. cbn [String.prefix]. by destruct (ascii_dec c c).
Qed.

Lemma includes_here (s needle : string) :
  String.prefix needle s = true → includes s needle = true.
Proof. intros H. destruct s; cbn [includes]; by rewrite H. Qed.

Lemma includes_app (a b c : string) : includes (a +:+ b +:+ c) b = true.
Proof.
  induction a as [|x a IH].
  - apply includes_here. change ("" +:+ b +:+ c) with (b +:+ c). apply prefix_app.
  - rewrite app_String. cbn [includes]. rewrite IH. apply orb_true_r.
Qed.

Lemma smap_app (f : ascii → ascii) (a b : string) :
  smap f (a +:+ b) = smap f a +:+ smap f b.
Proof.
  induction a as [|c a IH]; [done|].
  rewrite app_String. cbn [smap]. by rewrite IH, app_String.
Qed.

(** X21.  [isNetworkRetryable] accepts an error exactly when its message,
    in lower case, contains one of the nine phrases in lower case; so the
    answer does not depend on the letter case of the message (ASCII
    letters), and a message that contains one of the phrases, whatever
    surrounds it, is accepted. *)
Theorem isNetworkRetryable_phrases (error : Error) :
  (isNetworkRetryable error = true
   ↔ ∃ phrase, phrase ∈ retryableMessages
               ∧ includes (toLowerCase (message error)) (toLowerCase phrase) = true)
  ∧ isNetworkRetryable {| message := toUpperCase (message error) |}
    = isNetworkRetryable error
  ∧ isNetworkRetryable {| message := toLowerCase (message error) |}
    = isNetworkRetryable error
  ∧ (∀ phrase before after,
       phrase ∈ retryableMessages →
       isNetworkRetryable {| message := before +:+ phrase +:+ after |} = true
       ∧ isNetworkRetryable {| message := before +:+ toUpperCase phrase +:+ after |}
         = true).
Proof.
  assert (∀ e, isNetworkRetryable e = true
               ↔ ∃ phrase, phrase ∈ retryableMessages
                           ∧ includes (toLowerCase (message e)) (toLowerCase phrase) = true)
    as Hiff.
  { intros e. unfold isNetworkRetryable. cbv zeta. rewrite existsb_exists. split.
    - intros (phrase & Hin%list_elem_of_In & H). by exists phrase.
    - intros (phrase & Hin%list_elem_of_In & H). by exists phrase. }
  split; [apply Hiff|]. split; [|split].
  - unfold isNetworkRetryable. cbn [message]. by rewrite toLowerCase_toUpperCase.
  - unfold isNetworkRetryable. cbn [message]. by rewrite toLowerCase_idempotent.
  - intros phrase before after Hin. split; apply Hiff; exists phrase; cbn [message].
    + split; [done|]. unfold toLowerCase. rewrite !smap_app. apply includes_app.
    + split; [done|]. unfold toLowerCase at 1. rewrite !smap_app.
      fold (toLowerCase (toUpperCase phrase)). rewrite toLowerCase_toUpperCase.
      apply includes_app.
Qed.

(** A message of the browser driver that contains "Target closed". *)
Lemma isNetworkRetryable_phrases_witness :
  isNetworkRetryable
    {| message := "page.goto: " +:+ "Target closed" +:+ " (navigating)" |} = true.
Proof.
  apply (proj2 (proj2 (proj2 (isNetworkRetryable_phrases {| message := "" |})))
           "Target closed" "page.goto: " " (navigating)").
  apply (bool_decide_unpack _). vm_compute. exact I.
Defined.

(** ** The qualification code *)

Lemma trim_String (c : ascii) (s : string) :
  isSpace c = false → trim (String c s) = String c (trimEnd s).
Proof. intros H. unfold trim. cbn [trimStart]. rewrite H. cbn [trimEnd]. by rewrite H. Qed.

(** X22.  [isQualifiedSale] reads the code without regard to white space
    around it and to letter case (ASCII letters); it accepts every code
    that begins with the letter A, and it rejects the codes that the filter
    takes for a negative qualified-sale flag (n, no, false, 0). *)
Theorem isQualifiedSale_codes (qualificationStr : string) :
  isQualifiedSale (trim qualificationStr) = isQualifiedSale qualificationStr
  ∧ isQualifiedSale (toLowerCase qualificationStr) = isQualifiedSale qualificationStr
  ∧ isQualifiedSale (toUpperCase qualificationStr) = isQualifiedSale qualificationStr
  ∧ isQualifiedSale ("A" +:+ qualificationStr) = true
  ∧ isQualifiedSale ("a" +:+ qualificationStr) = true
  ∧ (∀ record, qualified_sale record = qualificationStr →
               qualifiedNegative record = true →
               isQualifiedSale qualificationStr = false).
Proof.
  unfold isQualifiedSale. cbv zeta.
  split; [by rewrite trim_trim|].
  split; [by rewrite trim_toLowerCase, toUpperCase_toLowerCase|].
  split; [by rewrite trim_toUpperCase, toUpperCase_idempotent|].
  split.
  { rewrite app_single, trim_String by done. unfold toUpperCase, startsWith.
    cbn [smap String.prefix]. change (toUpper "A"%char) with "A"%char.
    destruct (ascii_dec "A" "A"); [|done].
    generalize (smap toUpper (trimEnd qualificationStr)). by intros [|? ?]. }
  split.
  { rewrite app_single, trim_String by done. unfold toUpperCase, startsWith.
    cbn [smap String.prefix]. change (toUpper "a"%char) with "A"%char.
    destruct (ascii_dec "A" "A"); [|done].
    generalize (smap toUpper (trimEnd qualificationStr)). by intros [|? ?]. }
  intros record <-. unfold qualifiedNegative. cbv zeta.
  intros [_ H]%andb_true_iff. rewrite trim_toLowerCase in H.
  rewrite <- (toUpperCase_toLowerCase (trim (qualified_sale record))).
  repeat (apply orb_true_iff in H as [H|H]);
    apply eqs_true in H; rewrite H; reflexivity.
Qed.

(** The flag "No" of a record is negative for the filter and not an
    accepted code. *)
Lemma isQualifiedSale_codes_witness : isQualifiedSale " No " = false.
Proof.
  apply (proj2 (proj2 (proj2 (proj2 (proj2 (isQualifiedSale_codes " No ")))))
           {| parcel_id := ""; owner_name := ""; property_address := ""; city := "";
              zip := ""; classification := ""; land_use := ""; acreage := "";
              assessed_value := ""; sale_date := ""; sale_price := "";
              deed_instrument := ""; qualified_sale := " No "; source_url := "" |});
    reflexivity.
Defined.

(** ** Configuration *)

Lemma lt_ofZ (a b : Z) : lt (ofZ a) (ofZ b) = bool_decide (a < b).
Proof.
  unfold lt, ofZ. apply bool_decide_ext. unfold Qclt, Qc_of_Z. cbn [this Q2Qc].
  by rewrite <- Zlt_Qlt.
Qed.

Lemma numberOfInteger_cases (n : Z) :
  isInteger (numberOfInteger n)
  ∨ numberOfInteger n = PInf ∨ numberOfInteger n = NInf.
Proof.
  unfold numberOfInteger. cbv zeta.
  destruct (Z.abs n <? 2 ^ 53); [left; by eexists|].
  destruct (2 ^ 1024 <=? _).
  - right. destruct (n <? 0); [by right|by left].
  - left. by eexists.
Qed.

(** below 2^53 in magnitude an integer is its own Number value *)
Lemma numberOfInteger_exact (n : Z) :
  Z.abs n < 2 ^ 53 → numberOfInteger n = ofZ n.
Proof.
  intros H. unfold numberOfInteger. cbv zeta.
  apply Z.ltb_lt in H. by rewrite H.
Qed.

Lemma parseInt_cases (value : option string) (fallback : Z) :
  isInteger (parseInt value (ofZ fallback))
  ∨ parseInt value (ofZ fallback) = PInf ∨ parseInt value (ofZ fallback) = NInf.
Proof.
  unfold parseInt. destruct value as [v|]; [|left; by exists fallback].
  destruct (eqs v ""); [left; by exists fallback|]. cbv zeta.
  unfold parseIntDecimal.
  destruct (scanSign (trimStart v)) as [minus rest].
  destruct (takeDigits rest) as [ds r].
  destruct (eqs ds ""); cbn [isNaN]; [left; by exists fallback|].
  destruct (numberOfInteger_cases (if minus then - digitsValue ds else digitsValue ds))
    as [[n Hn]|[Hn|Hn]]; rewrite Hn; cbn [isNaN ofZ].
  - left. by exists n.
  - right. by left.
  - right. by right.
Qed.

Lemma includes_empty (s : string) : includes s "" = true.
Proof. by destruct s. Qed.

Lemma parseList_no_empty (value : option string) (fallback : list string) :
  "" ∉ fallback → "" ∉ parseList value fallback.
Proof.
  intros Hdef. unfold parseList. destruct value as [v|]; [|done].
  destruct (negb (truthy v) || eqs (trim v) ""); [done|].
  intros Hin%list_elem_of_In%filter_In. by destruct Hin as [_ ?].
Qed.

(** X23.  Settings loaded from the environment that [validateConfig]
    accepts: [concurrency] is a whole number from 1 to 10, so that the
    batches of detail fetches advance; the minimum price is a whole number,
    not negative, or else Infinity, which is what a MIN_SALE_PRICE of a 1
    and 309 zeros is read as, and is accepted; the instrument denylist does
    not contain the empty term, which would deny every instrument; and,
    when e-mail is required, the API key and the recipient are not empty.
    The denylist is free of the empty term whatever the environment
    holds. *)
Theorem validated_settings (env : string → option string) (requireEmail : bool) :
  let settings := loadConfig env in
  ("" ∉ st_instrumentDenylist settings)
  ∧ (∀ instrument denylist,
       "" ∈ denylist → instrument ≠ "" → isDeniedInstrument instrument denylist = true)
  ∧ (validateConfig settings requireEmail = [] →
     (∃ fetches : positive,
        st_concurrency settings = ofZ (Z.pos fetches) ∧ (fetches ≤ 10)%positive
        ∧ concurrency (asExtractorConfig settings fetches) = fetches)
     ∧ ((∃ price : Z, st_minSalePrice settings = ofZ price ∧ 0 ≤ price)
        ∨ st_minSalePrice settings = PInf)
     ∧ (requireEmail = true →
        st_sendgridApiKey settings ≠ "" ∧ st_emailTo settings ≠ ""))
  ∧ st_minSalePrice (loadConfig (setting "MIN_SALE_PRICE" ("1" +:+ zeros 309))) = PInf
  ∧ validateConfig (loadConfig (setting "MIN_SALE_PRICE" ("1" +:+ zeros 309))) false = []
  ∧ st_minSalePrice (loadConfig (setting "MIN_SALE_PRICE" "9007199254740993"))
    = ofZ 9007199254740992.
Proof.
  intros settings. split; [|split; [|split]].
  - apply parseList_no_empty. intros Hin. apply (bool_decide_pack _) in Hin. done.
  - intros instrument denylist Hin Hne. unfold isDeniedInstrument.
    apply truthy_true in Hne. rewrite Hne. cbn [negb]. apply existsb_exists.
    exists "". split; [by apply list_elem_of_In|]. apply includes_empty.
  - unfold validateConfig. cbv zeta.
    change (st_concurrency settings) with (parseInt (env "CONCURRENCY") (ofZ 3)).
    change (st_minSalePrice settings) with (parseInt (env "MIN_SALE_PRICE") (ofZ 100000)).
    set (errors := if requireEmail then _ else _).
    assert (∀ (l : list string) x, l ++ [x] ≠ []) as Hsnoc.
    { intros l x H. by apply app_eq_nil in H as [_ ?]. }
    assert (∀ (b : bool) (l : list string) x,
              (if b then l ++ [x] else l) = [] → b = false ∧ l = []) as Hif.
    { intros [|] l x H; [by apply Hsnoc in H|done]. }
    intros Hnone. apply Hif in Hnone as [Hprice Hnone].
    apply Hif in Hnone as [Hfetches Herr].
    apply orb_false_iff in Hfetches as [Hlow Hhigh].
    split; [|split].
    + destruct (parseInt_cases (env "CONCURRENCY") 3) as [[c Hc]|[Hc|Hc]];
        rewrite Hc in Hlow, Hhigh |- *; [|done|done].
      unfold gt in Hhigh. rewrite lt_ofZ in Hlow, Hhigh.
      apply bool_decide_eq_false in Hlow, Hhigh.
      exists (Z.to_pos c). rewrite Z2Pos.id by lia. split; [done|]. split; [lia|done].
    + destruct (parseInt_cases (env "MIN_SALE_PRICE") 100000) as [[p Hp]|[Hp|Hp]];
        rewrite Hp in Hprice |- *; [|by right|done].
      rewrite lt_ofZ in Hprice. apply bool_decide_eq_false in Hprice.
      left. exists p. split; [done|lia].
    + intros ->. unfold errors in Herr.
      destruct (truthy (st_sendgridApiKey settings)) eqn:Hkey; cbn [negb] in Herr.
      * destruct (truthy (st_emailTo settings)) eqn:Hto; cbn [negb] in Herr.
        -- split; by apply truthy_true.
        -- by apply Hsnoc in Herr.
      * destruct (truthy (st_emailTo settings)); cbn [negb] in Herr;
          [|apply app_eq_nil in Herr as [Herr _]]; by apply Hsnoc in Herr.
  - split; [vm_compute; reflexivity|]. split; [vm_compute; reflexivity|].
    apply (bool_decide_unpack _). vm_compute. exact I.
Qed.

(** An environment that sets the concurrency to 5 and nothing else, in a
    dry run. *)
Lemma validated_settings_witness :
  ∃ fetches : positive,
    st_concurrency (loadConfig (setting "CONCURRENCY" "5")) = ofZ (Z.pos fetches)
    ∧ (fetches ≤ 10)%positive
    ∧ concurrency (asExtractorConfig (loadConfig (setting "CONCURRENCY" "5")) fetches)
      = fetches.
Proof.
  apply (proj1 (proj2 (proj2 (validated_settings (setting "CONCURRENCY" "5") false)))).
  vm_compute. reflexivity.
Defined.

(** ** Date texts *)

Lemma civilBack_era (yoe m0 d : Z) :
  0 ≤ yoe < 400 → 0 ≤ m0 < 12 → 1 ≤ d < 32 → civilBackCheck yoe m0 d = true.
Proof.
  assert (allFrom (λ yoe, allFrom (λ m0, allFrom (civilBackCheck yoe m0) 1 31) 0 12)
                  0 400 = true) as H by (vm_compute; reflexivity).
  intros Hy Hm Hd.
  apply (allFrom_spec _ _ _ yoe) in H; [|lia].
  apply (allFrom_spec _ _ _ m0) in H; [|lia].
  apply (allFrom_spec _ _ _ d) in H; [done|lia].
Qed.

Lemma leapYear_era (y k : Z) : leapYear (y + k * 400) = leapYear y.
Proof.
  unfold leapYear.
  replace (y + k * 400) with (y + (k * 100) * 4) at 1 by lia.
  replace (y + k * 400) with (y + (k * 4) * 100) at 1 by lia.
  by rewrite !Z.mod_add by lia.
Qed.

(** the date read from the day number of a date of the calendar is that
    date *)
Lemma civil_forward (y m0 d : Z) :
  0 ≤ m0 < 12 → 1 ≤ d ≤ daysInMonth y (m0 + 1) →
  civilFromDay (dayFromYearMonth y m0 + d - 1) = (y, m0, d).
Proof.
  intros Hm Hd.
  set (y' := if m0 <? 2 then y - 1 else y).
  set (era := y' / 400).
  set (yoe := y' - era * 400).
  assert (0 ≤ yoe < 400) as Hyoe.
  { unfold yoe, era. pose proof (Z.mod_pos_bound y' 400 ltac:(lia)) as H.
    rewrite Z.mod_eq in H by lia. lia. }
  assert (d < 32) as Hd32.
  { unfold daysInMonth in Hd. destruct (m0 + 1 =? 2); [destruct (leapYear y); lia|].
    destruct (_ || _); lia. }
  pose proof (civilBack_era yoe m0 d Hyoe Hm ltac:(lia)) as Hc.
  unfold civilBackCheck in Hc. cbv zeta in Hc.
  assert (daysInMonth (yoe + 400 + (if m0 <? 2 then 1 else 0)) (m0 + 1)
          = daysInMonth y (m0 + 1)) as Hdim.
  { unfold daysInMonth. destruct (m0 + 1 =? 2); [|done].
    replace (yoe + 400 + (if m0 <? 2 then 1 else 0)) with (y + (1 - era) * 400)
      by (unfold yoe, y'; destruct (m0 <? 2); lia).
    by rewrite leapYear_era. }
  rewrite Hdim in Hc.
  rewrite (proj2 (Z.leb_le 1 d)) in Hc by lia.
  rewrite (proj2 (Z.leb_le d _)) in Hc by lia. cbn [andb] in Hc.
  set (mp := if m0 <? 2 then m0 + 10 else m0 - 2) in *.
  set (doe := yoe * 365 + yoe / 4 - yoe / 100 + (153 * mp + 2) / 5 + d - 1) in *.
  repeat (apply andb_true_iff in Hc as [Hc ?]).
  assert (dayFromYearMonth y m0 + d - 1 + 719468 = doe + era * 146097) as Hz.
  { unfold dayFromYearMonth. cbv zeta. fold y'. fold era. fold yoe. fold mp.
    unfold doe. lia. }
  unfold civilFromDay. cbv zeta. rewrite Hz.
  assert ((doe + era * 146097) / 146097 = era) as ->.
  { rewrite Z.div_add by lia. rewrite Z.div_small by lia. lia. }
  replace (doe + era * 146097 - era * 146097) with doe by lia.
  set (yoe' := (doe - doe / 1460 + doe / 36524 - doe / 146096) / 365) in *.
  set (doy' := doe - (365 * yoe' + yoe' / 4 - yoe' / 100)) in *.
  set (mp' := (5 * doy' + 2) / 153) in *.
  set (d' := doy' - (153 * mp' + 2) / 5 + 1) in *.
  assert (yoe' = yoe) as -> by lia. assert (mp' = mp) as Emp by lia.
  assert (d' = d) as -> by lia. rewrite Emp.
  unfold mp, yoe, y'. destruct (m0 <? 2) eqn:E.
  - assert ((m0 + 10 <? 10) = false) as -> by lia.
    assert ((m0 + 10 - 10 <? 2) = true) as -> by lia.
    rewrite !pair_equal_spec. lia.
  - assert ((m0 - 2 <? 10) = true) as -> by lia.
    assert ((m0 - 2 + 2 <? 2) = false) as -> by lia.
    rewrite !pair_equal_spec. lia.
Qed.

Lemma decimal_texts (n : Z) : 0 ≤ n < 10000 → decimalCheck n = true.
Proof.
  assert (allFrom decimalCheck 0 (Z.to_nat 10000) = true) as H
    by (vm_compute; reflexivity).
  intros Hn. apply (allFrom_spec _ _ _ _ H). rewrite Z2Nat.id; lia.
Qed.

Lemma padded_texts (n : Z) : 0 ≤ n < 100 → paddedCheck n = true.
Proof.
  assert (allFrom paddedCheck 0 100 = true) as H by (vm_compute; reflexivity).
  intros Hn. apply (allFrom_spec _ _ _ _ H). lia.
Qed.

Lemma digits_tidy (s : string) :
  digits s → startsWithSpace s = false ∧ endsWithSpace s = false.
Proof.
  unfold digits. induction s as [|c s IH]; [done|]. cbn [sall].
  intros [Hc Hs]%andb_true_iff. pose proof (digit_not_space c Hc) as Hsp.
  split; [exact Hsp|]. destruct (IH Hs) as [_ He].
  cbn [endsWithSpace]. by destruct s.
Qed.

(** [Number] on a non-empty text of digits is the integer it writes *)
Lemma Number_digits (s : string) : digits s → s ≠ "" → Number s = ofZ (digitsValue s).
Proof.
  intros Hd Hne. unfold Number. cbv zeta.
  destruct (digits_tidy s Hd) as [H1 H2]. rewrite (trim_fixed s H1 H2).
  rewrite (proj2 (eqs_false s "") Hne).
  destruct s as [|c s]; [done|].
  assert (isDigit c = true) as Hc.
  { unfold digits in Hd. cbn [sall] in Hd. by apply andb_true_iff in Hd as [? _]. }
  assert (nonDecimal (String c s) = None) as ->.
  { unfold nonDecimal. destruct s as [|c' [|c'' s]].
    - by destruct c as [[] [] [] [] [] [] [] []].
    - by destruct c as [[] [] [] [] [] [] [] []].
    - assert (isDigit c' = true) as Hc'.
      { unfold digits in Hd. cbn [sall] in Hd.
        by apply andb_true_iff in Hd as [_ [? _]%andb_true_iff]. }
      assert ((bool_decide (c' = "x"%char) || bool_decide (c' = "X"%char)) = false) as E1.
      { unfold isDigit, code in Hc'. by destruct c' as [[] [] [] [] [] [] [] []]. }
      assert ((bool_decide (c' = "o"%char) || bool_decide (c' = "O"%char)) = false) as E2.
      { unfold isDigit, code in Hc'. by destruct c' as [[] [] [] [] [] [] [] []]. }
      assert ((bool_decide (c' = "b"%char) || bool_decide (c' = "B"%char)) = false) as E3.
      { unfold isDigit, code in Hc'. by destruct c' as [[] [] [] [] [] [] [] []]. }
      destruct c as [[] [] [] [] [] [] [] []]; try done. by rewrite E1, E2, E3. }
  assert (scanSign (String c s) = (false, String c s)) as Hsign.
  { unfold scanSign. unfold isDigit, code in Hc.
    destruct c as [[] [] [] [] [] [] [] []]; try done. }
  assert (String.prefix "Infinity" (String c s) = false) as Hinf.
  { cbn [String.prefix]. unfold isDigit, code in Hc.
    destruct c as [[] [] [] [] [] [] [] []]; try done. }
  unfold scanDecimal. rewrite Hsign, Hinf, (takeDigits_digits _ Hd).
  cbn [eqs]. rewrite app_empty_r.
  assert (eqs (String c s) "" = false) as -> by (by apply eqs_false).
  cbn [andb scanExponent String.length Z.of_nat]. unfold scale10.
  cbn [Z.sub Z.opp Z.leb Z.compare Z.pow Z.pow_pos Pos.iter Z.mul].
  unfold ofZ. do 2 f_equal. lia.
Qed.

(** the date read from a day number is a date of the calendar *)
Lemma civil_valid (day : Z) :
  0 ≤ snd (fst (civilFromDay day)) < 12
  ∧ 1 ≤ snd (civilFromDay day)
        ≤ daysInMonth (fst (fst (civilFromDay day))) (snd (fst (civilFromDay day)) + 1).
Proof.
  unfold civilFromDay. cbv zeta.
  set (z := day + 719468).
  set (era := z / 146097).
  set (doe := z - era * 146097).
  assert (0 ≤ doe < 146097) as Hdoe.
  { unfold doe, era. pose proof (Z.mod_pos_bound z 146097 ltac:(lia)) as H.
    rewrite Z.mod_eq in H by lia. lia. }
  pose proof (civilCheck_era doe Hdoe) as Hc.
  unfold civilCheck in Hc. cbv zeta in Hc.
  set (yoe := (doe - doe / 1460 + doe / 36524 - doe / 146096) / 365) in *.
  set (doy := doe - (365 * yoe + yoe / 4 - yoe / 100)) in *.
  set (mp := (5 * doy + 2) / 153) in *.
  set (d := doy - (153 * mp + 2) / 5 + 1) in *.
  set (m0 := if mp <? 10 then mp + 2 else mp - 10) in *.
  repeat (apply andb_true_iff in Hc as [Hc ?]).
  cbn [fst snd].
  assert (0 ≤ m0 < 12) as Hm0 by (unfold m0; destruct (mp <? 10) eqn:E; lia).
  split; [exact Hm0|].
  assert (daysInMonth (if m0 <? 2 then yoe + era * 400 + 1 else yoe + era * 400) (m0 + 1)
          = daysInMonth (yoe + 400 + (if m0 <? 2 then 1 else 0)) (m0 + 1)) as ->.
  { unfold daysInMonth. destruct (m0 + 1 =? 2); [|done].
    replace (if m0 <? 2 then yoe + era * 400 + 1 else yoe + era * 400)
      with (yoe + 400 + (if m0 <? 2 then 1 else 0) + (era - 1) * 400)
      by (destruct (m0 <? 2); lia).
    by rewrite leapYear_era. }
  lia.
Qed.

Lemma trunc_ofZ (n : Z) : trunc (Qc_of_Z n) = n.
Proof. unfold trunc. cbn [this Qc_of_Z Q2Qc]. apply Z.quot_1_r. Qed.

Lemma sub_ofZ (a b : Z) : sub (ofZ a) (ofZ b) = ofZ (a - b).
Proof.
  unfold sub, neg, ofZ. cbn [add]. f_equal. apply Qc_is_canon.
  unfold Qcplus, Qcopp, Qc_of_Z. cbn [this Q2Qc].
  rewrite !Qred_correct. unfold Qeq, Qplus, Qopp, inject_Z. cbn [Qnum Qden]. lia.
Qed.

Lemma split_three (a b c : string) :
  digits a → digits b → digits c →
  split "-" (a +:+ "-" +:+ b +:+ "-" +:+ c) = [a; b; c].
Proof.
  intros Ha Hb Hc. rewrite !app_single.
  rewrite split_app by (by apply digits_without).
  rewrite split_app by (by apply digits_without).
  by rewrite split_without by (by apply digits_without).
Qed.

Lemma dayFromYearMonth_bound (y m0 : Z) :
  100 ≤ y ≤ 9999 → 0 ≤ m0 < 12 → -719468 ≤ dayFromYearMonth y m0 ≤ 3000000.
Proof.
  intros Hy Hm. unfold dayFromYearMonth. cbv zeta.
  destruct (m0 <? 2) eqn:E; Z.div_mod_to_equations; lia.
Qed.

(** [parseDate] on the text of a date of the calendar *)
Lemma parseDate_isoText (y m d : Z) :
  100 ≤ y ≤ 9999 → validDate y m d →
  parseDate (isoText y m d) = Some (midnightOf y m d).
Proof.
  intros Hy [Hm Hd].
  assert (d < 32) as Hd32.
  { unfold daysInMonth in Hd. destruct (m =? 2); [destruct (leapYear y); lia|].
    destruct (_ || _); lia. }
  pose proof (decimal_texts y ltac:(lia)) as Cy.
  pose proof (padded_texts m ltac:(lia)) as Cm.
  pose proof (padded_texts d ltac:(lia)) as Cd.
  unfold decimalCheck in Cy. unfold paddedCheck in Cm, Cd.
  repeat (apply andb_true_iff in Cy as [Cy ?]).
  repeat (apply andb_true_iff in Cm as [Cm ?]).
  repeat (apply andb_true_iff in Cd as [Cd ?]).
  set (ys := integerToString y) in *.
  set (ms := padStart2 (integerToString m)) in *.
  set (ds := padStart2 (integerToString d)) in *.
  assert (ys ≠ "") as Hys by (by apply eqs_false, negb_true_iff).
  assert (ms ≠ "") as Hms by (intros E; rewrite E in *; done).
  assert (ds ≠ "") as Hds by (intros E; rewrite E in *; done).
  unfold parseDate, isoText. cbv zeta. fold ys ms ds.
  rewrite split_three by done. unfold numberAt. cbn [lookup list_lookup].
  rewrite !Number_digits by done.
  replace (digitsValue ys) with y by lia.
  replace (digitsValue ms) with m by lia.
  replace (digitsValue ds) with d by lia.
  rewrite sub_ofZ. unfold newDate. unfold ofZ at 1. rewrite trunc_ofZ.
  assert (((0 <=? y) && (y <=? 99)) = false) as -> by lia.
  unfold MakeDay, ofZ. rewrite !trunc_ofZ.
  assert ((m - 1) / 12 = 0) as -> by (apply Z.div_small; lia).
  assert ((m - 1) mod 12 = m - 1) as -> by (apply Z.mod_small; lia).
  replace (y + 0) with y by lia.
  pose proof (dayFromYearMonth_bound y (m - 1) Hy ltac:(lia)) as Hbound.
  unfold midnightOf. apply TimeClip_ok. unfold maxTime, msPerDay. lia.
Qed.

Lemma formatDate_isoText (y m d x : Z) :
  validDate y m d → 0 ≤ x < msPerDay →
  formatDate (Some (midnightOf y m d + x)) = isoText y m d.
Proof.
  intros [Hm Hd] Hx. unfold formatDate, getFullYear, getMonth, getDate, midnightOf.
  rewrite Day_within by done.
  rewrite civil_forward by (replace (m - 1 + 1) with m by lia; lia).
  cbn [fst snd]. by replace (m - 1 + 1) with m by lia.
Qed.

(** formatting a date and parsing the text gives the midnight that begins
    the day *)
Lemma parseDate_formatDate (t : Z) :
  100 ≤ getFullYear t ≤ 9999 →
  parseDate (formatDate (Some t)) = Some (Day t * msPerDay).
Proof.
  intros Hy. destruct (civil_valid (Day t)) as [Hm Hd].
  pose proof (civil_inverse (Day t)) as Hinv.
  unfold getFullYear in Hy.
  change (formatDate (Some t))
    with (isoText (fst (fst (civilFromDay (Day t))))
                  (snd (fst (civilFromDay (Day t))) + 1)
                  (snd (civilFromDay (Day t)))).
  rewrite parseDate_isoText; [|done|split; [lia|done]].
  unfold midnightOf. do 2 f_equal.
  replace (snd (fst (civilFromDay (Day t))) + 1 - 1)
    with (snd (fst (civilFromDay (Day t)))) by lia.
  exact Hinv.
Qed.

(** X24.  [formatDate] and [parseDate] are inverse on the dates of the
    calendar of the years 100 to 9999: the text YYYY-MM-DD of such a date
    (month and day padded to two digits) is parsed to the midnight that
    begins it; every time of that day is formatted as that text; and, when
    the date is a Monday, [getWeekRangeFromMonday] labels its week "Week
    of " followed by the very text it was given. *)
Theorem formatDate_parseDate_round_trip (y m d : Z) :
  100 ≤ y ≤ 9999 → validDate y m d →
  parseDate (isoText y m d) = Some (midnightOf y m d)
  ∧ (∀ x, 0 ≤ x < msPerDay →
          formatDate (Some (midnightOf y m d + x)) = isoText y m d)
  ∧ formatDate (parseDate (isoText y m d)) = isoText y m d
  ∧ (getWeekRangeFromMonday (isoText y m d) = None ↔ weekDay (midnightOf y m d) ≠ 1)
  ∧ (∀ range, getWeekRangeFromMonday (isoText y m d) = Some range →
              start range = Some (midnightOf y m d)
              ∧ label range = "Week of " +:+ isoText y m d).
Proof.
  intros Hy Hv.
  pose proof (parseDate_isoText y m d Hy Hv) as Hparse.
  assert (formatDate (Some (midnightOf y m d)) = isoText y m d) as Hformat.
  { rewrite <- (formatDate_isoText y m d 0 Hv) by (unfold msPerDay; lia).
    by rewrite Z.add_0_r. }
  split; [exact Hparse|]. split; [intros x Hx; by apply formatDate_isoText|].
  split; [by rewrite Hparse|].
  unfold getWeekRangeFromMonday. rewrite Hparse, Hformat. split.
  - case_bool_decide as Hw; [|done]. split; [done|]. by intros H.
  - intros range. case_bool_decide as Hw; [|done].
    intros E. apply (inj Some) in E. by subst range.
Qed.

(** Monday 6 January 2025. *)
Lemma formatDate_parseDate_round_trip_witness :
  parseDate "2025-01-06" = Some 1736121600000
  ∧ formatDate (parseDate "2025-01-06") = "2025-01-06".
Proof.
  destruct (formatDate_parseDate_round_trip 2025 1 6) as (Hp & _ & Hf & _).
  - lia.
  - vm_compute. repeat split; discriminate.
  - split; [exact Hp|exact Hf].
Defined.

(** X25.  The default range can be asked for by name: when the reference
    date is at least two weeks inside the range of time values and the
    Monday that starts the previous week is in the years 100 to 9999, the
    text that [formatDate] gives for that Monday (the date of the label)
    is parsed back to it, and [getWeekRangeFromMonday] on that text returns
    the very range of [getPreviousWeekRange]. *)
Theorem getPreviousWeekRange_reproducible (t : Z) :
  Z.abs t ≤ maxTime - 14 * msPerDay →
  let range := getPreviousWeekRange (Some t) in
  ∀ monday, start range = Some monday → 100 ≤ getFullYear monday ≤ 9999 →
    parseDate (formatDate (start range)) = start range
    ∧ label range = "Week of " +:+ formatDate (start range)
    ∧ getWeekRangeFromMonday (formatDate (start range)) = Some range.
Proof.
  intros Hb range monday Hstart Hyear.
  destruct (previousWeek_value t Hb) as (m & Hrange & Hw & Hmid & Hle & _).
  unfold range in *. rewrite Hrange in *. cbn [start label] in *.
  injection Hstart as ->.
  assert (parseDate (formatDate (Some monday)) = Some monday) as Hparse.
  { rewrite parseDate_formatDate by done. f_equal.
    pose proof (Day_time monday) as Ht. rewrite Hmid in Ht. lia. }
  split; [exact Hparse|]. split; [done|].
  unfold getWeekRangeFromMonday. rewrite Hparse.
  rewrite bool_decide_eq_true_2 by done.
  rewrite sundayAfter_midnight; [done|done|]. unfold maxTime, msPerDay in *. lia.
Qed.

(** The run of Wednesday 15 January 2025 is the run asked for with the
    week of 2025-01-06. *)
Lemma getPreviousWeekRange_reproducible_witness :
  getWeekRangeFromMonday (formatDate (start (getPreviousWeekRange (Some 1736944440000))))
  = Some (getPreviousWeekRange (Some 1736944440000)).
Proof.
  apply (getPreviousWeekRange_reproducible 1736944440000) with (monday := 1736121600000).
  - vm_compute. discriminate.
  - vm_compute. reflexivity.
  - vm_compute. split; discriminate.
Defined.

(** ** The delay between attempts *)

Section Delay.

Local Open Scope Qc_scope.

Lemma jittered (b r : Qc) :
    b + b * Q2Qc (1 # 5) * (r * 2 - 1) = b * (Q2Qc (4 # 5) + Q2Qc (2 # 5) * r).
  Proof.
    assert (1 - Q2Qc (1 # 5) = Q2Qc (4 # 5)) as <- by (apply Qc_is_canon; reflexivity).
    assert (2 * Q2Qc (1 # 5) = Q2Qc (2 # 5)) as <- by (apply Qc_is_canon; reflexivity).
    ring.
  Qed.

Lemma jitter_range (b r : Qc) :
    0 ≤ b → 0 ≤ r → r < 1 →
    b * Q2Qc (4 # 5) ≤ b + b * Q2Qc (1 # 5) * (r * 2 - 1)
    ∧ b + b * Q2Qc (1 # 5) * (r * 2 - 1) ≤ b * Q2Qc (6 # 5).
  Proof.
    intros Hb Hr0 Hr1. rewrite jittered. split.
    - apply Qcmult_le_mono_nonneg_l; [done|].
      rewrite <- (Qcplus_0_r (Q2Qc (4 # 5))) at 1. apply Qcplus_le_mono_l.
      by apply Qcmult_nonneg_nonneg.
    - apply Qcmult_le_mono_nonneg_l; [done|].
      assert (Q2Qc (6 # 5) = Q2Qc (4 # 5) + Q2Qc (2 # 5) * 1) as ->
        by (apply Qc_is_canon; reflexivity).
      apply Qcplus_le_mono_l. apply Qcmult_le_mono_nonneg_l; [done|].
      by apply Qclt_le_weak.
  Qed.

End Delay.

(** X26.  [calculateDelay] never exceeds [maxDelayMs].  With a non-negative
    initial delay and multiplier, the delay before the cap is the
    exponential base [initialDelayMs * backoffMultiplier ^ attempt] changed
    by at most a fifth: the delay returned is at most six fifths of the
    base, it is at least four fifths of the base when that is under the
    cap, it is the cap when four fifths of the base reach it, and it is the
    jittered base itself when six fifths of the base are under the cap. *)
Theorem calculateDelay_bounds (random : Qc) (attempt : nat)
    (initialDelayMs maxDelayMs backoffMultiplier : Qc) :
  (0 ≤ random)%Qc → (random < 1)%Qc →
  (0 ≤ initialDelayMs)%Qc → (0 ≤ backoffMultiplier)%Qc →
  let baseDelay := (initialDelayMs * backoffMultiplier ^ attempt)%Qc in
  let delay := calculateDelay random attempt initialDelayMs maxDelayMs
                              backoffMultiplier in
  (delay ≤ maxDelayMs)%Qc
  ∧ (delay ≤ baseDelay * Q2Qc (6 # 5))%Qc
  ∧ ((baseDelay * Q2Qc (4 # 5) ≤ maxDelayMs)%Qc →
     (baseDelay * Q2Qc (4 # 5) ≤ delay)%Qc)
  ∧ ((maxDelayMs ≤ baseDelay * Q2Qc (4 # 5))%Qc → delay = maxDelayMs)
  ∧ ((baseDelay * Q2Qc (6 # 5) < maxDelayMs)%Qc →
     delay = (baseDelay + baseDelay * Q2Qc (1 # 5) * (random * 2 - 1))%Qc).
Proof.
  intros Hr0 Hr1 Hi Hm baseDelay delay.
  assert (0 ≤ baseDelay)%Qc as Hb.
  { unfold baseDelay. apply Qcmult_nonneg_nonneg; [done|]. by apply Qcpower_pos. }
  destruct (jitter_range baseDelay random Hb Hr0 Hr1) as [Hlow Hhigh].
  unfold delay, calculateDelay. cbv zeta. fold baseDelay.
  set (jittered := (baseDelay + baseDelay * Q2Qc (1 # 5) * (random * 2 - 1))%Qc) in *.
  destruct (decide (jittered < maxDelayMs)%Qc) as [Hlt|Hge].
  - rewrite (bool_decide_eq_true_2 _ Hlt).
    split; [by apply Qclt_le_weak|]. split; [done|]. split; [done|].
    split; [|done]. intros Hcap. exfalso.
    apply (Qclt_not_le _ _ Hlt).
    by apply Qcle_trans with (baseDelay * Q2Qc (4 # 5))%Qc.
  - rewrite (bool_decide_eq_false_2 _ Hge). apply Qcnot_lt_le in Hge.
    split; [apply Qcle_refl|]. split; [by apply Qcle_trans with jittered|].
    split; [done|]. split; [done|]. intros Hcap. exfalso.
    apply (Qclt_not_le _ _ Hcap). by apply Qcle_trans with jittered.
Qed.

(** The default options, second attempt, a draw of one half: the delay is
    under the cap of 30000 ms. *)
Lemma calculateDelay_bounds_witness :
  (calculateDelay (Q2Qc (1 # 2)) 1 (Qc_of_Z 1000) (Qc_of_Z 30000) (Qc_of_Z 2)
   ≤ Qc_of_Z 30000)%Qc.
Proof.
  apply (calculateDelay_bounds (Q2Qc (1 # 2)) 1 (Qc_of_Z 1000) (Qc_of_Z 30000)
           (Qc_of_Z 2)); by vm_compute.
Defined.

(** ** Property images *)

Lemma join_empty (sep : string) (parts : list string) :
  sep ≠ "" → join sep parts = "" → Forall (λ part, part = "") parts ∧ (length parts ≤ 1)%nat.
Proof.
  intros Hsep. destruct parts as [|x [|y parts]]; cbn [join].
  - intros _. split; [constructor|cbn [length]; lia].
  - intros ->. split; [by repeat constructor|cbn [length]; lia].
  - intros E. exfalso. destruct x; [|by rewrite app_String in E].
    change ("" +:+ sep +:+ join sep (y :: parts)) with (sep +:+ join sep (y :: parts)) in E.
    destruct sep; [done|]. by rewrite app_String in E.
Qed.

Lemma buildFullAddress_empty (sale : CleanedSale) :
  buildFullAddress sale = ""
  ↔ cs_situs_address sale = "" ∧ cs_city sale = "" ∧ cs_state sale = "" ∧ cs_zip sale = "".
Proof.
  unfold buildFullAddress. cbv zeta. split.
  - intros E. apply join_empty in E as [Hall _]; [|done].
    assert (∀ part, part ∈ [cs_situs_address sale; cs_city sale; cs_state sale; cs_zip sale] →
                    part = "") as Hparts.
    { intros part Hin. destruct (truthy part) eqn:Ht; [|by apply truthy_false].
      rewrite Forall_forall in Hall. apply Hall.
      apply list_elem_of_In, filter_In. split; [by apply list_elem_of_In|done]. }
    repeat split; apply Hparts; set_unfold; tauto.
  - intros (-> & -> & -> & ->). reflexivity.
Qed.

Lemma transformRecord_state (now : string) (record : RawParcelRecord) :
  cs_state (transformRecord now record) = "TN".
Proof. unfold transformRecord. cbv zeta. by destruct (negb _ && _). Qed.

(** X27.  [buildFullAddress] is empty only for a sale whose address, city,
    state and zip are all empty.  A sale made by [transformRecord] always
    has the state "TN", so that its full address is never empty, and
    [getPropertyImageUrl] gives it an image URL exactly when an API key is
    configured: the street-view URL or the satellite URL according to the
    image type, in no case null for want of an address. *)
Theorem getPropertyImageUrl_of_cleaned_sale
    (encodeURIComponent : string → string) (numberToString : number → string)
    (now : string) (record : RawParcelRecord) (apiKey : string)
    (imageType : ImageType) (width height : number) :
  let sale := transformRecord now record in
  (∀ other, buildFullAddress other = ""
            ↔ cs_situs_address other = "" ∧ cs_city other = ""
              ∧ cs_state other = "" ∧ cs_zip other = "")
  ∧ buildFullAddress sale ≠ ""
  ∧ (getPropertyImageUrl encodeURIComponent numberToString sale apiKey imageType
       width height = None ↔ apiKey = "")
  ∧ (apiKey ≠ "" →
     getPropertyImageUrl encodeURIComponent numberToString sale apiKey imageType
       width height
     = Some (match imageType with
             | streetview =>
                 getStreetViewUrl encodeURIComponent numberToString
                   (buildFullAddress sale) apiKey width height
             | satellite =>
                 getSatelliteViewUrl encodeURIComponent numberToString
                   (buildFullAddress sale) apiKey width height
             end)).
Proof.
  intros sale.
  assert (buildFullAddress sale ≠ "") as Hne.
  { intros E. apply buildFullAddress_empty in E as (_ & _ & E & _).
    unfold sale in E. by rewrite transformRecord_state in E. }
  split; [apply buildFullAddress_empty|]. split; [exact Hne|].
  unfold getPropertyImageUrl. cbv zeta.
  apply truthy_true in Hne. rewrite Hne. cbn [negb].
  split.
  - destruct (truthy apiKey) eqn:Hk; cbn [negb].
    + split; [by destruct imageType|]. intros ->. done.
    + split; [intros _; by apply truthy_false|done].
  - intros Hk. apply truthy_true in Hk. rewrite Hk. cbn [negb]. by destruct imageType.
Qed.

(** The sample record with a key: a street-view URL. *)
Lemma getPropertyImageUrl_of_cleaned_sale_witness :
  getPropertyImageUrl id renderNumber
    (transformRecord "2025-01-13T06:00:00.000Z"
       (sampleRecord "01/08/2025" "$250,000" "Warranty Deed"))
    "KEY" streetview (ofZ 600) (ofZ 300)
  = Some (getStreetViewUrl id renderNumber
            (buildFullAddress
               (transformRecord "2025-01-13T06:00:00.000Z"
                  (sampleRecord "01/08/2025" "$250,000" "Warranty Deed")))
            "KEY" (ofZ 600) (ofZ 300)).
Proof.
  apply (proj2 (proj2 (proj2
           (getPropertyImageUrl_of_cleaned_sale id renderNumber "2025-01-13T06:00:00.000Z"
              (sampleRecord "01/08/2025" "$250,000" "Warranty Deed")
              "KEY" streetview (ofZ 600) (ofZ 300))))).
  discriminate.
Defined.
